(** * Connect 4: board engine, presence, challenges, game sessions,
      registration tokens and the client's handlers

    A shallow embedding of [server/src/index.ts]: the three board
    functions ([createEmptyBoard], [checkWinner], [isBoardFull]), the drop
    loop of the [makeMove] handler, the socket handlers that read and
    write the three registries ([onlineUsers], [activeChallenges],
    [activeGames]), and the HTTP routes that issue and redeem registration
    tokens; and of the handlers of the client components that keep the
    chat lists and the game view.  The handlers run one at a time (Node's
    event loop), so each is a function from the state to the next state
    and the list of effects it performs, in program order; a handler that
    awaits is cut at its [await]. *)

From stdpp Require Import gmap strings list fin_maps pretty.
From Stdlib Require Import ZArith Lia.

Local Open Scope Z_scope.

(** ** Board engine *)

(** A cell of the board is [null], ["red"] or ["yellow"]. *)
Inductive Color := Red | Yellow.

#[global] Instance Color_eq_dec : EqDecision Color.
Proof. solve_decision. Defined.

Abbreviation Cell := (option Color).
Abbreviation Board := (list (list Cell)).
Abbreviation Coord := (Z * Z)%type.

(** [arr[i]] for a number [i]: [undefined] (here [None]) outside the array. *)
Definition idx {A} (l : list A) (i : Z) : option A :=
  if decide (0 ≤ i) then l !! Z.to_nat i else None.

(** [board[r]] followed by [row[c]]; [None] when either read is
    [undefined], [Some None] when the cell holds [null]. *)
Definition cellAt (board : Board) (r c : Z) : option Cell :=
  match idx board r with
  | Some rowData => idx rowData c
  | None => None
  end.

(** [Array(6).fill(null).map(() => Array(7).fill(null))] *)
Definition createEmptyBoard : Board := replicate 6 (replicate 7 None).

(** The guard of both [while] loops of [checkWinner]. *)
Definition inBounds (r c : Z) : bool :=
  bool_decide (0 ≤ r) && bool_decide (r < 6) && bool_decide (0 ≤ c) && bool_decide (c < 7).

(** One [while] loop of [checkWinner]: starting at [(r, c)], collect cells
    while they are on the board and hold [player], stepping by [(dr, dc)].
    [fuel] bounds the number of iterations; [walkFuel] below is enough for
    every direction the function uses ([walk_fuel_irrelevant]). *)
Fixpoint walk (fuel : nat) (board : Board) (player : Color) (dr dc r c : Z) : list Coord :=
  match fuel with
  | O => []
  | S fuel' =>
      if inBounds r c then
        if decide (cellAt board r c = Some (Some player))
        then (r, c) :: walk fuel' board player dr dc (r + dr) (c + dc)
        else []
      else []
  end.

Definition walkFuel : nat := 7.

(** directions: horizontal, vertical, diagonal-right, diagonal-left *)
Definition directions : list (Coord * Coord) :=
  [ ((0, 1), (0, -1));
    ((1, 0), (-1, 0));
    ((1, 1), (-1, -1));
    ((1, -1), (-1, 1)) ].

Record WinResult := mkWinResult {
  wr_winner : option Color;
  wr_cells : option (list Coord)
}.

Definition noWinner : WinResult := mkWinResult None None.

(** The cells gathered for one entry of [directions]. *)
Definition axisCells (board : Board) (player : Color) (row col : Z)
    (direction : Coord * Coord) : list Coord :=
  let '(dir1, dir2) := direction in
  (row, col)
    :: walk walkFuel board player dir1.1 dir1.2 (row + dir1.1) (col + dir1.2)
    ++ walk walkFuel board player dir2.1 dir2.2 (row + dir2.1) (col + dir2.2).

(** The [for (const direction of directions)] loop. *)
Fixpoint checkDirections (board : Board) (player : Color) (row col : Z)
    (dirs : list (Coord * Coord)) : WinResult :=
  match dirs with
  | [] => noWinner
  | direction :: rest =>
      let cells := axisCells board player row col direction in
      if bool_decide (4 ≤ length cells)%nat
      then mkWinResult (Some player) (Some cells)
      else checkDirections board player row col rest
  end.

Definition checkWinner (board : Board) (row col : Z) : WinResult :=
  match idx board row with
  | None => noWinner
  | Some currentRow =>
      match idx currentRow col with
      | Some (Some player) => checkDirections board player row col directions
      | _ => noWinner
      end
  end.

(** [topRow.every(cell => cell !== null)] *)
Definition isBoardFull (board : Board) : bool :=
  match board !! 0%nat with
  | None => false
  | Some topRow => forallb (λ cell : Cell, bool_decide (cell ≠ None)) topRow
  end.

(** The drop loop of [makeMove]:
    [for (let r = 5; r >= 0; r--) if (rowData && rowData[col] === null) ...],
    here over the rows [n - 1, ..., 0]; the result is [-1] when no row is
    chosen. *)
Fixpoint scanRows (board : Board) (col : Z) (n : nat) : Z :=
  match n with
  | O => -1
  | S r =>
      if decide (cellAt board (Z.of_nat r) col = Some None)
      then Z.of_nat r
      else scanRows board col r
  end.

Definition findRow (board : Board) (col : Z) : Z := scanRows board col 6.

(** [arr[i] = x] for an index inside the array.  (Outside it JavaScript
    would grow the array or add a property; the handler never does that,
    see [findRow_cell], and here the array is left as it is.) *)
Definition setIdx {A} (l : list A) (i : Z) (x : A) : list A :=
  if decide (0 ≤ i) then <[Z.to_nat i := x]> l else l.

(** [const targetRow = board[row]; if (targetRow) targetRow[col] = color] *)
Definition setCell (board : Board) (row col : Z) (color : Color) : Board :=
  match idx board row with
  | Some targetRow => setIdx board row (setIdx targetRow col (Some color))
  | None => board
  end.

(** The drop as [makeMove] performs it between its column check and its
    call to [checkWinner]: the chosen row and the new board, or [None] at
    the "Column is full!" exit. *)
Definition dropToken (board : Board) (col : Z) (color : Color) : option (Z * Board) :=
  let row := findRow board col in
  if decide (row = -1) then None
  else Some (row, setCell board row col color).

(** ** JavaScript [Map] with string keys

    Entries are kept in insertion order, which is the order [values()],
    [entries()] and [forEach] visit them in.  [set] on a key that is
    present replaces the value in place; on a new key it appends.  A [Map]
    has one entry per key; the lists the handlers build keep that
    ([registries_unique_keys]). *)
Module JsMap.
Section ops.
Context {V : Type}.

Fixpoint get (k : string) (m : list (string * V)) : option V :=
  match m with
  | [] => None
  | (k', v) :: m' => if decide (k' = k) then Some v else get k m'
  end.

Fixpoint set (k : string) (v : V) (m : list (string * V)) : list (string * V) :=
  match m with
  | [] => [(k, v)]
  | (k', v') :: m' =>
      if decide (k' = k) then (k, v) :: m' else (k', v') :: set k v m'
  end.

Definition delete (k : string) (m : list (string * V)) : list (string * V) :=
  filter (λ kv, kv.1 ≠ k) m.

Definition keys (m : list (string * V)) : list string := m.*1.
Definition values (m : list (string * V)) : list V := m.*2.
End ops.
End JsMap.

(** ** Registries and the server state *)

Record OnlineUser := mkOnlineUser {
  ou_socketId : string;
  ou_userId : string;
  ou_username : string
}.

(** [timeout] is the handle [setTimeout] returned. *)
Record Challenge := mkChallenge {
  ch_id : string;
  ch_from : string;
  ch_fromUsername : string;
  ch_fromUserId : string;
  ch_to : string;
  ch_toUsername : string;
  ch_toUserId : string;
  ch_timeout : nat
}.

Record Player := mkPlayer {
  socketId : string;
  userId : string;
  username : string
}.

Record Players := mkPlayers { red : Player; yellow : Player }.

(** [winner: string | null] holds ["red"], ["yellow"] or ["draw"]. *)
Inductive Winner := Won (c : Color) | Draw.

Record GameData := mkGameData {
  g_id : string;
  board : Board;
  currentTurn : Color;
  players : Players;
  winner : option Winner;
  winningCells : option (list Coord)
}.

#[global] Instance OnlineUser_eq_dec : EqDecision OnlineUser.
Proof. solve_decision. Defined.
#[global] Instance Challenge_eq_dec : EqDecision Challenge.
Proof. solve_decision. Defined.
#[global] Instance Player_eq_dec : EqDecision Player.
Proof. solve_decision. Defined.
#[global] Instance Players_eq_dec : EqDecision Players.
Proof. solve_decision. Defined.
#[global] Instance Winner_eq_dec : EqDecision Winner.
Proof. solve_decision. Defined.
#[global] Instance GameData_eq_dec : EqDecision GameData.
Proof. solve_decision. Defined.

(** What a pending timer will run: the closure of [sendChallenge]'s
    [setTimeout] (over [socket], [to] and [challengeId]) or the clean-up
    closure of [makeMove] (over [gameId]). *)
Inductive TimerCallback :=
  | ChallengeExpiry (sock to challengeId : string)
  | GameCleanup (gameId : string).

Record Timer := mkTimer { delay : Z; callback : TimerCallback }.

(** [socket.data] of one connection. *)
Record SocketData := mkSocketData {
  hasJoinedLobby : bool;
  sd_username : option string;
  sd_userId : option string
}.

Definition freshSocket : SocketData := mkSocketData false None None.

Record Server := mkServer {
  onlineUsers : list (string * OnlineUser);
  activeChallenges : list (string * Challenge);
  activeGames : list (string * GameData);
  timers : gmap nat Timer;       (* pending [setTimeout] callbacks, by handle *)
  nextTimer : nat;               (* the next handle [setTimeout] gives out *)
  socketData : gmap string SocketData;
  rooms : gmap string (gset string)  (* rooms each socket was [join]ed to by a
                                        handler; socket.io itself also keeps
                                        every socket in the room named by its
                                        own id *)
}.

Definition initialServer : Server := mkServer [] [] [] ∅ 0%nat ∅ ∅.

Definition with_onlineUsers (u : list (string * OnlineUser)) (s : Server) : Server :=
  mkServer u (activeChallenges s) (activeGames s) (timers s) (nextTimer s)
           (socketData s) (rooms s).
Definition with_activeChallenges (c : list (string * Challenge)) (s : Server) : Server :=
  mkServer (onlineUsers s) c (activeGames s) (timers s) (nextTimer s)
           (socketData s) (rooms s).
Definition with_activeGames (g : list (string * GameData)) (s : Server) : Server :=
  mkServer (onlineUsers s) (activeChallenges s) g (timers s) (nextTimer s)
           (socketData s) (rooms s).
Definition with_socketData (d : gmap string SocketData) (s : Server) : Server :=
  mkServer (onlineUsers s) (activeChallenges s) (activeGames s) (timers s)
           (nextTimer s) d (rooms s).

(** [setTimeout(cb, ms)]: a new handle, one more pending timer. *)
Definition setTimeout (cb : TimerCallback) (ms : Z) (s : Server) : Server :=
  mkServer (onlineUsers s) (activeChallenges s) (activeGames s)
           (<[nextTimer s := mkTimer ms cb]> (timers s)) (S (nextTimer s))
           (socketData s) (rooms s).

(** [clearTimeout(handle)]: the callback will not run. *)
Definition clearTimeout (h : nat) (s : Server) : Server :=
  mkServer (onlineUsers s) (activeChallenges s) (activeGames s)
           (base.delete h (timers s)) (nextTimer s) (socketData s) (rooms s).

Definition sockData (s : Server) (sock : string) : SocketData :=
  default freshSocket (socketData s !! sock).

(** [socket.join(room)] *)
Definition socketJoin (sock room : string) (s : Server) : Server :=
  mkServer (onlineUsers s) (activeChallenges s) (activeGames s) (timers s)
           (nextTimer s) (socketData s)
           (<[sock := {[room]} ∪ default ∅ (rooms s !! sock)]> (rooms s)).

(** ** Events and effects *)

Record LobbyMessage := mkLobbyMessage {
  lm_id : string;
  lm_userId : string;
  lm_username : string;
  lm_text : string;
  lm_ts : string;
  lm_system : bool
}.

(** Server-to-client events with their payloads. *)
Inductive Outbound :=
  | OnlineUsers (usersList : list OnlineUser)
  | NewLobbyMessage (msg : LobbyMessage)
  | ChallengeReceived (from fromUsername to challengeId : string)
  | ChallengeAccepted (gameId : string)
  | ChallengeDeclined (uname : string)
  | ChallengeTimeout
  | GameState (b : Board) (turn : Color) (ps : Players)
              (w : option Winner) (cells : option (list Coord))
  | GameOver (w : option Winner) (cells : option (list Coord))
  | OpponentForfeited (uname : string)
  | InvalidMove (message : string).

(** [socket.emit] reaches the acting connection; [io.to(room).emit]
    reaches the sockets of a room (a socket id names the room of that one
    socket). *)
Inductive Target :=
  | ToSocket (sock : string)
  | ToRoom (room : string).

(** What remains of an [async] handler after its [await pool.query]: it
    runs later, on the state of that moment. *)
Inductive Continuation :=
  | AfterJoinInsert (joinMsg : LobbyMessage) (uname : string)
  | AfterLeaveInsert (leaveMsg : LobbyMessage) (uname : string).

Inductive Effect :=
  | Emit (target : Target) (ev : Outbound)
  | Log (line : string)                      (* console.log *)
  | LogError (line : string)                 (* console.error *)
  | AwaitInsert (msg : LobbyMessage) (k : Continuation).

(** Client-to-server events with their payloads (the two chat relays,
    which only read the registries, are not embedded). *)
Inductive Message :=
  | JoinLobby (uid uname : string)
  | SendChallenge (to toUsername : string)
  | AcceptChallenge (challengeId from : string)
  | DeclineChallenge (challengeId from : string)
  | JoinGame (gameId uid uname : string)
  | MakeMove (gameId : string) (col : Z)
  | ForfeitGame (gameId : string)
  | Disconnect.

Definition colorName (c : Color) : string :=
  match c with Red => "red" | Yellow => "yellow" end.

Definition flipTurn (c : Color) : Color :=
  match c with Red => Yellow | Yellow => Red end.

(** ** Handlers

    [uuid] and [now] stand for what [crypto.randomUUID()] and
    [new Date().toISOString()] return during the call. *)

Definition joinLobby (uuid now sock uid uname : string) (s : Server)
    : Server * list Effect :=
  if hasJoinedLobby (sockData s sock) then (s, [])
  else
    let s1 := with_socketData
                (<[sock := mkSocketData true (Some uname) (Some uid)]> (socketData s))
                (socketJoin sock "main" s) in
    (* remove old socket entries for the user *)
    let stale (e : string * OnlineUser) := ou_userId e.2 = uid ∧ e.1 ≠ sock in
    let removed := filter stale (onlineUsers s1) in
    let kept := filter (λ e, ¬ stale e) (onlineUsers s1) in
    let users := JsMap.set sock (mkOnlineUser sock uid uname) kept in
    let s2 := with_onlineUsers users s1 in
    let joinMsg := mkLobbyMessage uuid "system" "System"
                     (uname +:+ " joined the lobby") now true in
    (s2,
     map (λ e : string * OnlineUser,
            Log ("Removed old socket " +:+ e.1 +:+ " for user " +:+ uname)) removed
     ++ [ Emit (ToRoom "main") (OnlineUsers (JsMap.values users));
          AwaitInsert joinMsg (AfterJoinInsert joinMsg uname) ]).

Definition sendChallenge (uuid sock to toUsername : string) (s : Server)
    : Server * list Effect :=
  match JsMap.get sock (onlineUsers s), JsMap.get to (onlineUsers s) with
  | Some challenger, Some opponent =>
      let challengeId := uuid in
      let timeout := nextTimer s in
      let s1 := setTimeout (ChallengeExpiry sock to challengeId) 10000 s in
      let challenge :=
        mkChallenge challengeId sock (ou_username challenger) (ou_userId challenger)
                    to (ou_username opponent) (ou_userId opponent) timeout in
      let s2 := with_activeChallenges
                  (JsMap.set challengeId challenge (activeChallenges s1)) s1 in
      (s2,
       [ Emit (ToRoom to)
              (ChallengeReceived sock (ou_username challenger) to challengeId);
         Log (ou_username challenger +:+ " challenged " +:+ toUsername) ])
  | _, _ => (s, [])
  end.

Definition acceptChallenge (uuid sock challengeId from : string) (s : Server)
    : Server * list Effect :=
  match JsMap.get challengeId (activeChallenges s) with
  | None => (s, [])
  | Some challenge =>
      let s1 := clearTimeout (ch_timeout challenge) s in
      let s2 := with_activeChallenges
                  (JsMap.delete challengeId (activeChallenges s1)) s1 in
      let gameId := uuid in
      let game :=
        mkGameData gameId createEmptyBoard Red
          (mkPlayers
             (mkPlayer (ch_from challenge) (ch_fromUserId challenge)
                       (ch_fromUsername challenge))
             (mkPlayer (ch_to challenge) (ch_toUserId challenge)
                       (ch_toUsername challenge)))
          None None in
      let s3 := with_activeGames (JsMap.set gameId game (activeGames s2)) s2 in
      (s3,
       [ Log ("Game " +:+ gameId +:+ " created: " +:+ ch_fromUsername challenge
              +:+ " (red) vs " +:+ ch_toUsername challenge +:+ " (yellow)");
         Emit (ToSocket sock) (ChallengeAccepted gameId);
         Emit (ToRoom from) (ChallengeAccepted gameId) ])
  end.

Definition declineChallenge (sock challengeId from : string) (s : Server)
    : Server * list Effect :=
  match JsMap.get challengeId (activeChallenges s) with
  | None => (s, [])
  | Some challenge =>
      let s1 := clearTimeout (ch_timeout challenge) s in
      let s2 := with_activeChallenges
                  (JsMap.delete challengeId (activeChallenges s1)) s1 in
      let decliner := JsMap.get sock (onlineUsers s2) in
      (* decliner?.username || "Opponent" *)
      let shown :=
        match decliner with
        | Some d => if decide (ou_username d = "") then "Opponent" else ou_username d
        | None => "Opponent"
        end in
      let logged :=
        match decliner with Some d => ou_username d | None => "undefined" end in
      (s2,
       [ Emit (ToRoom from) (ChallengeDeclined shown);
         Log (logged +:+ " declined challenge from " +:+ ch_fromUsername challenge) ])
  end.

Definition joinGame (sock gameId uid uname : string) (s : Server)
    : Server * list Effect :=
  let s1 := socketJoin sock gameId s in
  match JsMap.get gameId (activeGames s1) with
  | None =>
      (s1, [ LogError ("Game " +:+ gameId +:+ " not found when " +:+ uname
                       +:+ " tried to join") ])
  | Some game =>
      let ps := players game in
      let emitState (g : GameData) :=
        Emit (ToRoom gameId)
             (GameState (board g) (currentTurn g) (players g) (winner g)
                        (winningCells g)) in
      let rebound (ps' : Players) :=
        mkGameData (g_id game) (board game) (currentTurn game) ps'
                   (winner game) (winningCells game) in
      if decide (userId (red ps) = uid) then
        let game' := rebound (mkPlayers (mkPlayer sock (userId (red ps))
                                                  (username (red ps))) (yellow ps)) in
        (with_activeGames (JsMap.set gameId game' (activeGames s1)) s1,
         [ Log (uname +:+ " joined game " +:+ gameId +:+ " as red player");
           emitState game' ])
      else if decide (userId (yellow ps) = uid) then
        let game' := rebound (mkPlayers (red ps)
                                (mkPlayer sock (userId (yellow ps))
                                          (username (yellow ps)))) in
        (with_activeGames (JsMap.set gameId game' (activeGames s1)) s1,
         [ Log (uname +:+ " joined game " +:+ gameId +:+ " as yellow player");
           emitState game' ])
      else
        (s1, [ LogError ("User " +:+ uname +:+ " (" +:+ uid
                         +:+ ") is not part of game " +:+ gameId) ])
  end.

(** [game.players.red.socketId === socket.id ? "red" : "yellow"] *)
Definition colorOf (game : GameData) (sock : string) : Color :=
  if decide (socketId (red (players game)) = sock) then Red else Yellow.

(** [col] is the column index as the client sends it, an integer number
    ([handleColumnClick]).  The handler does not test the type of the
    payload; what it does with a [col] of another kind is
    [makeMoveUntyped]. *)
Definition makeMove (sock gameId : string) (col : Z) (s : Server)
    : Server * list Effect :=
  match JsMap.get gameId (activeGames s) with
  | None => (s, [])
  | Some game =>
      let playerColor := colorOf game sock in
      if decide (currentTurn game ≠ playerColor) then
        (s, [ Emit (ToSocket sock) (InvalidMove "It's not your turn!") ])
      else if bool_decide (winner game ≠ None) then
        (s, [ Emit (ToSocket sock) (InvalidMove "Game is already over!") ])
      else if decide (col < 0 ∨ col >= 7) then
        (s, [ Emit (ToSocket sock) (InvalidMove "Invalid column!") ])
      else
        let row := findRow (board game) col in
        if decide (row = -1) then
          (s, [ Emit (ToSocket sock) (InvalidMove "Column is full!") ])
        else
          let board' := setCell (board game) row col playerColor in
          let result := checkWinner board' row col in
          match wr_winner result with
          | Some w =>
              let game' := mkGameData (g_id game) board' (currentTurn game)
                             (players game) (Some (Won w)) (wr_cells result) in
              let s1 := with_activeGames
                          (JsMap.set gameId game' (activeGames s)) s in
              (setTimeout (GameCleanup gameId) 30000 s1,
               [ Emit (ToRoom gameId)
                      (GameState (board game') (currentTurn game') (players game')
                                 (winner game') (winningCells game'));
                 Emit (ToRoom gameId) (GameOver (Some (Won w)) (wr_cells result));
                 Log ("Game " +:+ gameId +:+ " won by " +:+ colorName w) ])
          | None =>
              if isBoardFull board' then
                let game' := mkGameData (g_id game) board' (currentTurn game)
                               (players game) (Some Draw) (winningCells game) in
                let s1 := with_activeGames
                            (JsMap.set gameId game' (activeGames s)) s in
                (setTimeout (GameCleanup gameId) 30000 s1,
                 [ Emit (ToRoom gameId)
                        (GameState (board game') (currentTurn game') (players game')
                                   (Some Draw) None);
                   Emit (ToRoom gameId) (GameOver (Some Draw) None);
                   Log ("Game " +:+ gameId +:+ " ended in a draw") ])
              else
                let game' := mkGameData (g_id game) board'
                               (flipTurn (currentTurn game))
                               (players game) (winner game) (winningCells game) in
                (with_activeGames (JsMap.set gameId game' (activeGames s)) s,
                 [ Emit (ToRoom gameId)
                        (GameState (board game') (currentTurn game') (players game')
                                   (winner game') (winningCells game')) ])
          end
  end.

Definition forfeitGame (sock gameId : string) (s : Server)
    : Server * list Effect :=
  match JsMap.get gameId (activeGames s) with
  | None => (s, [])
  | Some game =>
      let ps := players game in
      let forfeiter := if decide (socketId (red ps) = sock) then red ps else yellow ps in
      let opponent := if decide (socketId (red ps) = sock) then yellow ps else red ps in
      (with_activeGames (JsMap.delete gameId (activeGames s)) s,
       [ Emit (ToRoom (socketId opponent)) (OpponentForfeited (username forfeiter));
         Log (username forfeiter +:+ " forfeited game " +:+ gameId) ])
  end.

(** The test of the [forEach] callback in the disconnect handler. *)
Definition involves (sock : string) (e : string * Challenge) : Prop :=
  ch_from e.2 = sock ∨ ch_to e.2 = sock.

#[global] Instance involves_dec sock e : Decision (involves sock e).
Proof. unfold involves. apply _. Defined.

Definition clearTimeouts (hs : list nat) (s : Server) : Server :=
  foldr clearTimeout s hs.

Definition disconnect (uuid now sock : string) (s : Server)
    : Server * list Effect :=
  match JsMap.get sock (onlineUsers s) with
  | None => (s, [])
  | Some user =>
      let s1 := with_onlineUsers (JsMap.delete sock (onlineUsers s)) s in
      let hit := filter (involves sock) (activeChallenges s1) in
      let s2 := clearTimeouts (map (λ e : string * Challenge, ch_timeout e.2) hit) s1 in
      let s3 := with_activeChallenges
                  (filter (λ e, ¬ involves sock e) (activeChallenges s2)) s2 in
      let otherSocket (ch : Challenge) :=
        if decide (ch_from ch = sock) then ch_to ch else ch_from ch in
      let leaveMsg := mkLobbyMessage uuid "system" "System"
                        (ou_username user +:+ " left the lobby") now true in
      (s3,
       map (λ e : string * Challenge,
              Emit (ToRoom (otherSocket e.2)) ChallengeTimeout) hit
       ++ [ Emit (ToRoom "main") (OnlineUsers (JsMap.values (onlineUsers s3)));
            AwaitInsert leaveMsg (AfterLeaveInsert leaveMsg (ou_username user)) ])
  end.

(** A pending timer runs its callback once; a handle that was cleared, or
    has already run, does nothing. *)
Definition fireTimer (h : nat) (s : Server) : Server * list Effect :=
  match timers s !! h with
  | None => (s, [])
  | Some t =>
      let s1 := clearTimeout h s in
      match callback t with
      | ChallengeExpiry sock to challengeId =>
          (with_activeChallenges
             (JsMap.delete challengeId (activeChallenges s1)) s1,
           [ Emit (ToSocket sock) ChallengeTimeout;
             Emit (ToRoom to) ChallengeTimeout;
             Log ("Challenge " +:+ challengeId +:+ " timed out") ])
      | GameCleanup gameId =>
          (with_activeGames (JsMap.delete gameId (activeGames s1)) s1,
           [ Log ("Game " +:+ gameId +:+ " cleaned up") ])
      end
  end.

(** The code after an [await pool.query]: the write has settled.  When
    it failed, the [catch] around it logs the error (the error object
    printed after the text is left out); the code goes on all the same. *)
Definition resume (k : Continuation) (failed : bool) (s : Server)
    : Server * list Effect :=
  (s,
   (if failed then [ LogError "Error saving system message:" ] else [])
   ++ match k with
      | AfterJoinInsert joinMsg uname =>
          [ Emit (ToRoom "main") (NewLobbyMessage joinMsg);
            Log (uname +:+ " joined lobby. Total users: "
                 +:+ pretty (length (onlineUsers s))) ]
      | AfterLeaveInsert leaveMsg uname =>
          [ Emit (ToRoom "main") (NewLobbyMessage leaveMsg);
            Log (uname +:+ " left lobby. Total users: "
                 +:+ pretty (length (onlineUsers s))) ]
      end).

Definition handle (uuid now sock : string) (m : Message) (s : Server)
    : Server * list Effect :=
  match m with
  | JoinLobby uid uname => joinLobby uuid now sock uid uname s
  | SendChallenge to toUsername => sendChallenge uuid sock to toUsername s
  | AcceptChallenge challengeId from => acceptChallenge uuid sock challengeId from s
  | DeclineChallenge challengeId from => declineChallenge sock challengeId from s
  | JoinGame gameId uid uname => joinGame sock gameId uid uname s
  | MakeMove gameId col => makeMove sock gameId col s
  | ForfeitGame gameId => forfeitGame sock gameId s
  | Disconnect => disconnect uuid now sock s
  end.

(** ** Runs of the server: what the event loop hands to the handlers *)

Inductive Event :=
  | Receives (uuid now sock : string) (m : Message)
  | TimerFires (h : nat)
  | Resumes (k : Continuation) (failed : bool).

Definition step (e : Event) (s : Server) : Server * list Effect :=
  match e with
  | Receives uuid now sock m => handle uuid now sock m s
  | TimerFires h => fireTimer h s
  | Resumes k failed => resume k failed s
  end.

Fixpoint run (es : list Event) (s : Server) : Server * list Effect :=
  match es with
  | [] => (s, [])
  | e :: es' =>
      let '(s1, out1) := step e s in
      let '(s2, out2) := run es' s1 in
      (s2, out1 ++ out2)
  end.

(** ** Vocabulary of the board properties *)

(** The cell [(r, c)] is on the board and holds [p]: what makes a [while]
    loop of [checkWinner] take one more step. *)
Definition owns (b : Board) (p : Color) (r c : Z) : Prop :=
  inBounds r c = true ∧ cellAt b r c = Some (Some p).

#[global] Instance owns_dec b p r c : Decision (owns b p r c).
Proof. unfold owns. apply _. Defined.

(** The [n] cells after [(row, col)] in direction [d]. *)
Definition ray (row col : Z) (d : Coord) (n : nat) : list Coord :=
  map (λ i : nat, (row + Z.of_nat i * d.1, col + Z.of_nat i * d.2)) (seq 1 n).

(** Four cells in a line of direction [d], one of them [(row, col)] (the
    [k]-th of the four), the other three on the board and holding [p]. *)
Definition fourInLine (b : Board) (p : Color) (row col : Z) (d : Coord) : Prop :=
  ∃ k, 0 ≤ k ≤ 3 ∧
       ∀ j, 0 ≤ j ≤ 3 → j ≠ k →
            owns b p (row + (j - k) * d.1) (col + (j - k) * d.2).

(** Boards of play: a list of drops (column, colour) made one after the
    other, each as [makeMove] makes it; [None] if one of them is refused
    (column outside [0,7) or full). *)
Fixpoint playDrops (drops : list (Z * Color)) (b : Board) : option Board :=
  match drops with
  | [] => Some b
  | (col, color) :: rest =>
      if decide (col < 0 ∨ col >= 7) then None
      else match dropToken b col color with
           | Some (_, b') => playDrops rest b'
           | None => None
           end
  end.

(** Number of cells that are not [null]. *)
Definition occupiedCells (b : Board) : nat :=
  sum_list (map (λ rowData : list Cell,
                   length (filter (λ cell : Cell, cell ≠ None) rowData)) b).

(** The steps [checkWinner] walks by: one cell along a row, a column or a
    diagonal. *)
Definition unitStep (dr dc : Z) : Prop :=
  -1 ≤ dr ≤ 1 ∧ -1 ≤ dc ≤ 1 ∧ (dr ≠ 0 ∨ dc ≠ 0).

(** Six rows of seven cells. *)
Definition wellShaped (b : Board) : Prop :=
  length b = 6%nat ∧ Forall (λ rowData : list Cell, length rowData = 7%nat) b.

(** Tokens rest on the bottom or on another token: above an empty cell
    every cell is empty. *)
Definition settled (b : Board) : Prop :=
  ∀ r c, 0 ≤ r → cellAt b (r + 1) c = Some None → cellAt b r c = Some None.

(** ** Vocabulary of the registry properties *)

(** The presence registry holds one entry per connection id, and no two
    entries for one user id. *)
Definition oneEntryPerConnection (s : Server) : Prop :=
  NoDup (JsMap.keys (onlineUsers s)).

Definition oneEntryPerUser (s : Server) : Prop :=
  NoDup (ou_userId <$> JsMap.values (onlineUsers s)).

(** No two entries of the presence registry carry the same user id. *)
Definition perUser (m : list (string * OnlineUser)) : Prop :=
  ∀ e1 e2, e1 ∈ m → e2 ∈ m → ou_userId e1.2 = ou_userId e2.2 → e1.1 = e2.1.

(** ** Vocabulary of the session properties *)

(** The event is a [makeMove] on the session [gid]. *)
Definition isMoveOn (gid : string) (e : Event) : Prop :=
  match e with
  | Receives _ _ _ (MakeMove gameId _) => gameId = gid
  | _ => False
  end.

#[global] Instance isMoveOn_dec gid e : Decision (isMoveOn gid e).
Proof. destruct e as [? ? ? []| |]; simpl; apply _. Defined.

(** [l] starts with [turn] and changes colour at every position. *)
Fixpoint alternates (turn : Color) (l : list Color) : Prop :=
  match l with
  | [] => True
  | c :: l' => c = turn ∧ alternates (flipTurn turn) l'
  end.

(** The colours of the players whose moves on [gid] were applied during a
    run, in order; a move is applied when it changes the board. *)
Fixpoint appliedMoves (gid : string) (es : list Event) (s : Server) : list Color :=
  match es with
  | [] => []
  | e :: es' =>
      let s' := (step e s).1 in
      match e, JsMap.get gid (activeGames s), JsMap.get gid (activeGames s') with
      | Receives _ _ sock (MakeMove _ _), Some g, Some g' =>
          if decide (board g' ≠ board g)
          then colorOf g sock :: appliedMoves gid es' s'
          else appliedMoves gid es' s'
      | _, _, _ => appliedMoves gid es' s'
      end
  end.

(** What a move on a finished game [g] is answered with. *)
Definition rejection (g : GameData) (e : Event) : list Effect :=
  match e with
  | Receives _ _ sock (MakeMove _ _) =>
      [ Emit (ToSocket sock)
             (InvalidMove (if decide (colorOf g sock = currentTurn g)
                           then "Game is already over!"
                           else "It's not your turn!")) ]
  | _ => []
  end.

(** ** Vocabulary of the challenge properties *)

(** [crypto.randomUUID()] never returns the id of a pending challenge:
    every [sendChallenge] of the run draws an id that is not in use. *)
Fixpoint freshRun (es : list Event) (s : Server) : Prop :=
  match es with
  | [] => True
  | e :: es' =>
      match e with
      | Receives uuid _ _ (SendChallenge _ _) =>
          JsMap.get uuid (activeChallenges s) = None
      | _ => True
      end
      ∧ freshRun es' (step e s).1
  end.

(** Pending challenges and their expiry timers go together: every pending
    challenge has its 10-second timer armed under the handle it stores,
    every armed expiry timer belongs to a pending challenge, and handles
    not yet given out are not armed. *)
Definition challengesInv (s : Server) : Prop :=
  NoDup (JsMap.keys (activeChallenges s))
  ∧ (∀ cid ch, JsMap.get cid (activeChallenges s) = Some ch →
       timers s !! ch_timeout ch
       = Some (mkTimer 10000 (ChallengeExpiry (ch_from ch) (ch_to ch) cid)))
  ∧ (∀ h d sock to cid,
       timers s !! h = Some (mkTimer d (ChallengeExpiry sock to cid)) →
       ∃ ch, JsMap.get cid (activeChallenges s) = Some ch ∧ ch_timeout ch = h)
  ∧ (∀ h, (nextTimer s ≤ h)%nat → timers s !! h = None).

(** ** Sample runs *)

(** Three users in the lobby. *)
Definition lobbyOfThree : Server :=
  (run [ Receives "m1" "t1" "A" (JoinLobby "ua" "alice");
         Receives "m2" "t2" "B" (JoinLobby "ub" "bob");
         Receives "m3" "t3" "C" (JoinLobby "uc" "carol") ] initialServer).1.

(** Alice has challenged Bob. *)
Definition challengePending : Server :=
  (step (Receives "c1" "t4" "A" (SendChallenge "B" "bob")) lobbyOfThree).1.

(** Bob has accepted: game ["g1"], Alice red, Bob yellow; Alice has played
    column 0, so it is yellow's turn. *)
Definition gameUnderWay : Server :=
  (run [ Receives "g1" "t5" "B" (AcceptChallenge "c1" "A");
         Receives "" "" "A" (MakeMove "g1" 0) ] challengePending).1.

(** Alice has challenged her own connection and accepted: both players of
    game ["g2"] are connection ["A"]. *)
Definition gameAgainstSelf : Server :=
  (run [ Receives "c2" "t4" "A" (SendChallenge "A" "alice");
         Receives "g2" "t5" "A" (AcceptChallenge "c2" "A") ] lobbyOfThree).1.

(** The session ["g1"] of [gameUnderWay]. *)
Definition gameAfterFirstMove : GameData :=
  mkGameData "g1"
    [ replicate 7 None; replicate 7 None; replicate 7 None;
      replicate 7 None; replicate 7 None;
      [Some Red; None; None; None; None; None; None] ]
    Yellow
    (mkPlayers (mkPlayer "A" "ua" "alice") (mkPlayer "B" "ub" "bob"))
    None None.

(** The challenge pending in [challengePending]. *)
Definition aliceChallengesBob : Challenge :=
  mkChallenge "c1" "A" "alice" "ua" "B" "bob" "ub" 0.

(** Moves on ["g1"] from [gameUnderWay]: yellow, red out of turn (turned
    down), red, yellow. *)
Definition someMoves : list Event :=
  [ Receives "" "" "B" (MakeMove "g1" 1);
    Receives "" "" "B" (MakeMove "g1" 2);
    Receives "" "" "A" (MakeMove "g1" 0);
    Receives "" "" "B" (MakeMove "g1" 1) ].

(** Forty-two drops that fill the board column by column. *)
Definition fillingDrops : list (Z * Color) :=
  flat_map (λ col : Z, [(col, Red); (col, Yellow); (col, Red);
                        (col, Yellow); (col, Red); (col, Yellow)])
           [0; 1; 2; 3; 4; 5; 6].

Definition filledBoard : Board :=
  [ replicate 7 (Some Yellow); replicate 7 (Some Red);
    replicate 7 (Some Yellow); replicate 7 (Some Red);
    replicate 7 (Some Yellow); replicate 7 (Some Red) ].

(** A board on which red owns five cells of the bottom row. *)
Definition fiveInBottomRow : Board :=
  [ replicate 7 None; replicate 7 None; replicate 7 None;
    replicate 7 None; replicate 7 None;
    [Some Red; Some Red; Some Red; Some Red; Some Red; None; None] ].

(** The three registries as [Map]s: no key occurs twice. *)
Definition uniqueKeys (s : Server) : Prop :=
  NoDup (JsMap.keys (onlineUsers s))
  ∧ NoDup (JsMap.keys (activeChallenges s))
  ∧ NoDup (JsMap.keys (activeGames s)).

(** Every session's board is a board of play. *)
Definition boardsOfPlay (s : Server) : Prop :=
  ∀ gid g, JsMap.get gid (activeGames s) = Some g →
           wellShaped (board g) ∧ settled (board g).

(** ** Vocabulary of the further board and session properties *)

(** Number of cells holding a token of colour [c]. *)
Definition countColor (c : Color) (b : Board) : nat :=
  sum_list (map (λ rowData : list Cell,
                   length (filter (λ cell : Cell, cell = Some c) rowData)) b).

(** The tokens on the board of a session match its turn: red moves first,
    and a move that ends the game leaves [currentTurn] on its mover. *)
Definition balanced (g : GameData) : Prop :=
  match winner g, currentTurn g with
  | None, Red => countColor Red (board g) = countColor Yellow (board g)
  | None, Yellow => countColor Red (board g) = S (countColor Yellow (board g))
  | Some _, Red => countColor Red (board g) = S (countColor Yellow (board g))
  | Some _, Yellow => countColor Red (board g) = countColor Yellow (board g)
  end.

(** What [joinGame] may change of a session: the players' socket ids. *)
Definition rebound (g : GameData) (ps : Players) : GameData :=
  mkGameData (g_id g) (board g) (currentTurn g) ps (winner g) (winningCells g).

(** A recorded result agrees with the board. *)
Definition resultOnBoard (g : GameData) : Prop :=
  match winner g with
  | Some (Won c) =>
      currentTurn g = c
      ∧ ∃ cells, winningCells g = Some cells
                 ∧ (4 ≤ length cells)%nat
                 ∧ NoDup cells
                 ∧ ∀ rc, rc ∈ cells → cellAt (board g) rc.1 rc.2 = Some (Some c)
  | Some Draw => occupiedCells (board g) = 42%nat ∧ winningCells g = None
  | None => isBoardFull (board g) = false ∧ winningCells g = None
  end.

(** The events that lead from the start of the server to [gameUnderWay]. *)
Definition eventsToGameUnderWay : list Event :=
  [ Receives "m1" "t1" "A" (JoinLobby "ua" "alice");
    Receives "m2" "t2" "B" (JoinLobby "ub" "bob");
    Receives "m3" "t3" "C" (JoinLobby "uc" "carol");
    Receives "c1" "t4" "A" (SendChallenge "B" "bob");
    Receives "g1" "t5" "B" (AcceptChallenge "c1" "A");
    Receives "" "" "A" (MakeMove "g1" 0) ].

(** Six more moves on ["g1"]: red wins with four in column 0. *)
Definition eventsToRedWin : list Event :=
  eventsToGameUnderWay
  ++ [ Receives "" "" "B" (MakeMove "g1" 1);
       Receives "" "" "A" (MakeMove "g1" 0);
       Receives "" "" "B" (MakeMove "g1" 1);
       Receives "" "" "A" (MakeMove "g1" 0);
       Receives "" "" "B" (MakeMove "g1" 1);
       Receives "" "" "A" (MakeMove "g1" 0) ].

Definition gameWonByRed : GameData :=
  mkGameData "g1"
    [ replicate 7 None; replicate 7 None;
      [Some Red; None; None; None; None; None; None];
      [Some Red; Some Yellow; None; None; None; None; None];
      [Some Red; Some Yellow; None; None; None; None; None];
      [Some Red; Some Yellow; None; None; None; None; None] ]
    Red
    (mkPlayers (mkPlayer "A" "ua" "alice") (mkPlayer "B" "ub" "bob"))
    (Some (Won Red)) (Some [(2, 0); (3, 0); (4, 0); (5, 0)]).

(** The state before red's winning move of [eventsToRedWin], and the
    session ["g1"] in it. *)
Definition beforeRedWin : Server :=
  (run (take 11 eventsToRedWin) initialServer).1.

Definition gameBeforeRedWin : GameData :=
  mkGameData "g1"
    [ replicate 7 None; replicate 7 None; replicate 7 None;
      [Some Red; Some Yellow; None; None; None; None; None];
      [Some Red; Some Yellow; None; None; None; None; None];
      [Some Red; Some Yellow; None; None; None; None; None] ]
    Red
    (mkPlayers (mkPlayer "A" "ua" "alice") (mkPlayer "B" "ub" "bob"))
    None None.

(** ** Vocabulary of the presence broadcasts *)

(** Every entry of the presence registry is filed under its own
    [socketId]. *)
Definition keyedBySocket (m : list (string * OnlineUser)) : Prop :=
  ∀ e, e ∈ m → ou_socketId e.2 = e.1.

(** Every connection in the presence registry has run its [joinLobby]:
    its [hasJoinedLobby] flag is set. *)
Definition joinedAreFlagged (s : Server) : Prop :=
  ∀ sock u, JsMap.get sock (onlineUsers s) = Some u →
            hasJoinedLobby (sockData s sock) = true.

(** ** Registration over HTTP: one-time tokens

    [registrationTokens] and the three pieces of code that touch it: the
    clean-up interval, [GET /api/register-token] and [POST /api/register].
    Times are [Date.now()] in milliseconds.  A JavaScript string is held
    as its UTF-8 bytes.  [hmac] stands for the hex digest of HMAC-SHA256
    under [TOKEN_SECRET]. *)
Module Registration.

Record RegistrationToken := mkRegistrationToken {
  token : string;
  ip : string;
  userAgent : string;
  timestamp : Z;
  expiresAt : Z
}.

Abbreviation Tokens := (list (string * RegistrationToken)).

(** The callback of [setInterval]: every entry of the map is visited,
    and an expired one is deleted under its key. *)
Definition cleanup (now : Z) (m : Tokens) : Tokens :=
  foldl (λ (acc : Tokens) (e : string * RegistrationToken),
           if decide (now > expiresAt e.2) then JsMap.delete e.1 acc else acc)
        m m.

(** What the server reads of a request: [req.ip],
    [req.socket.remoteAddress] and the [user-agent] header. *)
Record Request := mkRequest {
  reqIp : option string;
  remoteAddress : option string;
  userAgentHeader : option string
}.

(** [x || d] for a string [x] that may be undefined: [d] when [x] is
    undefined or empty. *)
Definition orElse (x : option string) (d : string) : string :=
  match x with
  | Some v => if decide (v = "") then d else v
  | None => d
  end.

(** [req.ip || req.socket.remoteAddress || 'unknown'] *)
Definition clientIp (req : Request) : string :=
  orElse (reqIp req) (orElse (remoteAddress req) "unknown").

(** [req.headers['user-agent'] || 'unknown'] *)
Definition clientAgent (req : Request) : string :=
  orElse (userAgentHeader req) "unknown".

(** The UTF-16 code units that the character starting at a byte takes: a
    continuation byte starts none; the first byte of a four-byte sequence
    starts a character outside the basic plane, which takes two. *)
Definition codeUnits (c : Ascii.ascii) : Z :=
  let n := Z.of_N (Ascii.N_of_ascii c) in
  if decide (n < 128) then 1
  else if decide (n < 192) then 0
  else if decide (n < 240) then 1
  else 2.

(** [x.length] of a string [x]: its number of UTF-16 code units. *)
Fixpoint strlen (x : string) : Z :=
  match x with
  | EmptyString => 0
  | String c rest => codeUnits c + strlen rest
  end.

(** A field of the JSON body, as far as the handler looks at it.  A
    string is itself.  Of any other value (absent, null, a number, an
    array, an object) the handler uses whether it is truthy, what its
    [length] compares as (an integer that the tests of the handler cannot
    tell from it, or nothing when the comparisons with it are false, as
    for the undefined [length] of a number), and the text a template
    literal prints for it. *)
Inductive Field :=
  | Str (s : string)
  | NonStr (isTruthy : bool) (len : option Z) (text : string).

(** [!x] is false *)
Definition truthy (x : Field) : bool :=
  match x with
  | Str s => bool_decide (s ≠ "")
  | NonStr isTruthy _ _ => isTruthy
  end.

(** [x.length], as the comparisons see it *)
Definition lengthOf (x : Field) : option Z :=
  match x with
  | Str s => Some (strlen s)
  | NonStr _ len _ => len
  end.

(** [`${x}`] *)
Definition shown (x : Field) : string :=
  match x with
  | Str s => s
  | NonStr _ _ text => text
  end.

(** [registrationTokens.get(x)]: the keys of the map are strings, and a
    value that is not a string equals none of them. *)
Definition storedUnder (x : Field) (m : Tokens) : option (string * RegistrationToken) :=
  match x with
  | Str tok =>
      match JsMap.get tok m with
      | Some storedToken => Some (tok, storedToken)
      | None => None
      end
  | NonStr _ _ _ => None
  end.

Record RegisterBody := mkRegisterBody {
  b_username : Field;
  b_password : Field;
  b_token : Field;
  b_captchaToken : Field
}.

Inductive Reply :=
  | ErrorReply (status : Z) (error : string)
  | Created (userId : string).      (* status 201 *)

(** Where [POST /api/register] stands when it reaches its first [await]
    or returns before it. *)
Inductive Checked :=
  | Answered (reply : Reply)
  | AwaitsCaptcha (tok uname currentIp captchaToken : string).

(** What reCAPTCHA answered, and what the three database steps (look-up
    of the name, hash of the password, insert) came to. *)
Inductive CaptchaOutcome := CaptchaSuccess | CaptchaFailure | CaptchaThrows.
Inductive DbOutcome := UsernameTaken | Inserted (id : string) | DbThrows.

(** [POST /api/register] up to the call of reCAPTCHA. *)
Definition registerChecks (req : Request) (body : RegisterBody) (now : Z) (m : Tokens)
    : Tokens * list Effect * Checked :=
  if negb (truthy (b_username body)) || negb (truthy (b_password body))
     || negb (truthy (b_token body)) then
    (m, [], Answered (ErrorReply 400 "Username, password, and token are required"))
  else if match lengthOf (b_username body) with
          | Some n => bool_decide (n < 3 ∨ n > 50)
          | None => false
          end then
    (m, [], Answered (ErrorReply 400 "Username must be between 3 and 50 characters"))
  else if match lengthOf (b_password body) with
          | Some n => bool_decide (n < 6)
          | None => false
          end then
    (m, [], Answered (ErrorReply 400 "Password must be at least 6 characters"))
  else
    match storedUnder (b_token body) m with
    | None =>
        (m, [ Log ("Invalid token attempt: " +:+ shown (b_token body)) ],
         Answered (ErrorReply 403 "Invalid or expired registration token"))
    | Some (tok, storedToken) =>
        let currentIp := clientIp req in
        let currentUserAgent := clientAgent req in
        if decide (now > expiresAt storedToken) then
          (JsMap.delete tok m,
           [ Log ("Expired token attempt from IP " +:+ currentIp) ],
           Answered (ErrorReply 403
             "Registration token has expired. Please refresh the page."))
        else if decide (ip storedToken ≠ currentIp) then
          (m, [ Log ("IP mismatch: stored=" +:+ ip storedToken
                     +:+ ", current=" +:+ currentIp) ],
           Answered (ErrorReply 403
             "Registration token validation failed (IP mismatch)"))
        else if decide (userAgent storedToken ≠ currentUserAgent) then
          (m, [ Log ("User agent mismatch for IP " +:+ currentIp) ],
           Answered (ErrorReply 403
             "Registration token validation failed (browser mismatch)"))
        else if negb (truthy (b_captchaToken body)) then
          (m, [], Answered (ErrorReply 400 "CAPTCHA verification required"))
        else
          (m, [], AwaitsCaptcha tok (shown (b_username body)) currentIp
                                (shown (b_captchaToken body)))
    end.

(** The rest of [POST /api/register], on the map of the moment it runs
    (the objects that two of the log lines print after their text are
    left out). *)
Definition registerCompletes (tok uname currentIp : string)
    (captcha : CaptchaOutcome) (db : DbOutcome) (m : Tokens)
    : Tokens * list Effect * Reply :=
  match captcha with
  | CaptchaFailure =>
      (m, [ Log "reCAPTCHA verification failed:" ],
       ErrorReply 403 "CAPTCHA verification failed. Please try again.")
  | CaptchaThrows =>
      (m, [ LogError "reCAPTCHA verification error:" ],
       ErrorReply 500 "CAPTCHA verification failed. Please try again.")
  | CaptchaSuccess =>
      match db with
      | UsernameTaken => (m, [], ErrorReply 409 "Username already exists")
      | DbThrows =>
          (m, [ LogError "Registration error:" ], ErrorReply 500 "Internal server error")
      | Inserted id =>
          (JsMap.delete tok m,
           [ Log ("User " +:+ uname +:+ " registered successfully from IP "
                  +:+ currentIp) ],
           Created id)
      end
  end.

(** A registration that no other request interleaves with. *)
Definition register (req : Request) (body : RegisterBody) (now : Z)
    (captcha : CaptchaOutcome) (db : DbOutcome) (m : Tokens)
    : Tokens * list Effect * Reply :=
  match registerChecks req body now m with
  | (m1, out1, Answered reply) => (m1, out1, reply)
  | (m1, out1, AwaitsCaptcha tok uname currentIp _) =>
      let '(m2, out2, reply) := registerCompletes tok uname currentIp captcha db m1 in
      (m2, out1 ++ out2, reply)
  end.

(** What the event loop runs on the token map, one piece at a time; a
    registration is in two pieces, before and after its [await]s, and
    other pieces may run between the two. *)
Inductive Call :=
  | GetRegisterToken (req : Request) (now : Z)
  | PostRegister (req : Request) (body : RegisterBody) (now : Z)
  | RegisterResumes (tok uname currentIp : string)
                    (captcha : CaptchaOutcome) (db : DbOutcome)
  | CleanupTick (now : Z).

(** The name and the password of the body pass the tests of the handler,
    and a CAPTCHA token is there. *)
Definition acceptable (body : RegisterBody) : Prop :=
  truthy (b_username body) = true
  ∧ truthy (b_password body) = true
  ∧ truthy (b_captchaToken body) = true
  ∧ (∀ n, lengthOf (b_username body) = Some n → 3 ≤ n ≤ 50)
  ∧ (∀ n, lengthOf (b_password body) = Some n → 6 ≤ n).

Section handlers.
Variable hmac : string → string.

Definition tokenData (ipAddr agent : string) (ts : Z) : string :=
  ipAddr +:+ "|" +:+ agent +:+ "|" +:+ pretty ts.

Definition registerToken (req : Request) (now : Z) (m : Tokens)
    : Tokens * list Effect * string :=
  let ipAddr := clientIp req in
  let agent := clientAgent req in
  let ts := now in
  let expires := ts + 10 * 60 * 1000 in
  let tok := hmac (tokenData ipAddr agent ts) in
  (JsMap.set tok (mkRegistrationToken tok ipAddr agent ts expires) m,
   [ Log ("Generated registration token for IP " +:+ ipAddr) ],
   tok).

Definition serve (c : Call) (m : Tokens) : Tokens :=
  match c with
  | GetRegisterToken req now => (registerToken req now m).1.1
  | PostRegister req body now => (registerChecks req body now m).1.1
  | RegisterResumes tok uname currentIp captcha db =>
      (registerCompletes tok uname currentIp captcha db m).1.1
  | CleanupTick now => cleanup now m
  end.

Definition serveAll (cs : list Call) (m : Tokens) : Tokens :=
  foldl (λ acc c, serve c acc) m cs.

(** Every stored token is filed under its own value, which is the HMAC
    of its own address, agent and time of issue, and expires ten minutes
    after its issue. *)
Definition wellFormed (m : Tokens) : Prop :=
  NoDup (JsMap.keys m)
  ∧ ∀ k t, JsMap.get k m = Some t →
           token t = k
           ∧ k = hmac (tokenData (ip t) (userAgent t) (timestamp t))
           ∧ expiresAt t = timestamp t + 600000.

(** The call does not issue the token [tok]. *)
Definition noReissue (tok : string) (c : Call) : Prop :=
  match c with
  | GetRegisterToken req now =>
      hmac (tokenData (clientIp req) (clientAgent req) now) ≠ tok
  | _ => True
  end.

(** The call neither issues [tok] again, nor finds it expired (it runs
    no later than [expires] if it is a clean-up or presents [tok]), nor
    completes a registration with it. *)
Definition leavesAlone (tok : string) (expires : Z) (c : Call) : Prop :=
  match c with
  | GetRegisterToken req now =>
      hmac (tokenData (clientIp req) (clientAgent req) now) ≠ tok
  | PostRegister req body now => b_token body = Str tok → now ≤ expires
  | RegisterResumes tok' _ _ captcha db =>
      tok' = tok → captcha = CaptchaSuccess → ∀ id, db ≠ Inserted id
  | CleanupTick now => now ≤ expires
  end.

End handlers.

(** A sample: a browser at 10.0.0.1 asks for a token at time 1000 and
    registers with it at time 2000; [hmac] is replaced by the identity. *)
Definition aliceRequest : Request :=
  mkRequest (Some "10.0.0.1") None (Some "Firefox").

Definition aliceToken : string := "10.0.0.1|Firefox|1000".

Definition aliceBody : RegisterBody :=
  mkRegisterBody (Str "alice") (Str "secret1") (Str aliceToken) (Str "tick").

(** The same request from a second browser tab, under another name. *)
Definition malloryBody : RegisterBody :=
  mkRegisterBody (Str "mallory") (Str "secret2") (Str aliceToken) (Str "tock").

End Registration.

(** ** The client: chat lists and the game view

    [LobbyChat] and [GameChat] keep the messages in a state variable and
    both update it with the same handler; [Connect4Game] keeps the last
    [gameState] payload, the colour of the user and whether it is the
    user's turn. *)
Module Client.

Section chat.
Context {M : Type} (msgId : M → string).

(** The updater that [handleNewMessage] passes to [setMessages]. *)
Definition handleNewMessage (msg : M) (prev : list M) : list M :=
  if existsb (λ m, bool_decide (msgId m = msgId msg)) prev then prev
  else prev ++ [msg].

(** The messages delivered one after the other. *)
Definition deliver (msgs : list M) (prev : list M) : list M :=
  foldl (λ acc msg, handleNewMessage msg acc) prev msgs.
End chat.

(** The payload of a [gameState] event. *)
Record GameStatePayload := mkGameStatePayload {
  p_board : Board;
  p_currentTurn : Color;
  p_players : Players;
  p_winner : option Winner;
  p_winningCells : option (list Coord)
}.

Definition payloadOf (g : GameData) : GameStatePayload :=
  mkGameStatePayload (board g) (currentTurn g) (players g) (winner g) (winningCells g).

(** The state variables of [Connect4Game] that its handlers use. *)
Record GameView := mkGameView {
  gameState : option GameStatePayload;
  playerColor : option Color;
  isMyTurn : bool
}.

Definition initialView : GameView := mkGameView None None false.

Definition handleGameState (currentUserId : string) (state : GameStatePayload)
    (v : GameView) : GameView :=
  if decide (userId (red (p_players state)) = currentUserId) then
    mkGameView (Some state) (Some Red) (bool_decide (p_currentTurn state = Red))
  else if decide (userId (yellow (p_players state)) = currentUserId) then
    mkGameView (Some state) (Some Yellow) (bool_decide (p_currentTurn state = Yellow))
  else
    mkGameView (Some state) (playerColor v) (isMyTurn v).

(** What a click on a column sends to the server, if anything. *)
Definition handleColumnClick (gameId : string) (col : Z) (v : GameView)
    : option Message :=
  match gameState v with
  | None => None
  | Some state =>
      if negb (isMyTurn v) then None
      else match p_winner state with
           | Some _ => None
           | None => Some (MakeMove gameId col)
           end
  end.

End Client.

(** Every finished session has a clean-up timer armed for its id. *)
Definition cleanupArmed (s : Server) : Prop :=
  ∀ gid g, JsMap.get gid (activeGames s) = Some g → winner g ≠ None →
           ∃ h, timers s !! h = Some (mkTimer 30000 (GameCleanup gid)).

(** Boards on which red has four in a line on a diagonal: down to the
    right from (2, 0), and down to the left from (2, 6). *)
Definition fourOnDiagonal : Board :=
  [ replicate 7 None; replicate 7 None;
    [Some Red; None; None; None; None; None; None];
    [Some Yellow; Some Red; None; None; None; None; None];
    [Some Yellow; Some Yellow; Some Red; None; None; None; None];
    [Some Yellow; Some Yellow; Some Yellow; Some Red; None; None; None] ].

Definition fourOnOtherDiagonal : Board :=
  [ replicate 7 None; replicate 7 None;
    [None; None; None; None; None; None; Some Red];
    [None; None; None; None; None; Some Red; Some Yellow];
    [None; None; None; None; Some Red; Some Yellow; Some Yellow];
    [None; None; None; Some Red; Some Yellow; Some Yellow; Some Yellow] ].

(** ** Who an event reaches *)

(** [socket.emit] reaches the acting connection.  [io.to(room).emit]
    reaches the connections in the room: the one whose id is [room]
    (socket.io keeps every socket in the room named by its own id) and
    those that a handler has [join]ed to it.  No handler makes a socket
    leave a room; a connection that has gone receives nothing, so for
    such a connection [reaches] only says that it is addressed. *)
Definition reaches (s : Server) (target : Target) (sock : string) : Prop :=
  match target with
  | ToSocket k => k = sock
  | ToRoom room => room = sock ∨ room ∈ default ∅ (rooms s !! sock)
  end.

#[global] Instance reaches_dec s target sock : Decision (reaches s target sock).
Proof. destruct target; simpl; apply _. Defined.

(** The events among the effects [out] that reach [sock], in order. *)
Definition received (s : Server) (out : list Effect) (sock : string) : list Outbound :=
  omap (λ ef : Effect,
          match ef with
          | Emit target ev => if decide (reaches s target sock) then Some ev else None
          | _ => None
          end) out.

(** Alice's connection has joined the room named by the id of bob's
    connection: [joinGame] joins the room of whatever game id it is
    given. *)
Definition aliceInRoomOfBob : Server :=
  (joinGame "A" "B" "ua" "alice" gameUnderWay).1.

(** ** A column that is not sent as an integer

    The handler of [makeMove] does not test the type of [col].  Of a
    value that is not an integer number (a string, an array, a fraction,
    ...) it uses two things: how it compares with 0 and 7, and the
    property key it indexes a row with.  [cv_inRange]: the tests
    [col < 0] and [col >= 7] are both false.  [cv_index]: the key is the
    index of a column (as for the string ["3"] or the array [[3]]); with
    any other key [rowData[col]] is undefined. *)
Record ColValue := mkColValue {
  cv_inRange : bool;
  cv_index : option Z
}.

(** The handler on such a value.  A value whose key is an index is a
    string or an array, so in [checkWinner] the sums [col + 1], [col - 1]
    and [col + 0] are concatenations of text, none of them the index of a
    column: both loops gather nothing on every axis, and no winner is
    returned. *)
Definition makeMoveUntyped (sock gameId : string) (col : ColValue) (s : Server)
    : Server * list Effect :=
  match JsMap.get gameId (activeGames s) with
  | None => (s, [])
  | Some game =>
      let playerColor := colorOf game sock in
      if decide (currentTurn game ≠ playerColor) then
        (s, [ Emit (ToSocket sock) (InvalidMove "It's not your turn!") ])
      else if bool_decide (winner game ≠ None) then
        (s, [ Emit (ToSocket sock) (InvalidMove "Game is already over!") ])
      else if negb (cv_inRange col) then
        (s, [ Emit (ToSocket sock) (InvalidMove "Invalid column!") ])
      else
        match cv_index col with
        | Some k =>
            let row := findRow (board game) k in
            if decide (row = -1) then
              (s, [ Emit (ToSocket sock) (InvalidMove "Column is full!") ])
            else
              let board' := setCell (board game) row k playerColor in
              if isBoardFull board' then
                let game' := mkGameData (g_id game) board' (currentTurn game)
                               (players game) (Some Draw) (winningCells game) in
                let s1 := with_activeGames
                            (JsMap.set gameId game' (activeGames s)) s in
                (setTimeout (GameCleanup gameId) 30000 s1,
                 [ Emit (ToRoom gameId)
                        (GameState (board game') (currentTurn game') (players game')
                                   (Some Draw) None);
                   Emit (ToRoom gameId) (GameOver (Some Draw) None);
                   Log ("Game " +:+ gameId +:+ " ended in a draw") ])
              else
                let game' := mkGameData (g_id game) board'
                               (flipTurn (currentTurn game))
                               (players game) (winner game) (winningCells game) in
                (with_activeGames (JsMap.set gameId game' (activeGames s)) s,
                 [ Emit (ToRoom gameId)
                        (GameState (board game') (currentTurn game') (players game')
                                   (winner game') (winningCells game')) ])
        | None =>
            (s, [ Emit (ToSocket sock) (InvalidMove "Column is full!") ])
        end
  end.

(** * Properties *)

(** ** Array reads and writes *)

Lemma idx_Some {A} (l : list A) (i : Z) (x : A) :
  idx l i = Some x ↔ 0 ≤ i ∧ l !! Z.to_nat i = Some x.
Proof.
  unfold idx. case_decide as Hi.
  - split; [by intros ? | by intros [_ ?]].
  - split; [done | by intros [? _]].
Qed.

Lemma idx_lt_length {A} (l : list A) (i : Z) (x : A) :
  idx l i = Some x → 0 ≤ i < Z.of_nat (length l).
Proof.
  intros [Hi Hl]%idx_Some. apply lookup_lt_Some in Hl. lia.
Qed.

Lemma idx_setIdx_eq {A} (l : list A) (i : Z) (x y : A) :
  idx l i = Some y → idx (setIdx l i x) i = Some x.
Proof.
  intros [Hi Hl]%idx_Some. unfold setIdx, idx.
  rewrite !decide_True by done.
  apply list_lookup_insert_eq. by eapply lookup_lt_Some.
Qed.

Lemma idx_setIdx_ne {A} (l : list A) (i j : Z) (x : A) :
  i ≠ j → idx (setIdx l i x) j = idx l j.
Proof.
  intros Hne. unfold setIdx, idx.
  destruct (decide (0 ≤ i)), (decide (0 ≤ j)); try done.
  apply list_lookup_insert_ne. lia.
Qed.

Lemma length_setIdx {A} (l : list A) (i : Z) (x : A) :
  length (setIdx l i x) = length l.
Proof. unfold setIdx. case_decide; [apply length_insert | done]. Qed.

Lemma cellAt_Some (b : Board) (r c : Z) (x : Cell) :
  cellAt b r c = Some x ↔ ∃ rowData, idx b r = Some rowData ∧ idx rowData c = Some x.
Proof.
  unfold cellAt. destruct (idx b r) as [rowData|].
  - split; [intros Hc; by exists rowData | by intros (? & [= <-] & ?)].
  - split; [done | by intros (? & ? & _)].
Qed.

Lemma cellAt_setCell_eq (b : Board) (row col : Z) (color : Color) (x : Cell) :
  cellAt b row col = Some x →
  cellAt (setCell b row col color) row col = Some (Some color).
Proof.
  intros (rowData & Hr & Hc)%cellAt_Some.
  unfold setCell, cellAt. rewrite Hr.
  erewrite idx_setIdx_eq by done. by eapply idx_setIdx_eq.
Qed.

Lemma cellAt_setCell_ne (b : Board) (row col r c : Z) (color : Color) :
  (r, c) ≠ (row, col) →
  cellAt (setCell b row col color) r c = cellAt b r c.
Proof.
  intros Hne. unfold setCell.
  destruct (idx b row) as [targetRow|] eqn:Hrow; [|done].
  unfold cellAt. destruct (decide (row = r)) as [->|Hr].
  - erewrite idx_setIdx_eq by done. rewrite Hrow.
    apply idx_setIdx_ne. congruence.
  - by rewrite idx_setIdx_ne.
Qed.

(** ** The drop loop *)

Lemma scanRows_none (b : Board) (col : Z) (n : nat) :
  scanRows b col n = -1 ↔
  ∀ r, 0 ≤ r < Z.of_nat n → cellAt b r col ≠ Some None.
Proof.
  induction n as [|n IH]; simpl.
  - split; [intros _ r ?; lia | done].
  - case_decide as Hc.
    + split; [lia|]. intros H. destruct (H (Z.of_nat n)); [lia | done].
    + rewrite IH. split; intros H r Hr.
      * destruct (decide (r = Z.of_nat n)) as [->|]; [done|]. apply H. lia.
      * apply H. lia.
Qed.

Lemma scanRows_found (b : Board) (col : Z) (n : nat) :
  scanRows b col n ≠ -1 →
  0 ≤ scanRows b col n < Z.of_nat n ∧
  cellAt b (scanRows b col n) col = Some None ∧
  ∀ r, scanRows b col n < r < Z.of_nat n → cellAt b r col ≠ Some None.
Proof.
  induction n as [|n IH]; simpl; [done|].
  case_decide as Hc; intros Hne.
  - split_and!; [lia | lia | done | intros r ?; lia].
  - destruct (IH Hne) as (Hrange & Hcell & Hmax).
    split_and!; [lia | lia | done |].
    intros r Hr. destruct (decide (r = Z.of_nat n)) as [->|]; [done|].
    apply Hmax. lia.
Qed.

Lemma findRow_cell (b : Board) (col : Z) :
  findRow b col ≠ -1 →
  0 ≤ findRow b col < 6 ∧ cellAt b (findRow b col) col = Some None.
Proof. intros H. destruct (scanRows_found b col 6 H) as (? & ? & _). done. Qed.

(** ** The [Map] operations *)

Section jsmap_facts.
Context {V : Type}.
Implicit Types (m : list (string * V)) (k : string) (v : V).

Lemma get_set_eq m k v : JsMap.get k (JsMap.set k v m) = Some v.
Proof.
  induction m as [|[k' v'] m IH]; simpl.
  - by rewrite decide_True.
  - case_decide; simpl; [by rewrite decide_True | by rewrite decide_False].
Qed.

Lemma get_set_ne m k k' v :
  k ≠ k' → JsMap.get k' (JsMap.set k v m) = JsMap.get k' m.
Proof.
  intros Hne. induction m as [|[k0 v0] m IH]; simpl.
  - by rewrite decide_False.
  - destruct (decide (k0 = k)) as [->|]; simpl.
    + by rewrite !decide_False.
    + by rewrite IH.
Qed.

Lemma get_delete_eq m k : JsMap.get k (JsMap.delete k m) = None.
Proof.
  unfold JsMap.delete. induction m as [|[k' v'] m IH]; [done|].
  rewrite filter_cons. simpl. case_decide; simpl; [|done].
  by rewrite decide_False.
Qed.

Lemma get_delete_ne m k k' :
  k ≠ k' → JsMap.get k' (JsMap.delete k m) = JsMap.get k' m.
Proof.
  intros Hne. unfold JsMap.delete. induction m as [|[k0 v0] m IH]; [done|].
  rewrite filter_cons. simpl. case_decide as Hk; simpl.
  - by rewrite IH.
  - rewrite IH. subst. by rewrite decide_False.
Qed.

Lemma get_None_delete m k : JsMap.get k m = None → JsMap.delete k m = m.
Proof.
  unfold JsMap.delete. induction m as [|[k0 v0] m IH]; [done|]; simpl.
  case_decide; [done|]. intros Hm. rewrite filter_cons, decide_True by done.
  by rewrite IH.
Qed.

Lemma get_Some_elem_of m k v : JsMap.get k m = Some v → (k, v) ∈ m.
Proof.
  induction m as [|[k0 v0] m IH]; [done|]; simpl.
  case_decide; [intros [= ->]; subst; left | right; auto].
Qed.

Lemma get_None_keys m k : JsMap.get k m = None ↔ k ∉ JsMap.keys m.
Proof.
  unfold JsMap.keys. induction m as [|[k0 v0] m IH]; simpl.
  - split; [intros _; apply not_elem_of_nil | done].
  - rewrite not_elem_of_cons. case_decide as Hk.
    + split; [done | by intros [? _]].
    + rewrite IH. split; [intros ?; split; [congruence | done] | by intros [_ ?]].
Qed.

Lemma elem_of_get m k v :
  NoDup (JsMap.keys m) → (k, v) ∈ m → JsMap.get k m = Some v.
Proof.
  unfold JsMap.keys. induction m as [|[k0 v0] m IH]; simpl.
  - intros _ H. by apply elem_of_nil in H.
  - intros [Hnin Hnd]%NoDup_cons [[= -> ->]|Hin]%elem_of_cons.
    + by rewrite decide_True.
    + rewrite decide_False; [auto|]. intros ->. apply Hnin.
      apply list_elem_of_fmap. by exists (k, v).
Qed.

Lemma keys_set m k v :
  JsMap.keys (JsMap.set k v m) =
  match JsMap.get k m with
  | Some _ => JsMap.keys m
  | None => JsMap.keys m ++ [k]
  end.
Proof.
  unfold JsMap.keys. induction m as [|[k0 v0] m IH]; [done|]; simpl.
  case_decide; subst; simpl; [done|].
  change (list_fmap _ _ fst ?l) with (l.*1). rewrite IH.
  by destruct (JsMap.get k m).
Qed.

Lemma NoDup_keys_set m k v :
  NoDup (JsMap.keys m) → NoDup (JsMap.keys (JsMap.set k v m)).
Proof.
  intros Hnd. rewrite keys_set. destruct (JsMap.get k m) eqn:Hg; [done|].
  apply NoDup_app. split_and!; [done | | apply NoDup_singleton].
  intros x Hx ->%list_elem_of_singleton. by apply get_None_keys in Hg.
Qed.

Lemma NoDup_keys_filter m (P : string * V → Prop) `{!∀ e, Decision (P e)} :
  NoDup (JsMap.keys m) → NoDup (JsMap.keys (filter P m)).
Proof.
  unfold JsMap.keys. intros Hnd.
  eapply sublist_NoDup; [done | apply fmap_sublist, sublist_filter].
Qed.
End jsmap_facts.

Lemma get_set {V} (m : list (string * V)) (k k' : string) (v : V) :
  JsMap.get k' (JsMap.set k v m) = if decide (k = k') then Some v else JsMap.get k' m.
Proof. case_decide; [subst; apply get_set_eq | by apply get_set_ne]. Qed.

Lemma get_delete {V} (m : list (string * V)) (k k' : string) :
  JsMap.get k' (JsMap.delete k m) = if decide (k = k') then None else JsMap.get k' m.
Proof. case_decide; [subst; apply get_delete_eq | by apply get_delete_ne]. Qed.

(** ** C1: where a dropped token lands *)

Lemma findRow_none (b : Board) (col : Z) :
  findRow b col = -1 ↔ ∀ r, 0 ≤ r < 6 → cellAt b r col ≠ Some None.
Proof. apply (scanRows_none b col 6). Qed.

Lemma findRow_lowest (b : Board) (col r : Z) :
  findRow b col ≠ -1 → findRow b col < r < 6 → cellAt b r col ≠ Some None.
Proof. intros H. by apply (scanRows_found b col 6 H). Qed.

Lemma cellAt_beyond (b : Board) (r c : Z) :
  Z.of_nat (length b) ≤ r → cellAt b r c = None.
Proof.
  intros Hr. unfold cellAt. destruct (idx b r) eqn:Hi; [|done].
  apply idx_lt_length in Hi. lia.
Qed.

(** C1. In [makeMove], once the turn, game-over and column checks have
    passed (so the column is in [0,7)), and whatever the board holds: if
    the column has an empty cell in rows 0..5, the token is written to the
    greatest such row and no other cell changes; if it has none, the
    handler answers the acting socket with "Column is full!" and leaves
    the server state, the board included, as it was. *)
Theorem C1_drop_lands_in_lowest_empty_row
    (s : Server) (sock gameId : string) (game : GameData) (col : Z) :
  JsMap.get gameId (activeGames s) = Some game →
  currentTurn game = colorOf game sock →
  winner game = None →
  0 ≤ col < 7 →
  let row := findRow (board game) col in
  ((∃ r, 0 ≤ r < 6 ∧ cellAt (board game) r col = Some None) →
     (0 ≤ row < 6 ∧ cellAt (board game) row col = Some None
      ∧ (∀ r, row < r < 6 → cellAt (board game) r col ≠ Some None)
      ∧ ((length (board game) ≤ 6)%nat →
         ∀ r, row < r → cellAt (board game) r col ≠ Some None))
     ∧ ∃ game',
         JsMap.get gameId (activeGames (makeMove sock gameId col s).1) = Some game'
         ∧ board game' = setCell (board game) row col (colorOf game sock)
         ∧ cellAt (board game') row col = Some (Some (colorOf game sock))
         ∧ ∀ r c, (r, c) ≠ (row, col) →
                  cellAt (board game') r c = cellAt (board game) r c)
  ∧ ((∀ r, 0 ≤ r < 6 → cellAt (board game) r col ≠ Some None) →
     makeMove sock gameId col s
     = (s, [Emit (ToSocket sock) (InvalidMove "Column is full!")])).
Proof.
  intros Hgame Hturn Hwin Hcol row. split.
  - intros (r0 & Hr0 & Hcell0).
    assert (Hrow : row ≠ -1).
    { unfold row. intros Hnone. by apply (proj1 (findRow_none _ _) Hnone r0). }
    destruct (findRow_cell _ _ Hrow) as [Hrange Hcell].
    split.
    { split_and!; [lia | lia | done | |].
      - intros r Hr. by apply findRow_lowest.
      - intros Hlen r Hr. destruct (decide (r < 6)).
        + apply findRow_lowest; [done | lia].
        + rewrite cellAt_beyond; [done | lia]. }
    unfold makeMove. rewrite Hgame. simpl.
    rewrite decide_False by (by intros []).
    rewrite Hwin, bool_decide_eq_false_2 by (by intros []).
    rewrite decide_False by lia.
    rewrite (decide_False (P := findRow (board game) col = -1)) by done.
    fold row.
    set (b' := setCell (board game) row col (colorOf game sock)).
    assert (Hb' : cellAt b' row col = Some (Some (colorOf game sock))
                  ∧ ∀ r c, (r, c) ≠ (row, col) → cellAt b' r c = cellAt (board game) r c).
    { split; [by eapply cellAt_setCell_eq | intros; by apply cellAt_setCell_ne]. }
    destruct (wr_winner (checkWinner b' row col)); [|destruct (isBoardFull b')];
      simpl; rewrite get_set_eq; eexists; (split; [done|]); simpl; by split.
  - intros Hnone. apply findRow_none in Hnone.
    unfold makeMove. rewrite Hgame. simpl.
    rewrite decide_False by (by intros []).
    rewrite Hwin, bool_decide_eq_false_2 by (by intros []).
    rewrite decide_False by lia.
    by rewrite decide_True.
Qed.

(** ** C3: the win check *)

Lemma inBounds_true (r c : Z) : inBounds r c = true ↔ 0 ≤ r < 6 ∧ 0 ≤ c < 7.
Proof.
  unfold inBounds. rewrite !andb_true_iff, !bool_decide_eq_true. lia.
Qed.

Lemma owns_cong (b : Board) (p : Color) (r c r' c' : Z) :
  owns b p r c → r = r' → c = c' → owns b p r' c'.
Proof. by intros ? <- <-. Qed.

Lemma walk_unfold (fuel : nat) (b : Board) (p : Color) (dr dc r c : Z) :
  walk (S fuel) b p dr dc r c =
  if decide (owns b p r c)
  then (r, c) :: walk fuel b p dr dc (r + dr) (c + dc)
  else [].
Proof.
  simpl. destruct (decide (owns b p r c)) as [[-> Hc]|Ho].
  - by rewrite decide_True.
  - destruct (inBounds r c) eqn:Hb; [|done].
    case_decide; [|done]. by destruct Ho.
Qed.

(** What a loop has collected: the cells at steps 0, 1, ... from its
    start, each on the board and holding [p]; and it stopped either for
    lack of fuel or because the next cell fails the loop's test. *)
Lemma walk_spec (b : Board) (p : Color) (dr dc : Z) (fuel : nat) :
  ∀ r c,
  let l := walk fuel b p dr dc r c in
  l = map (λ i : nat, (r + Z.of_nat i * dr, c + Z.of_nat i * dc)) (seq 0 (length l))
  ∧ (∀ i : nat, (i < length l)%nat →
       owns b p (r + Z.of_nat i * dr) (c + Z.of_nat i * dc))
  ∧ (length l = fuel
     ∨ ¬ owns b p (r + Z.of_nat (length l) * dr) (c + Z.of_nat (length l) * dc)).
Proof.
  induction fuel as [|fuel IH]; intros r c.
  { simpl. split_and!; [done | intros; lia | by left]. }
  cbv zeta. rewrite walk_unfold. destruct (decide (owns b p r c)) as [Ho|Ho].
  - destruct (IH (r + dr) (c + dc)) as (Heq & Hall & Hstop).
    set (l := walk fuel b p dr dc (r + dr) (c + dc)) in *.
    simpl length. split_and!.
    + simpl. f_equal; [f_equal; lia|].
      rewrite Heq at 1. rewrite <- (fmap_S_seq 0), <- list_fmap_compose.
      apply list_fmap_ext. intros _ i _. simpl. f_equal; lia.
    + intros [|i] Hi.
      * eapply owns_cong; [exact Ho | lia..].
      * eapply owns_cong; [apply (Hall i); lia | lia..].
    + destruct Hstop as [->|Hstop]; [by left | right].
      intros Hn. apply Hstop. eapply owns_cong; [exact Hn | lia..].
  - simpl. split_and!; [done | intros; lia | right].
    intros Hn. apply Ho. eapply owns_cong; [exact Hn | lia..].
Qed.

Lemma owns_inBounds (b : Board) (p : Color) (r c : Z) :
  owns b p r c → 0 ≤ r < 6 ∧ 0 ≤ c < 7.
Proof. intros [Hb _]. by apply inBounds_true. Qed.

(** With seven units of fuel a loop always ends because its own test
    fails: the board is left after at most seven unit steps. *)
Lemma walk_stops (b : Board) (p : Color) (dr dc r c : Z) (fuel : nat) :
  unitStep dr dc → (7 ≤ fuel)%nat →
  let n := length (walk fuel b p dr dc r c) in
  (n ≤ 7)%nat ∧ ¬ owns b p (r + Z.of_nat n * dr) (c + Z.of_nat n * dc).
Proof.
  intros (Hdr & Hdc & Hnz) Hfuel n.
  destruct (walk_spec b p dr dc fuel r c) as (_ & Hall & Hstop). fold n in Hall, Hstop.
  assert (Hle : (n ≤ 7)%nat).
  { destruct (decide (n ≤ 7)%nat); [done|].
    pose proof (owns_inBounds _ _ _ _ (Hall 0%nat ltac:(lia))).
    pose proof (owns_inBounds _ _ _ _ (Hall 7%nat ltac:(lia))). lia. }
  split; [done|]. destruct Hstop as [Hn|]; [|done].
  intros Hlast%owns_inBounds.
  pose proof (owns_inBounds _ _ _ _ (Hall 0%nat ltac:(lia))). lia.
Qed.

Lemma walk_more (b : Board) (p : Color) (dr dc : Z) (fuel : nat) :
  ∀ r c fuel',
  let n := length (walk fuel b p dr dc r c) in
  ¬ owns b p (r + Z.of_nat n * dr) (c + Z.of_nat n * dc) →
  (fuel ≤ fuel')%nat →
  walk fuel' b p dr dc r c = walk fuel b p dr dc r c.
Proof.
  induction fuel as [|fuel IH]; intros r c fuel' n Hstop Hle.
  - simpl in *. destruct fuel'; [done|]. rewrite walk_unfold.
    rewrite decide_False; [done|]. intros Ho. apply Hstop.
    eapply owns_cong; [exact Ho | lia..].
  - destruct fuel' as [|fuel']; [lia|]. subst n. revert Hstop.
    rewrite !walk_unfold. case_decide; [|done]. simpl length. intros Hstop.
    f_equal. apply IH; [|lia]. intros Ho. apply Hstop.
    eapply owns_cong; [exact Ho | lia..].
Qed.

Lemma walk_fuel_irrelevant (b : Board) (p : Color) (dr dc r c : Z) (fuel : nat) :
  unitStep dr dc → (walkFuel ≤ fuel)%nat →
  walk fuel b p dr dc r c = walk walkFuel b p dr dc r c.
Proof.
  intros Hu Hle. apply walk_more; [|done].
  by apply (walk_stops b p dr dc r c walkFuel Hu).
Qed.

(** One loop of [checkWinner] from the neighbour of [(row, col)]: it
    returns the [n] cells of the ray that hold [p], [n] being the first
    step at which the next cell does not. *)
Lemma walk_ray (b : Board) (p : Color) (row col dr dc : Z) :
  unitStep dr dc →
  ∃ n : nat,
    walk walkFuel b p dr dc (row + dr) (col + dc) = ray row col (dr, dc) n
    ∧ (∀ i, 1 ≤ i ≤ Z.of_nat n → owns b p (row + i * dr) (col + i * dc))
    ∧ ¬ owns b p (row + (Z.of_nat n + 1) * dr) (col + (Z.of_nat n + 1) * dc).
Proof.
  intros Hu.
  destruct (walk_spec b p dr dc walkFuel (row + dr) (col + dc)) as (Heq & Hall & _).
  destruct (walk_stops b p dr dc (row + dr) (col + dc) walkFuel Hu) as [_ Hstop]; [done|].
  set (l := walk walkFuel b p dr dc (row + dr) (col + dc)) in *.
  exists (length l). split_and!.
  - rewrite Heq at 1. unfold ray. rewrite <- (fmap_S_seq 0), <- list_fmap_compose.
    apply list_fmap_ext. intros _ i _. simpl. f_equal; lia.
  - intros i Hi.
    eapply owns_cong; [apply (Hall (Z.to_nat (i - 1))); lia | rewrite Z2Nat.id by lia; lia..].
  - intros Ho. apply Hstop. eapply owns_cong; [exact Ho | lia..].
Qed.

Lemma length_ray (row col : Z) (d : Coord) (n : nat) : length (ray row col d n) = n.
Proof. unfold ray. by rewrite length_map, length_seq. Qed.

(** The cells one axis contributes: the placed cell, then the run on one
    side, then the run on the other, each run maximal. *)
Lemma axis_profile (b : Board) (p : Color) (row col dr dc : Z) :
  unitStep dr dc →
  ∃ n1 n2 : nat,
    axisCells b p row col ((dr, dc), (-dr, -dc))
    = (row, col) :: ray row col (dr, dc) n1 ++ ray row col (-dr, -dc) n2
    ∧ (∀ i, - Z.of_nat n2 ≤ i ≤ Z.of_nat n1 → i ≠ 0 →
            owns b p (row + i * dr) (col + i * dc))
    ∧ ¬ owns b p (row + (Z.of_nat n1 + 1) * dr) (col + (Z.of_nat n1 + 1) * dc)
    ∧ ¬ owns b p (row - (Z.of_nat n2 + 1) * dr) (col - (Z.of_nat n2 + 1) * dc).
Proof.
  intros Hu.
  assert (Hu' : unitStep (-dr) (-dc)) by (unfold unitStep in *; lia).
  destruct (walk_ray b p row col dr dc Hu) as (n1 & Hw1 & Hall1 & Hstop1).
  destruct (walk_ray b p row col (-dr) (-dc) Hu') as (n2 & Hw2 & Hall2 & Hstop2).
  exists n1, n2. split_and!.
  - unfold axisCells. cbn [fst snd]. by rewrite Hw1, Hw2.
  - intros i Hi Hnz. destruct (decide (0 < i)).
    + apply Hall1. lia.
    + eapply owns_cong; [apply (Hall2 (- i)); lia | lia..].
  - done.
  - intros Ho. apply Hstop2. eapply owns_cong; [exact Ho | lia..].
Qed.

Lemma axis_four (b : Board) (p : Color) (row col dr dc : Z) :
  unitStep dr dc →
  (4 ≤ length (axisCells b p row col ((dr, dc), (-dr, -dc))))%nat
  ↔ fourInLine b p row col (dr, dc).
Proof.
  intros Hu.
  destruct (axis_profile b p row col dr dc Hu) as (n1 & n2 & -> & Hall & Hs1 & Hs2).
  simpl length. rewrite length_app, !length_ray. unfold fourInLine. simpl.
  split.
  - intros Hlen. exists (Z.min (Z.of_nat n2) 3). split; [lia|].
    intros j Hj Hne. apply Hall; lia.
  - intros (k & Hk & Hwin).
    assert (3 - k ≤ Z.of_nat n1).
    { destruct (decide (3 - k ≤ Z.of_nat n1)); [done|]. exfalso. apply Hs1.
      eapply owns_cong; [apply (Hwin (Z.of_nat n1 + 1 + k)); lia | f_equal; lia..]. }
    assert (k ≤ Z.of_nat n2).
    { destruct (decide (k ≤ Z.of_nat n2)); [done|]. exfalso. apply Hs2.
      eapply owns_cong; [apply (Hwin (k - (Z.of_nat n2 + 1))); lia | lia..]. }
    lia.
Qed.

Lemma directions_shape (dir : Coord * Coord) :
  dir ∈ directions →
  ∃ dr dc, dir = ((dr, dc), (-dr, -dc)) ∧ unitStep dr dc.
Proof.
  unfold directions. rewrite !elem_of_cons, elem_of_nil.
  intros [->|[->|[->|[->|[]]]]];
    [exists 0, 1 | exists 1, 0 | exists 1, 1 | exists 1, (-1)];
    (split; [reflexivity | unfold unitStep; lia]).
Qed.

(** The loop over the axes stops at the first one that gathered four
    cells or more. *)
Lemma checkDirections_spec (b : Board) (p : Color) (row col : Z)
    (dirs : list (Coord * Coord)) :
  (checkDirections b p row col dirs = noWinner
   ∧ ∀ dir, dir ∈ dirs → (length (axisCells b p row col dir) < 4)%nat)
  ∨ (∃ dir, dir ∈ dirs
       ∧ (4 ≤ length (axisCells b p row col dir))%nat
       ∧ checkDirections b p row col dirs
         = mkWinResult (Some p) (Some (axisCells b p row col dir))).
Proof.
  induction dirs as [|dir dirs IH]; simpl.
  - left. split; [done|]. intros dir Hin. by apply elem_of_nil in Hin.
  - case_bool_decide as Hlen.
    + right. exists dir. split_and!; [left | done | done].
    + destruct IH as [[Hnone Hall]|(dir' & Hin & Hlen' & Heq)].
      * left. split; [done|]. intros d [->|Hd]%elem_of_cons; [lia | auto].
      * right. exists dir'. split_and!; [by right | done | done].
Qed.

Lemma checkWinner_player (b : Board) (row col : Z) :
  match cellAt b row col with
  | Some (Some player) =>
      checkWinner b row col = checkDirections b player row col directions
  | _ => checkWinner b row col = noWinner
  end.
Proof.
  unfold checkWinner, cellAt. destruct (idx b row) as [currentRow|]; [|done].
  by destruct (idx currentRow col) as [[player|]|].
Qed.

(** The loop over [directions] stops at the first entry that gathers
    four cells. *)
Lemma checkDirections_first (b : Board) (p : Color) (row col : Z)
    (dirs : list (Coord * Coord)) :
  (checkDirections b p row col dirs = noWinner
   ∧ ∀ dir, dir ∈ dirs → (length (axisCells b p row col dir) < 4)%nat)
  ∨ (∃ pre dir post,
       dirs = pre ++ dir :: post
       ∧ (∀ dir', dir' ∈ pre → (length (axisCells b p row col dir') < 4)%nat)
       ∧ (4 ≤ length (axisCells b p row col dir))%nat
       ∧ checkDirections b p row col dirs
         = mkWinResult (Some p) (Some (axisCells b p row col dir))).
Proof.
  induction dirs as [|dir dirs IH]; simpl.
  - left. split; [done|]. intros dir Hin. by apply elem_of_nil in Hin.
  - case_bool_decide as Hlen.
    + right. exists [], dir, dirs. split_and!; [done | | done | done].
      intros dir' Hin. by apply elem_of_nil in Hin.
    + destruct IH as [[Hnone Hall]|(pre & dir' & post & -> & Hpre & Hlen' & Heq)].
      * left. split; [done|]. intros d [->|Hd]%elem_of_cons; [lia | auto].
      * right. exists (dir :: pre), dir', post. split_and!; [done | | done | done].
        intros d [->|Hd]%elem_of_cons; [lia | auto].
Qed.


(** A token that completes five in a row: the winner is reported with
    all five cells. *)
Example checkWinner_five_in_a_row :
  checkWinner fiveInBottomRow 5 2
  = mkWinResult (Some Red) (Some [(5, 2); (5, 3); (5, 4); (5, 1); (5, 0)]).
Proof. reflexivity. Qed.

(** ** C7: the fullness check on boards of play *)

Lemma wellShaped_empty : wellShaped createEmptyBoard.
Proof. split; [done|]. unfold createEmptyBoard. by apply Forall_replicate. Qed.

Lemma cellAt_empty (r c : Z) (x : Cell) :
  cellAt createEmptyBoard r c = Some x → x = None.
Proof.
  intros (rowData & [_ Hr]%idx_Some & [_ Hc]%idx_Some)%cellAt_Some.
  apply lookup_replicate in Hr as [-> _]. by apply lookup_replicate in Hc as [-> _].
Qed.

Lemma wellShaped_cellAt (b : Board) (r c : Z) :
  wellShaped b → 0 ≤ r < 6 → 0 ≤ c < 7 → is_Some (cellAt b r c).
Proof.
  intros [Hlen Hrows] Hr Hc. unfold cellAt, idx. rewrite decide_True by lia.
  destruct (lookup_lt_is_Some_2 b (Z.to_nat r)) as [rowData Hrow]; [lia|].
  rewrite Hrow, decide_True by lia.
  apply lookup_lt_is_Some_2.
  rewrite Forall_lookup in Hrows. rewrite (Hrows _ _ Hrow). lia.
Qed.

Lemma cellAt_inside (b : Board) (r c : Z) (x : Cell) :
  wellShaped b → cellAt b r c = Some x → 0 ≤ r < 6 ∧ 0 ≤ c < 7.
Proof.
  intros [Hlen Hrows] (rowData & Hr & Hc)%cellAt_Some.
  pose proof (idx_lt_length _ _ _ Hr). pose proof (idx_lt_length _ _ _ Hc).
  apply idx_Some in Hr as [_ Hr]. rewrite Forall_lookup in Hrows.
  rewrite (Hrows _ _ Hr) in *. lia.
Qed.

Lemma settled_empty : settled createEmptyBoard.
Proof.
  intros r c Hr Hbelow.
  destruct (cellAt_inside _ _ _ _ wellShaped_empty Hbelow).
  destruct (wellShaped_cellAt createEmptyBoard r c wellShaped_empty) as [x Hx]; [lia..|].
  by rewrite Hx, (cellAt_empty _ _ _ Hx).
Qed.

Lemma wellShaped_setCell (b : Board) (row col : Z) (color : Color) :
  wellShaped b → wellShaped (setCell b row col color).
Proof.
  intros [Hlen Hrows]. unfold setCell.
  destruct (idx b row) as [targetRow|] eqn:Hrow; [|done].
  split; [by rewrite length_setIdx|].
  unfold setIdx at 1. case_decide; [|done].
  apply Forall_insert; [done|]. rewrite length_setIdx.
  apply idx_Some in Hrow as [_ Hrow]. rewrite Forall_lookup in Hrows. eauto.
Qed.

Lemma dropToken_Some (b : Board) (col row : Z) (color : Color) (b' : Board) :
  dropToken b col color = Some (row, b') →
  row = findRow b col ∧ row ≠ -1 ∧ b' = setCell b row col color.
Proof. unfold dropToken. case_decide; [done|]. by intros [= <- <-]. Qed.

Lemma settled_dropToken (b : Board) (col row : Z) (color : Color) (b' : Board) :
  wellShaped b → settled b →
  dropToken b col color = Some (row, b') → settled b'.
Proof.
  intros Hshape Hsettled (-> & Hrow & ->)%dropToken_Some r c Hr Hbelow.
  destruct (findRow_cell _ _ Hrow) as [Hrange Hcell].
  destruct (decide ((r + 1, c) = (findRow b col, col))) as [[= Heq ->]|Hne1].
  { rewrite Heq in Hbelow. by erewrite cellAt_setCell_eq in Hbelow. }
  rewrite cellAt_setCell_ne in Hbelow by done.
  destruct (decide ((r, c) = (findRow b col, col))) as [[= -> ->]|Hne2].
  - exfalso. destruct (cellAt_inside _ _ _ _ Hshape Hbelow).
    eapply (findRow_lowest b col (findRow b col + 1)); [done | lia | done].
  - rewrite cellAt_setCell_ne by done. by apply Hsettled.
Qed.

Lemma playDrops_invariant (drops : list (Z * Color)) :
  ∀ b b', wellShaped b → settled b → playDrops drops b = Some b' →
          wellShaped b' ∧ settled b'.
Proof.
  induction drops as [|[col color] drops IH]; intros b b' Hshape Hsettled; simpl.
  - by intros [= <-].
  - case_decide; [done|].
    destruct (dropToken b col color) as [[row b1]|] eqn:Hdrop; [|done].
    apply IH.
    + apply dropToken_Some in Hdrop as (_ & _ & ->). by apply wellShaped_setCell.
    + by eapply settled_dropToken.
Qed.

Lemma settled_rises (b : Board) (c : Z) (n : nat) :
  settled b → cellAt b (Z.of_nat n) c = Some None → cellAt b 0 c = Some None.
Proof.
  intros Hsettled. induction n as [|n IH]; [done|].
  intros Hn. apply IH. apply Hsettled; [lia|].
  by replace (Z.of_nat n + 1) with (Z.of_nat (S n)) by lia.
Qed.

Lemma cellAt_lookup (b : Board) (i j : nat) (rowData : list Cell) (x : Cell) :
  b !! i = Some rowData → rowData !! j = Some x →
  cellAt b (Z.of_nat i) (Z.of_nat j) = Some x.
Proof.
  intros Hi Hj. unfold cellAt, idx.
  rewrite decide_True, Nat2Z.id, Hi by lia. by rewrite decide_True, Nat2Z.id by lia.
Qed.

Lemma isBoardFull_top (b : Board) :
  wellShaped b →
  isBoardFull b = true ↔ ∀ c, 0 ≤ c < 7 → cellAt b 0 c ≠ Some None.
Proof.
  intros Hshape. unfold isBoardFull.
  destruct (b !! 0%nat) as [topRow|] eqn:Htop.
  - rewrite forallb_forall. split.
    + intros Hall c Hc Hcell.
      apply cellAt_Some in Hcell as (rowData & [_ Hr]%idx_Some & [_ Hx]%idx_Some).
      change (Z.to_nat 0) with 0%nat in Hr. rewrite Htop in Hr. injection Hr as <-.
      apply list_elem_of_lookup_2, list_elem_of_In, Hall in Hx.
      by apply bool_decide_eq_true in Hx.
    + intros Hall x [j Hj]%list_elem_of_In%list_elem_of_lookup_1.
      apply bool_decide_eq_true. intros ->.
      pose proof (cellAt_lookup b 0 j _ _ Htop Hj) as Hcell.
      destruct (cellAt_inside _ _ _ _ Hshape Hcell). by apply (Hall (Z.of_nat j)).
  - destruct Hshape as [Hlen _]. apply lookup_ge_None in Htop. lia.
Qed.

Lemma all_occupied_cells (b : Board) :
  wellShaped b →
  Forall (Forall (λ cell : Cell, cell ≠ None)) b
  ↔ ∀ r c, 0 ≤ r < 6 → 0 ≤ c < 7 → ∃ p, cellAt b r c = Some (Some p).
Proof.
  intros Hshape. split.
  - intros Hall r c Hr Hc.
    destruct (wellShaped_cellAt b r c Hshape Hr Hc) as [x Hx]. rewrite Hx.
    apply cellAt_Some in Hx as (rowData & [_ Hrow]%idx_Some & [_ Hcell]%idx_Some).
    rewrite Forall_lookup in Hall. specialize (Hall _ _ Hrow).
    rewrite Forall_lookup in Hall. specialize (Hall _ _ Hcell).
    destruct x as [p|]; [by exists p | done].
  - intros Hall. apply Forall_lookup. intros i rowData Hi.
    apply Forall_lookup. intros j x Hj.
    pose proof (cellAt_lookup b i j _ _ Hi Hj) as Hcell.
    destruct (cellAt_inside _ _ _ _ Hshape Hcell) as [Hr Hc].
    destruct (Hall _ _ Hr Hc) as [p Hp]. congruence.
Qed.

Lemma filter_all_length {A} (P : A → Prop) `{!∀ x, Decision (P x)} (l : list A) :
  length (filter P l) = length l ↔ Forall P l.
Proof.
  induction l as [|x l IH]; [by split|].
  rewrite filter_cons, Forall_cons. pose proof (length_filter P l).
  case_decide; simpl; [rewrite <- IH; split; [intros [= ?] | intros [_ ->]]; done|].
  split; [lia | by intros []].
Qed.

Lemma occupied_row_le (rowData : list Cell) :
  (length (filter (λ cell : Cell, cell ≠ None) rowData) ≤ length rowData)%nat.
Proof. apply length_filter. Qed.

Lemma occupiedCells_all (b : Board) :
  wellShaped b →
  occupiedCells b = 42%nat ↔ Forall (Forall (λ cell : Cell, cell ≠ None)) b.
Proof.
  intros [Hlen Hrows]. unfold occupiedCells.
  destruct b as [|r0 [|r1 [|r2 [|r3 [|r4 [|r5 [|? ?]]]]]]]; try done.
  rewrite !Forall_cons in Hrows. destruct Hrows as (H0 & H1 & H2 & H3 & H4 & H5 & _).
  rewrite !Forall_cons, Forall_nil.
  rewrite <- !(filter_all_length (λ cell : Cell, cell ≠ None)).
  rewrite H0, H1, H2, H3, H4, H5. simpl.
  pose proof (occupied_row_le r0). pose proof (occupied_row_le r1).
  pose proof (occupied_row_le r2). pose proof (occupied_row_le r3).
  pose proof (occupied_row_le r4). pose proof (occupied_row_le r5).
  lia.
Qed.

(** C7. On every board reached from the empty board by drops made as
    [makeMove] makes them, [isBoardFull] (which reads the top row only)
    returns true exactly when each of the 6 x 7 cells holds a token,
    that is, when 42 cells are occupied. *)
Theorem C7_isBoardFull_iff_all_42_occupied (drops : list (Z * Color)) (b : Board) :
  playDrops drops createEmptyBoard = Some b →
  (isBoardFull b = true
   ↔ ∀ r c, 0 ≤ r < 6 → 0 ≤ c < 7 → ∃ p, cellAt b r c = Some (Some p))
  ∧ (isBoardFull b = true ↔ occupiedCells b = 42%nat).
Proof.
  intros Hplay.
  destruct (playDrops_invariant drops _ _ wellShaped_empty settled_empty Hplay)
    as [Hshape Hsettled].
  assert (Hfull : isBoardFull b = true
                  ↔ ∀ r c, 0 ≤ r < 6 → 0 ≤ c < 7 → ∃ p, cellAt b r c = Some (Some p)).
  { rewrite isBoardFull_top by done. split.
    - intros Htop r c Hr Hc.
      destruct (wellShaped_cellAt b r c Hshape Hr Hc) as [[p|] Hx]; [by exists p|].
      exfalso. apply (Htop c Hc). apply (settled_rises b c (Z.to_nat r)); [done|].
      by rewrite Z2Nat.id by lia.
    - intros Hall c Hc Hcell. destruct (Hall 0 c) as [p Hp]; [lia | done | congruence]. }
  split; [done|].
  by rewrite occupiedCells_all, all_occupied_cells.
Qed.

(** ** What each handler leaves alone *)

Ltac handler_cases :=
  unfold step, handle, joinLobby, sendChallenge, acceptChallenge,
    declineChallenge, joinGame, makeMove, forfeitGame, disconnect,
    fireTimer, resume;
  repeat case_match; simpl.

Lemma clearTimeouts_onlineUsers (hs : list nat) (s : Server) :
  onlineUsers (clearTimeouts hs s) = onlineUsers s.
Proof. induction hs; simpl; done. Qed.

Lemma clearTimeouts_activeChallenges (hs : list nat) (s : Server) :
  activeChallenges (clearTimeouts hs s) = activeChallenges s.
Proof. induction hs; simpl; done. Qed.

Lemma clearTimeouts_activeGames (hs : list nat) (s : Server) :
  activeGames (clearTimeouts hs s) = activeGames s.
Proof. induction hs; simpl; done. Qed.

Lemma clearTimeouts_socketData (hs : list nat) (s : Server) :
  socketData (clearTimeouts hs s) = socketData s.
Proof. induction hs; simpl; done. Qed.

Lemma clearTimeouts_nextTimer (hs : list nat) (s : Server) :
  nextTimer (clearTimeouts hs s) = nextTimer s.
Proof. induction hs; simpl; done. Qed.

Lemma clearTimeouts_timers (hs : list nat) (s : Server) (h : nat) :
  timers (clearTimeouts hs s) !! h = if decide (h ∈ hs) then None else timers s !! h.
Proof.
  induction hs as [|h' hs IH].
  - case_decide as Hin; [by apply elem_of_nil in Hin | done].
  - cbn [clearTimeouts foldr clearTimeout timers].
    fold (clearTimeouts hs s). rewrite lookup_delete. rewrite IH.
    destruct (decide (h' = h)) as [->|Hne]; [by rewrite decide_True by left|].
    destruct (decide (h ∈ hs)) as [Hin|Hin].
    + by rewrite decide_True by (by right).
    + rewrite decide_False; [done|]. by intros [->|?]%elem_of_cons.
Qed.

(** The presence registry is written by [joinLobby] and by the disconnect
    handler only. *)
Lemma onlineUsers_step (e : Event) (s : Server) :
  onlineUsers (step e s).1 = onlineUsers s
  ∨ (∃ sock, onlineUsers (step e s).1 = JsMap.delete sock (onlineUsers s))
  ∨ (∃ sock uid uname,
       onlineUsers (step e s).1
       = JsMap.set sock (mkOnlineUser sock uid uname)
           (filter (λ e : string * OnlineUser, ¬ (ou_userId e.2 = uid ∧ e.1 ≠ sock))
                   (onlineUsers s))).
Proof.
  destruct e as [uuid now sock m|h|k]; [destruct m|..]; handler_cases;
    rewrite ?clearTimeouts_onlineUsers; eauto 10.
Qed.

(** [socket.data] is written by [joinLobby] only, and the flag is never
    taken back. *)
Lemma hasJoinedLobby_step (e : Event) (s : Server) (sock : string) :
  hasJoinedLobby (sockData s sock) = true →
  hasJoinedLobby (sockData (step e s).1 sock) = true.
Proof.
  intros Hflag.
  destruct e as [uuid now sock' m|h|k]; [destruct m|..]; handler_cases;
    try done.
  - unfold sockData in *. simpl.
    destruct (decide (sock' = sock)) as [->|]; [by rewrite lookup_insert_eq|].
    by rewrite lookup_insert_ne.
  - unfold sockData in *. simpl. by rewrite clearTimeouts_socketData.
Qed.

Lemma hasJoinedLobby_run (es : list Event) (s : Server) (sock : string) :
  hasJoinedLobby (sockData s sock) = true →
  hasJoinedLobby (sockData (run es s).1 sock) = true.
Proof.
  revert s. induction es as [|e es IH]; intros s Hflag; [done|].
  simpl. pose proof (hasJoinedLobby_step e s sock Hflag) as Hstep.
  destruct (step e s) as [s1 out1]. specialize (IH s1 Hstep).
  by destruct (run es s1).
Qed.

(** ** The registries are maps *)

Lemma uniqueKeys_step (e : Event) (s : Server) :
  uniqueKeys s → uniqueKeys (step e s).1.
Proof.
  intros (Hu & Hc & Hg). unfold uniqueKeys.
  destruct e as [uuid now sock m|h|k]; [destruct m|..]; handler_cases;
    rewrite ?clearTimeouts_onlineUsers, ?clearTimeouts_activeChallenges,
      ?clearTimeouts_activeGames;
    cbn [onlineUsers activeChallenges activeGames with_onlineUsers];
    unfold JsMap.delete;
    split_and!;
    try done;
    try (by apply NoDup_keys_set);
    try (by apply NoDup_keys_filter);
    try (by apply NoDup_keys_set, NoDup_keys_filter).
Qed.

Lemma registries_unique_keys (es : list Event) :
  uniqueKeys (run es initialServer).1.
Proof.
  assert (Hrun : ∀ s, uniqueKeys s → uniqueKeys (run es s).1).
  { induction es as [|e es IH]; intros s Hs; [done|]. cbn [run].
    pose proof (uniqueKeys_step e s Hs) as Hstep.
    destruct (step e s) as [s1 out1]. specialize (IH s1 Hstep).
    by destruct (run es s1). }
  apply Hrun. repeat split; apply NoDup_nil_2.
Qed.

(** ** C10: a second [joinLobby] on one connection *)

Lemma joinLobby_sets_flag (uuid now sock uid uname : string) (s : Server) :
  hasJoinedLobby (sockData (joinLobby uuid now sock uid uname s).1 sock) = true.
Proof.
  unfold joinLobby. destruct (hasJoinedLobby (sockData s sock)) eqn:Hflag; [done|].
  unfold sockData. simpl. by rewrite lookup_insert_eq.
Qed.

(** C10. Once a connection has run [joinLobby], and whatever the server
    handled in between, another [joinLobby] from the same connection
    returns at its first line: the whole server state (presence registry,
    rooms, socket data, challenges, games, timers) is unchanged and
    nothing is emitted, logged or written, also when the second event
    carries another userId or username. *)
Theorem C10_second_joinLobby_is_noop
    (uuid1 now1 uid1 uname1 uuid2 now2 uid2 uname2 sock : string)
    (between : list Event) (s : Server) :
  let s1 := (joinLobby uuid1 now1 sock uid1 uname1 s).1 in
  let s2 := (run between s1).1 in
  hasJoinedLobby (sockData s2 sock) = true
  ∧ joinLobby uuid2 now2 sock uid2 uname2 s2 = (s2, []).
Proof.
  intros s1 s2.
  assert (Hflag : hasJoinedLobby (sockData s2 sock) = true).
  { apply hasJoinedLobby_run, joinLobby_sets_flag. }
  split; [done|]. unfold joinLobby. by rewrite Hflag.
Qed.

(** ** C8: the presence registry *)

Lemma elem_of_set {V} (m : list (string * V)) (k : string) (v : V) (e : string * V) :
  NoDup (JsMap.keys m) →
  e ∈ JsMap.set k v m → e = (k, v) ∨ (e ∈ m ∧ e.1 ≠ k).
Proof.
  unfold JsMap.keys. induction m as [|[k0 v0] m IH]; simpl.
  - intros _ ->%list_elem_of_singleton. by left.
  - intros [Hnin Hnd]%NoDup_cons. case_decide as Hk.
    + intros [->|Hin]%elem_of_cons; [by left|].
      right. split; [by right|]. intros He. apply Hnin. subst k0. rewrite <- He.
      by apply list_elem_of_fmap_2.
    + intros [->|Hin]%elem_of_cons.
      * right. split; [left | done].
      * destruct (IH Hnd Hin) as [->|[? ?]]; [by left | right; split; [by right | done]].
Qed.

Lemma perUser_NoDup (m : list (string * OnlineUser)) :
  NoDup (JsMap.keys m) → perUser m → NoDup (ou_userId <$> JsMap.values m).
Proof.
  intros Hnd Hper. unfold JsMap.values. rewrite <- list_fmap_compose.
  apply NoDup_fmap_2_strong; [|by eapply NoDup_fmap_1].
  intros [k1 u1] [k2 u2] H1 H2 Hu. simpl in Hu.
  pose proof (Hper _ _ H1 H2 Hu) as Hk. simpl in Hk. subst k2.
  apply (elem_of_get _ _ _ Hnd) in H1, H2. congruence.
Qed.

Lemma perUser_filter (m : list (string * OnlineUser))
    (P : string * OnlineUser → Prop) `{!∀ e, Decision (P e)} :
  perUser m → perUser (filter P m).
Proof.
  intros Hper e1 e2 [_ H1]%list_elem_of_filter [_ H2]%list_elem_of_filter. by apply Hper.
Qed.

Lemma presence_step (e : Event) (s : Server) :
  NoDup (JsMap.keys (onlineUsers s)) ∧ perUser (onlineUsers s) →
  NoDup (JsMap.keys (onlineUsers (step e s).1)) ∧ perUser (onlineUsers (step e s).1).
Proof.
  intros [Hnd Hper].
  destruct (onlineUsers_step e s) as [->|[[sock ->]|(sock & uid & uname & ->)]].
  - done.
  - unfold JsMap.delete. split; [by apply NoDup_keys_filter | by apply perUser_filter].
  - set (kept := filter _ (onlineUsers s)).
    assert (Hnd' : NoDup (JsMap.keys kept)) by by apply NoDup_keys_filter.
    assert (Hper' : perUser kept) by by apply perUser_filter.
    split; [by apply NoDup_keys_set|].
    assert (Hother : ∀ e0, e0 ∈ kept → e0.1 ≠ sock → ou_userId e0.2 ≠ uid).
    { intros e0 [Hkeep _]%list_elem_of_filter Hk Hu. by apply Hkeep. }
    intros e1 e2 H1 H2 Hu.
    apply (elem_of_set _ _ _ _ Hnd') in H1 as [->|[H1 Hk1]];
      apply (elem_of_set _ _ _ _ Hnd') in H2 as [->|[H2 Hk2]]; simpl in *.
    + done.
    + by destruct (Hother _ H2 Hk2).
    + by destruct (Hother _ H1 Hk1).
    + by apply Hper'.
Qed.

Lemma presence_run (es : list Event) (s : Server) :
  NoDup (JsMap.keys (onlineUsers s)) ∧ perUser (onlineUsers s) →
  NoDup (JsMap.keys (onlineUsers (run es s).1))
  ∧ perUser (onlineUsers (run es s).1).
Proof.
  revert s. induction es as [|e es IH]; intros s Hinv; [done|].
  simpl. pose proof (presence_step e s Hinv) as Hstep.
  destruct (step e s) as [s1 out1]. specialize (IH s1 Hstep).
  by destruct (run es s1).
Qed.

Lemma get_filter_None {V} (m : list (string * V)) (k : string)
    (P : string * V → Prop) `{!∀ e, Decision (P e)} :
  (∀ v, (k, v) ∈ m → ¬ P (k, v)) → JsMap.get k (filter P m) = None.
Proof.
  intros Hout. apply get_None_keys. unfold JsMap.keys.
  intros ([k' v] & Hk & [HP Hin]%list_elem_of_filter)%list_elem_of_fmap.
  simpl in Hk. subst k'. by apply (Hout v).
Qed.

(** Against C8 as the specification words it: bob has a live entry
    under connection ["B"]; a [joinLobby] with bob's user id from
    connection ["A"], which has joined the lobby before, is ignored: the
    entry under ["B"] is not evicted and no entry is inserted for the new
    connection. *)
Lemma C8_joined_connection_evicts_nothing :
  JsMap.get "B" (onlineUsers lobbyOfThree) = Some (mkOnlineUser "B" "ub" "bob")
  ∧ joinLobby "m9" "t9" "A" "ub" "bob" lobbyOfThree = (lobbyOfThree, [])
  ∧ ¬ (JsMap.get "B" (onlineUsers (joinLobby "m9" "t9" "A" "ub" "bob" lobbyOfThree).1)
       = None
       ∧ JsMap.get "A" (onlineUsers (joinLobby "m9" "t9" "A" "ub" "bob" lobbyOfThree).1)
         = Some (mkOnlineUser "A" "ub" "bob")).
Proof.
  split_and!; [reflexivity | reflexivity |]. by intros [Hgone _].
Qed.

(** C8, amended. After any sequence of events handled from the start of
    the server ([joinLobby] and disconnects among them), the presence
    registry has one entry per connection id and no two entries with the
    same user id.  The first [joinLobby] of a connection (its
    [hasJoinedLobby] flag is not set) that brings a user id already
    registered under another connection removes that stale entry and
    registers the new connection, which is then the only entry of the
    user.  A [joinLobby] on a connection whose flag is set is ignored
    whatever user id it brings: nothing is evicted and nothing
    inserted. *)
Theorem C8_presence_one_entry_per_connection_and_user (es : list Event) :
  let s := (run es initialServer).1 in
  oneEntryPerConnection s ∧ oneEntryPerUser s
  ∧ (∀ uuid now sock uid uname stale u,
      hasJoinedLobby (sockData s sock) = false →
      JsMap.get stale (onlineUsers s) = Some u →
      ou_userId u = uid → stale ≠ sock →
      let s' := (joinLobby uuid now sock uid uname s).1 in
      JsMap.get stale (onlineUsers s') = None
      ∧ JsMap.get sock (onlineUsers s') = Some (mkOnlineUser sock uid uname)
      ∧ ∀ k v, JsMap.get k (onlineUsers s') = Some v → ou_userId v = uid → k = sock)
  ∧ (∀ uuid now sock uid uname,
      hasJoinedLobby (sockData s sock) = true →
      joinLobby uuid now sock uid uname s = (s, [])).
Proof.
  intros s.
  destruct (presence_run es initialServer) as [Hnd Hper].
  { split; [apply NoDup_nil_2 | by intros e1 e2 H1%elem_of_nil]. }
  fold s in Hnd, Hper. split_and!; [done | by apply perUser_NoDup | |].
  2: { intros uuid now sock uid uname Hflag. unfold joinLobby. by rewrite Hflag. }
  intros uuid now sock uid uname stale u Hflag Hstale Hu Hne s'.
  pose proof (presence_step (Receives uuid now sock (JoinLobby uid uname)) s
                (conj Hnd Hper)) as [Hnd' Hper'].
  change (step _ s).1 with s' in Hnd', Hper'.
  assert (Hs' : onlineUsers s'
                = JsMap.set sock (mkOnlineUser sock uid uname)
                    (filter (λ e : string * OnlineUser,
                               ¬ (ou_userId e.2 = uid ∧ e.1 ≠ sock)) (onlineUsers s))).
  { unfold s', joinLobby. by rewrite Hflag. }
  assert (Hnew : JsMap.get sock (onlineUsers s') = Some (mkOnlineUser sock uid uname)).
  { rewrite Hs'. apply get_set_eq. }
  split_and!; [|done|].
  - rewrite Hs', get_set_ne by done. apply get_filter_None.
    intros v Hin%(elem_of_get _ _ _ Hnd) Hkeep. apply Hkeep. simpl.
    split; [congruence | done].
  - intros k v Hk Hv.
    apply get_Some_elem_of in Hk, Hnew. by apply (Hper' _ _ Hk Hnew).
Qed.

(** ** C2: turns and finished games *)

Lemma setCell_changes (b : Board) (row col : Z) (color : Color) :
  cellAt b row col = Some None → setCell b row col color ≠ b.
Proof.
  intros Hcell Heq. pose proof (cellAt_setCell_eq b row col color _ Hcell) as Hnew.
  rewrite Heq in Hnew. congruence.
Qed.

(** One [makeMove] on an existing session: it is either turned down,
    with one [invalidMove] sent to the acting socket and the server state
    untouched, or applied. *)
Lemma makeMove_cases (sock gid : string) (col : Z) (s : Server) (g : GameData) :
  JsMap.get gid (activeGames s) = Some g →
  (∃ msg, makeMove sock gid col s = (s, [Emit (ToSocket sock) (InvalidMove msg)])
          ∧ (winner g ≠ None →
             msg = if decide (colorOf g sock = currentTurn g)
                   then "Game is already over!" else "It's not your turn!"))
  ∨ (winner g = None ∧ colorOf g sock = currentTurn g
     ∧ 0 ≤ col < 7 ∧ findRow (board g) col ≠ -1
     ∧ ∃ g', JsMap.get gid (activeGames (makeMove sock gid col s).1) = Some g'
         ∧ board g' = setCell (board g) (findRow (board g) col) col (currentTurn g)
         ∧ board g' ≠ board g
         ∧ players g' = players g
         ∧ ((winner g' = None ∧ currentTurn g' = flipTurn (currentTurn g))
            ∨ (winner g' ≠ None ∧ currentTurn g' = currentTurn g))).
Proof.
  intros Hg. unfold makeMove. rewrite Hg. cbv zeta.
  destruct (decide (currentTurn g ≠ colorOf g sock)) as [Hturn|Hturn].
  { left. eexists. split; [done|]. intros _. rewrite decide_False; [done | congruence]. }
  apply dec_stable in Hturn.
  case_bool_decide as Hwin.
  { left. eexists. split; [done|]. intros _. by rewrite decide_True. }
  destruct (decide (col < 0 ∨ col >= 7)) as [Hcol|Hcol].
  { left. eexists. split; [done | by intros []]. }
  destruct (decide (findRow (board g) col = -1)) as [Hrow|Hrow].
  { left. eexists. split; [done | by intros []]. }
  right. destruct (findRow_cell _ _ Hrow) as [_ Hcell].
  split_and!; [done | done | lia | lia | done |].
  rewrite <- Hturn.
  pose proof (setCell_changes _ _ _ (currentTurn g) Hcell) as Hchg.
  destruct (wr_winner (checkWinner _ _ _)); [|destruct (isBoardFull _)];
    simpl; rewrite get_set_eq; eexists; (split; [done|]); simpl;
    (split_and!; [done | done | done |]); [right | right | left]; by split.
Qed.

(** The board of a session changes in [makeMove] exactly by a
    [dropToken] of the mover's colour. *)
Lemma makeMove_applies_dropToken
    (sock gid : string) (col : Z) (s : Server) (g g' : GameData) :
  JsMap.get gid (activeGames s) = Some g →
  JsMap.get gid (activeGames (makeMove sock gid col s).1) = Some g' →
  board g' ≠ board g →
  0 ≤ col < 7
  ∧ dropToken (board g) col (colorOf g sock)
    = Some (findRow (board g) col, board g').
Proof.
  intros Hg Hg' Hchg.
  destruct (makeMove_cases sock gid col s g Hg)
    as [(msg & Hrej & _)|(_ & Hturn & Hcol & Hrow & g1 & Hg1 & Hboard & _)].
  - rewrite Hrej in Hg'. simpl in Hg'. congruence.
  - rewrite Hg1 in Hg'. injection Hg' as <-. split; [done|].
    unfold dropToken. rewrite decide_False by done. by rewrite Hturn, Hboard.
Qed.

Lemma finished_game_rejects (gid : string) (es : list Event) (s : Server) (g : GameData) :
  Forall (isMoveOn gid) es →
  JsMap.get gid (activeGames s) = Some g → winner g ≠ None →
  run es s = (s, concat (map (rejection g) es)) ∧ appliedMoves gid es s = [].
Proof.
  intros Hes Hg Hwin. induction Hes as [|e es He Hes IH]; [done|].
  destruct e as [uuid now sock [| | | | |gameId col| |]| |]; try done.
  simpl in He. subst gameId. cbn [run step handle appliedMoves].
  destruct (makeMove_cases sock gid col s g Hg) as [(msg & -> & Hmsg)|(Hnone & _)]; [|done].
  cbn [fst]. rewrite Hg, decide_False by (by intros []).
  destruct IH as [-> ->]. split; [|done]. simpl. by rewrite (Hmsg Hwin).
Qed.

Lemma applied_moves_alternate (gid : string) (es : list Event) :
  ∀ s g,
  Forall (isMoveOn gid) es →
  JsMap.get gid (activeGames s) = Some g →
  alternates (currentTurn g) (appliedMoves gid es s)
  ∧ ∃ g', JsMap.get gid (activeGames (run es s).1) = Some g'
          ∧ (winner g' = None →
             currentTurn g'
             = Nat.iter (length (appliedMoves gid es s)) flipTurn (currentTurn g)).
Proof.
  induction es as [|e es IH]; intros s g Hes Hg.
  { split; [done|]. by exists g. }
  apply Forall_cons in Hes as [He Hes].
  destruct e as [uuid now sock [| | | | |gameId col| |]| |]; try done.
  simpl in He. subst gameId. cbn [run step handle appliedMoves].
  destruct (makeMove_cases sock gid col s g Hg)
    as [(msg & Hrej & _)|(Hnone & Hturn & _ & _ & g1 & Hg1 & _ & Hchg & _ & Hnext)].
  - rewrite Hrej. cbn [fst]. rewrite Hg, decide_False by (by intros []).
    destruct (IH s g Hes Hg) as [Halt Hfin]. destruct (run es s). done.
  - destruct (makeMove sock gid col s) as [s1 out1]. cbn [fst] in *.
    rewrite Hg, Hg1, decide_True by done.
    destruct Hnext as [[Hw1 Ht1]|[Hw1 Ht1]].
    + destruct (IH s1 g1 Hes Hg1) as [Halt (g' & Hg' & Hfin)].
      rewrite Ht1 in Halt, Hfin. destruct (run es s1) as [s2 out2]. cbn [fst] in *.
      split; [done|]. exists g'. split; [done|]. intros Hw'.
      rewrite (Hfin Hw'). cbn [length]. by rewrite Nat.iter_succ_r.
    + destruct (finished_game_rejects gid es s1 g1 Hes Hg1 Hw1) as [-> ->].
      cbn [fst]. split; [done|]. exists g1. split; [done | done].
Qed.


(** ** The boards the server holds *)

Lemma boardsOfPlay_set (s : Server) (gid : string) (g : GameData) :
  boardsOfPlay s → wellShaped (board g) ∧ settled (board g) →
  ∀ k g', JsMap.get k (JsMap.set gid g (activeGames s)) = Some g' →
          wellShaped (board g') ∧ settled (board g').
Proof.
  intros Hs Hg k g'. rewrite get_set. case_decide; [by intros [= <-] | apply Hs].
Qed.

Lemma boardsOfPlay_delete (s : Server) (gid : string) :
  boardsOfPlay s →
  ∀ k g', JsMap.get k (JsMap.delete gid (activeGames s)) = Some g' →
          wellShaped (board g') ∧ settled (board g').
Proof.
  intros Hs k g'. rewrite get_delete. case_decide; [done | apply Hs].
Qed.

Lemma boardsOfPlay_makeMove (sock gid : string) (col : Z) (s : Server) :
  boardsOfPlay s → boardsOfPlay (makeMove sock gid col s).1.
Proof.
  intros Hs k g'.
  destruct (JsMap.get gid (activeGames s)) as [g|] eqn:Hg;
    [|unfold makeMove; rewrite Hg; apply Hs].
  destruct (Hs _ _ Hg) as [Hshape Hsettled].
  destruct (decide (k = gid)) as [->|Hne].
  - intros Hg'. destruct (decide (board g' = board g)) as [->|Hchg]; [done|].
    destruct (makeMove_applies_dropToken sock gid col s g g' Hg Hg' Hchg)
      as [_ Hdrop].
    split; [|by eapply settled_dropToken].
    apply dropToken_Some in Hdrop as (_ & _ & ->). by apply wellShaped_setCell.
  - assert (Hsame : JsMap.get k (activeGames (makeMove sock gid col s).1)
                    = JsMap.get k (activeGames s)).
    { unfold makeMove. rewrite Hg. cbv zeta.
      repeat case_match; simpl; try done; by apply get_set_ne. }
    rewrite Hsame. apply Hs.
Qed.

Lemma boardsOfPlay_step (e : Event) (s : Server) :
  boardsOfPlay s → boardsOfPlay (step e s).1.
Proof.
  intros Hs.
  destruct e as [uuid now sock m|h|k]; [destruct m|..]; cbn [step handle];
    try (by apply boardsOfPlay_makeMove);
    unfold joinLobby, sendChallenge, acceptChallenge, declineChallenge, joinGame,
      forfeitGame, disconnect, fireTimer, resume;
    repeat case_match; cbn [fst]; try done;
    intros k' g'; cbn [activeGames with_activeGames with_activeChallenges
                       with_onlineUsers clearTimeout];
    rewrite ?clearTimeouts_activeGames; cbn [activeGames with_onlineUsers];
    try apply Hs;
    try (by apply boardsOfPlay_delete);
    try (apply boardsOfPlay_set; [done|]; cbn [board];
         first [ split; [apply wellShaped_empty | apply settled_empty]
               | by eapply Hs ]).
Qed.

(** In every state the server reaches, the board of every session is one
    on which [isBoardFull] is exact: six rows of seven cells, no token
    above an empty cell. *)
Lemma session_boards_are_boards_of_play (es : list Event) :
  boardsOfPlay (run es initialServer).1.
Proof.
  assert (Hrun : ∀ s, boardsOfPlay s → boardsOfPlay (run es s).1).
  { induction es as [|e es IH]; intros s Hs; [done|]. cbn [run].
    pose proof (boardsOfPlay_step e s Hs) as Hstep.
    destruct (step e s) as [s1 out1]. specialize (IH s1 Hstep).
    by destruct (run es s1). }
  apply Hrun. by intros gid g.
Qed.

(** ** C6: sending a challenge *)

Lemma set_fresh {V} (m : list (string * V)) (k : string) (v : V) :
  JsMap.get k m = None → JsMap.set k v m = m ++ [(k, v)].
Proof.
  induction m as [|[k0 v0] m IH]; [done|]; simpl.
  case_decide; [done|]. intros Hm. by rewrite IH.
Qed.

(** Against C6 as the specification words it: a connection that
    challenges itself is both parties, so the two user ids are equal, and
    yet the challenge is created, its timer armed and the event sent. *)
Lemma C6_self_challenge_is_created :
  (∃ challenger opponent,
     JsMap.get "A" (onlineUsers lobbyOfThree) = Some challenger
     ∧ JsMap.get "A" (onlineUsers lobbyOfThree) = Some opponent
     ∧ ou_userId challenger = ou_userId opponent)
  ∧ sendChallenge "c2" "A" "A" "alice" lobbyOfThree ≠ (lobbyOfThree, [])
  ∧ activeChallenges (sendChallenge "c2" "A" "A" "alice" lobbyOfThree).1
    = [("c2", mkChallenge "c2" "A" "alice" "ua" "A" "alice" "ua" 0)]
  ∧ timers (sendChallenge "c2" "A" "A" "alice" lobbyOfThree).1 !! 0%nat
    = Some (mkTimer 10000 (ChallengeExpiry "A" "A" "c2"))
  ∧ (sendChallenge "c2" "A" "A" "alice" lobbyOfThree).2
    = [ Emit (ToRoom "A") (ChallengeReceived "A" "alice" "A" "c2");
        Log "alice challenged alice" ].
Proof.
  split_and!; [| | by vm_compute..].
  - exists (mkOnlineUser "A" "ua" "alice"), (mkOnlineUser "A" "ua" "alice").
    by vm_compute.
  - intros Heq. apply (f_equal snd) in Heq. vm_compute in Heq. discriminate.
Qed.

(** C6, amended. [sendChallenge] does nothing at all (no challenge, no
    event, no log line) when the sender or the target is absent from the
    presence registry, and only then: the two user ids are not compared.
    When both are present it stores one challenge under the id drawn for
    it (a new entry when that id is not in use, every other entry
    untouched), arms one timer of 10000 ms that expires this challenge and
    that [clearTimeout] cancels, and sends [challengeReceived] to the
    target. *)
Theorem C6_sendChallenge_needs_both_parties_present
    (uuid sock to toUsername : string) (s : Server) :
  let r := sendChallenge uuid sock to toUsername s in
  (JsMap.get sock (onlineUsers s) = None ∨ JsMap.get to (onlineUsers s) = None →
   r = (s, []))
  ∧ ∀ challenger opponent,
      JsMap.get sock (onlineUsers s) = Some challenger →
      JsMap.get to (onlineUsers s) = Some opponent →
      let challenge :=
        mkChallenge uuid sock (ou_username challenger) (ou_userId challenger)
                    to (ou_username opponent) (ou_userId opponent) (nextTimer s) in
      JsMap.get uuid (activeChallenges r.1) = Some challenge
      ∧ (∀ k, k ≠ uuid →
              JsMap.get k (activeChallenges r.1) = JsMap.get k (activeChallenges s))
      ∧ (JsMap.get uuid (activeChallenges s) = None →
         activeChallenges r.1 = activeChallenges s ++ [(uuid, challenge)])
      ∧ timers r.1
        = <[nextTimer s := mkTimer 10000 (ChallengeExpiry sock to uuid)]> (timers s)
      ∧ nextTimer r.1 = S (nextTimer s)
      ∧ fireTimer (nextTimer s) (clearTimeout (nextTimer s) r.1)
        = (clearTimeout (nextTimer s) r.1, [])
      ∧ r.2 = [ Emit (ToRoom to)
                     (ChallengeReceived sock (ou_username challenger) to uuid);
                Log (ou_username challenger +:+ " challenged " +:+ toUsername) ]
      ∧ onlineUsers r.1 = onlineUsers s ∧ activeGames r.1 = activeGames s.
Proof.
  intros r. subst r. unfold sendChallenge. split.
  - intros [-> | Hto]; [done|]. rewrite Hto. by destruct (JsMap.get sock _).
  - intros challenger opponent Hc Ho. rewrite Hc, Ho. cbv zeta. simpl.
    split_and!; try done.
    + apply get_set_eq.
    + intros k Hk. by apply get_set_ne.
    + apply set_fresh.
    + unfold fireTimer. simpl. by rewrite lookup_delete_eq.
Qed.

(** ** C5: who may act on a challenge or a session *)

(** Against C5 as the specification words it: Carol's connection ["C"]
    is no party to Alice's challenge to Bob, nor to their game, and yet
    her [acceptChallenge] removes the challenge and creates the game, her
    [makeMove] is played as yellow's, and her [forfeitGame] deletes the
    game and tells red that yellow forfeited. *)
Lemma C5_outsider_is_served :
  (ch_to <$> JsMap.get "c1" (activeChallenges challengePending) = Some "B"
   ∧ "C" ≠ "B"
   ∧ (acceptChallenge "g1" "C" "c1" "A" challengePending).1 ≠ challengePending
   ∧ activeChallenges (acceptChallenge "g1" "C" "c1" "A" challengePending).1 = []
   ∧ JsMap.keys (activeGames (acceptChallenge "g1" "C" "c1" "A" challengePending).1)
     = ["g1"])
  ∧ ((players <$> JsMap.get "g1" (activeGames gameUnderWay)
      = Some (mkPlayers (mkPlayer "A" "ua" "alice") (mkPlayer "B" "ub" "bob")))
     ∧ (makeMove "C" "g1" 1 gameUnderWay).1 ≠ gameUnderWay
     ∧ (g ← JsMap.get "g1" (activeGames gameUnderWay); cellAt (board g) 5 1)
       = Some None
     ∧ (g ← JsMap.get "g1" (activeGames (makeMove "C" "g1" 1 gameUnderWay).1);
        cellAt (board g) 5 1)
       = Some (Some Yellow))
  ∧ ((forfeitGame "C" "g1" gameUnderWay).1 ≠ gameUnderWay
     ∧ activeGames (forfeitGame "C" "g1" gameUnderWay).1 = []
     ∧ (forfeitGame "C" "g1" gameUnderWay).2
       = [ Emit (ToRoom "A") (OpponentForfeited "bob");
           Log "bob forfeited game g1" ]).
Proof.
  assert (Hdiff : ∀ s s' : Server, activeGames s ≠ activeGames s' → s ≠ s')
    by (intros s s' Hne ->; done).
  split_and!; try (by vm_compute); apply Hdiff; by vm_compute.
Qed.

Lemma colorOf_not_red (g : GameData) (sock : string) :
  socketId (red (players g)) ≠ sock → colorOf g sock = Yellow.
Proof. intros Hne. unfold colorOf. by rewrite decide_False. Qed.

Lemma makeMove_by_color (sock1 sock2 gid : string) (col : Z) (s : Server) (g : GameData) :
  JsMap.get gid (activeGames s) = Some g →
  colorOf g sock1 = colorOf g sock2 →
  (makeMove sock1 gid col s).1 = (makeMove sock2 gid col s).1.
Proof.
  intros Hg Hc. unfold makeMove. rewrite Hg, Hc. cbv zeta.
  repeat case_match; done.
Qed.

(** C5, amended. The handlers do not check that the requester is a party.
    [acceptChallenge] succeeds for any connection whenever the challenge id
    is pending: it removes the challenge and creates the session between
    the challenge's own sender (red) and target (yellow).  [makeMove] and
    [forfeitGame] on an existing session treat every connection other than
    the red player's as the yellow player: such a move changes the state
    exactly as any other non-red connection's would, and such a forfeit
    deletes the session and notifies red.  What is ignored with no state
    change, no event and no log line is a request that names a challenge
    or session id absent from the registry. *)
Theorem C5_requester_is_not_checked (s : Server) :
  (∀ uuid sock cid from ch,
     JsMap.get cid (activeChallenges s) = Some ch →
     let r := acceptChallenge uuid sock cid from s in
     JsMap.get cid (activeChallenges r.1) = None
     ∧ JsMap.get uuid (activeGames r.1)
       = Some (mkGameData uuid createEmptyBoard Red
                 (mkPlayers
                    (mkPlayer (ch_from ch) (ch_fromUserId ch) (ch_fromUsername ch))
                    (mkPlayer (ch_to ch) (ch_toUserId ch) (ch_toUsername ch)))
                 None None)
     ∧ ∃ line, r.2 = [ Log line;
                       Emit (ToSocket sock) (ChallengeAccepted uuid);
                       Emit (ToRoom from) (ChallengeAccepted uuid) ])
  ∧ (∀ sock gid g,
       JsMap.get gid (activeGames s) = Some g →
       socketId (red (players g)) ≠ sock →
       colorOf g sock = Yellow
       ∧ (∀ sock' col, socketId (red (players g)) ≠ sock' →
            (makeMove sock gid col s).1 = (makeMove sock' gid col s).1)
       ∧ forfeitGame sock gid s
         = (with_activeGames (JsMap.delete gid (activeGames s)) s,
            [ Emit (ToRoom (socketId (red (players g))))
                   (OpponentForfeited (username (yellow (players g))));
              Log (username (yellow (players g)) +:+ " forfeited game " +:+ gid) ]))
  ∧ (∀ uuid sock cid from,
       JsMap.get cid (activeChallenges s) = None →
       acceptChallenge uuid sock cid from s = (s, [])
       ∧ declineChallenge sock cid from s = (s, []))
  ∧ (∀ sock gid col,
       JsMap.get gid (activeGames s) = None →
       makeMove sock gid col s = (s, []) ∧ forfeitGame sock gid s = (s, [])).
Proof.
  split_and!.
  - intros uuid sock cid from ch Hch r. subst r. unfold acceptChallenge.
    rewrite Hch. simpl. split_and!; [apply get_delete_eq | apply get_set_eq | eauto].
  - intros sock gid g Hg Hred.
    pose proof (colorOf_not_red g sock Hred) as Hc. split_and!; [done | |].
    + intros sock' col Hred'. apply (makeMove_by_color _ _ _ _ _ g Hg).
      by rewrite Hc, colorOf_not_red.
    + unfold forfeitGame. rewrite Hg. simpl. by rewrite !decide_False.
  - intros uuid sock cid from Hch. unfold acceptChallenge, declineChallenge.
    by rewrite Hch.
  - intros sock gid col Hg. unfold makeMove, forfeitGame. by rewrite Hg.
Qed.

(** ** C9: forfeiting *)


(** The forfeit reaches a forfeiter that has joined the room named by the
    opponent's connection id. *)
Lemma forfeiter_in_the_room_of_the_opponent_is_notified :
  JsMap.get "g1" (activeGames aliceInRoomOfBob) = Some gameAfterFirstMove
  ∧ "B" ∈ default ∅ (rooms aliceInRoomOfBob !! "A")
  ∧ received aliceInRoomOfBob (forfeitGame "A" "g1" aliceInRoomOfBob).2 "A"
    = [ OpponentForfeited "alice" ].
Proof. split_and!; [reflexivity | by vm_compute | by vm_compute]. Qed.


(** ** C4: a challenge is resolved once *)

Lemma get_filter {V} (m : list (string * V)) (k : string)
    (P : string * V → Prop) `{!∀ e, Decision (P e)} :
  NoDup (JsMap.keys m) →
  JsMap.get k (filter P m)
  = match JsMap.get k m with
    | Some v => if decide (P (k, v)) then Some v else None
    | None => None
    end.
Proof.
  unfold JsMap.keys. induction m as [|[k0 v0] m IH]; [done|].
  intros [Hnin Hnd]%NoDup_cons. rewrite filter_cons. simpl.
  destruct (decide (k0 = k)) as [->|Hne].
  - destruct (decide (P (k, v0))); simpl; [by rewrite decide_True|].
    apply get_filter_None. intros v Hin. destruct Hnin.
    by apply (list_elem_of_fmap_2 fst) in Hin.
  - destruct (decide (P (k0, v0))); simpl; [rewrite decide_False by done|]; by apply IH.
Qed.

Lemma challengesInv_ext (s s' : Server) :
  activeChallenges s' = activeChallenges s → timers s' = timers s →
  nextTimer s' = nextTimer s → challengesInv s → challengesInv s'.
Proof. unfold challengesInv. by intros -> -> ->. Qed.

Lemma challengesInv_initial : challengesInv initialServer.
Proof.
  split_and!; [apply NoDup_nil_2 | done | | done].
  intros h d sock to cid Hh. simpl in Hh. by rewrite lookup_empty in Hh.
Qed.

Lemma handles_differ (s : Server) (cid1 cid2 : string) (ch1 ch2 : Challenge) :
  challengesInv s →
  JsMap.get cid1 (activeChallenges s) = Some ch1 →
  JsMap.get cid2 (activeChallenges s) = Some ch2 →
  ch_timeout ch1 = ch_timeout ch2 → cid1 = cid2.
Proof.
  intros (_ & Harmed & _ & _) H1 H2 Heq.
  pose proof (Harmed _ _ H1) as T1. pose proof (Harmed _ _ H2) as T2.
  rewrite Heq in T1. congruence.
Qed.

(** Taking a pending challenge out together with its timer, as accept,
    decline and the expiry callback do. *)
Lemma challengesInv_resolve (s : Server) (cid : string) (ch : Challenge) :
  challengesInv s →
  JsMap.get cid (activeChallenges s) = Some ch →
  challengesInv
    (with_activeChallenges (JsMap.delete cid (activeChallenges s))
                           (clearTimeout (ch_timeout ch) s)).
Proof.
  intros Hinv Hch. pose proof Hinv as (Hnd & Harmed & Howned & Hnext).
  split_and!; simpl.
  - by apply NoDup_keys_filter.
  - intros cid' ch'. rewrite get_delete. case_decide as Hne; [done|]. intros Hch'.
    rewrite lookup_delete_ne; [by apply Harmed|].
    intros Heq. apply Hne. by eapply handles_differ.
  - intros h d sock to cid'. rewrite lookup_delete. case_decide as Hh; [done|].
    intros (ch' & Hch' & Hh')%Howned. exists ch'. split; [|done].
    rewrite get_delete_ne; [done|]. intros <-. congruence.
  - intros h Hh. rewrite lookup_delete. case_decide; [done | by apply Hnext].
Qed.

Lemma challengesInv_send (uuid sock to toUsername : string) (s : Server) :
  challengesInv s →
  JsMap.get uuid (activeChallenges s) = None →
  challengesInv (sendChallenge uuid sock to toUsername s).1.
Proof.
  intros Hinv Hfresh. pose proof Hinv as (Hnd & Harmed & Howned & Hnext).
  unfold sendChallenge.
  destruct (JsMap.get sock (onlineUsers s)) as [challenger|]; [|done].
  destruct (JsMap.get to (onlineUsers s)) as [opponent|]; [|done].
  split_and!; simpl.
  - by apply NoDup_keys_set.
  - intros cid ch. destruct (decide (uuid = cid)) as [->|Hne].
    + rewrite get_set_eq. intros [= <-]. simpl. by rewrite lookup_insert_eq.
    + rewrite get_set_ne by done. intros Hch.
      rewrite lookup_insert_ne; [by apply Harmed|].
      intros Heq. pose proof (Harmed _ _ Hch) as Ht.
      rewrite <- Heq, Hnext in Ht; [done | lia].
  - intros h d sock' to' cid. rewrite lookup_insert. case_decide as Hh.
    + intros [= <- <- <- <-]. eexists. by rewrite get_set_eq.
    + intros (ch & Hch & Hh')%Howned. exists ch. split; [|done].
      rewrite get_set_ne; [done|]. intros <-. congruence.
  - intros h Hh. rewrite lookup_insert_ne by lia. apply Hnext. lia.
Qed.

Lemma challengesInv_setTimeout_cleanup (gid : string) (ms : Z) (s : Server) :
  challengesInv s → challengesInv (setTimeout (GameCleanup gid) ms s).
Proof.
  intros (Hnd & Harmed & Howned & Hnext). split_and!; simpl.
  - done.
  - intros cid ch Hch. rewrite lookup_insert_ne; [by apply Harmed|].
    intros Heq. pose proof (Harmed _ _ Hch) as Ht.
    rewrite <- Heq, Hnext in Ht; [done | lia].
  - intros h d sock to cid. rewrite lookup_insert. case_decide; [done | apply Howned].
  - intros h Hh. rewrite lookup_insert_ne by lia. apply Hnext. lia.
Qed.

Lemma challengesInv_clear_cleanup (h : nat) (t : Timer) (gid : string) (s : Server) :
  challengesInv s → timers s !! h = Some t → callback t = GameCleanup gid →
  challengesInv (clearTimeout h s).
Proof.
  intros (Hnd & Harmed & Howned & Hnext) Ht Hcb. split_and!; simpl.
  - done.
  - intros cid ch Hch. rewrite lookup_delete_ne; [by apply Harmed|].
    intros Heq. rewrite Heq, (Harmed _ _ Hch) in Ht. injection Ht as <-. done.
  - intros h' d sock to cid. rewrite lookup_delete. case_decide; [done | apply Howned].
  - intros h' Hh. rewrite lookup_delete. case_decide; [done | by apply Hnext].
Qed.

Lemma challengesInv_disconnect (uuid now sock : string) (s : Server) :
  challengesInv s → challengesInv (disconnect uuid now sock s).1.
Proof.
  intros Hinv. pose proof Hinv as (Hnd & Harmed & Howned & Hnext).
  unfold disconnect. destruct (JsMap.get sock (onlineUsers s)) as [user|]; [|done].
  cbn [fst with_onlineUsers with_activeChallenges activeChallenges timers nextTimer].
  rewrite !clearTimeouts_activeChallenges.
  cbn [with_onlineUsers activeChallenges].
  set (hit := filter (involves sock) (activeChallenges s)).
  set (hs := map (λ e : string * Challenge, ch_timeout e.2) hit).
  assert (Hhs : ∀ cid ch, JsMap.get cid (activeChallenges s) = Some ch →
                ch_timeout ch ∈ hs → involves sock (cid, ch)).
  { intros cid ch Hch ([cid' ch'] & Heq & [Hinv' Hin]%list_elem_of_filter)%list_elem_of_fmap.
    simpl in Heq. apply (elem_of_get _ _ _ Hnd) in Hin.
    pose proof (handles_differ s cid cid' ch ch' Hinv Hch Hin Heq) as <-.
    rewrite Hch in Hin. by injection Hin as <-. }
  split_and!;
    cbn [activeChallenges timers nextTimer with_activeChallenges with_onlineUsers].
  - by apply NoDup_keys_filter.
  - intros cid ch. rewrite get_filter by done.
    destruct (JsMap.get cid (activeChallenges s)) as [ch'|] eqn:Hch; [|done].
    case_decide as Hkeep; [|done]. intros [= <-].
    rewrite clearTimeouts_timers. rewrite decide_False; [by apply Harmed|].
    intros Hin. by apply Hkeep, Hhs.
  - intros h d sock' to cid. rewrite clearTimeouts_timers.
    case_decide as Hin; [done|]. cbn [with_onlineUsers timers].
    intros (ch & Hch & Hh)%Howned. exists ch. split; [|done].
    rewrite get_filter, Hch by done. rewrite decide_True; [done|].
    intros Hinv'. apply Hin. subst h. apply list_elem_of_fmap.
    exists (cid, ch). split; [done|]. apply list_elem_of_filter. split; [done|].
    by apply get_Some_elem_of.
  - intros h Hh. rewrite clearTimeouts_timers, clearTimeouts_nextTimer in *.
    case_decide; [done|]. by apply Hnext.
Qed.

Lemma challengesInv_step (e : Event) (s : Server) :
  challengesInv s →
  match e with
  | Receives uuid _ _ (SendChallenge _ _) =>
      JsMap.get uuid (activeChallenges s) = None
  | _ => True
  end →
  challengesInv (step e s).1.
Proof.
  intros Hinv Hfresh. pose proof Hinv as (Hnd & Harmed & Howned & Hnext).
  destruct e as [uuid now sock m|h|k]; [destruct m|..]; cbn [step handle].
  - unfold joinLobby. case_match; [done|]. by eapply challengesInv_ext.
  - by apply challengesInv_send.
  - unfold acceptChallenge. case_match eqn:Hch; [|done].
    eapply challengesInv_ext; [| | |by eapply challengesInv_resolve]; done.
  - unfold declineChallenge. case_match eqn:Hch; [|done].
    eapply challengesInv_ext; [| | |by eapply challengesInv_resolve]; done.
  - unfold joinGame. repeat case_match; by eapply challengesInv_ext.
  - unfold makeMove. repeat case_match; try done; cbn [fst].
    + eapply challengesInv_ext;
        [| | | eapply (challengesInv_setTimeout_cleanup gameId 30000), Hinv]; done.
    + eapply challengesInv_ext;
        [| | | eapply (challengesInv_setTimeout_cleanup gameId 30000), Hinv]; done.
  - unfold forfeitGame. case_match; [|done]. by eapply challengesInv_ext.
  - by apply challengesInv_disconnect.
  - unfold fireTimer. destruct (timers s !! h) as [[d cb]|] eqn:Ht; [|done].
    destruct cb as [sock to cid|gid]; cbn [callback fst].
    + destruct (Howned _ _ _ _ _ Ht) as (ch & Hch & <-).
      eapply challengesInv_ext; [| | |by eapply challengesInv_resolve]; done.
    + eapply challengesInv_ext;
        [| | | by eapply (challengesInv_clear_cleanup h _ gid s Hinv Ht)]; done.
  - by destruct k.
Qed.

Lemma challengesInv_run (es : list Event) :
  ∀ s, challengesInv s → freshRun es s → challengesInv (run es s).1.
Proof.
  induction es as [|e es IH]; intros s Hinv Hfresh; [done|].
  destruct Hfresh as [He Hes]. cbn [run].
  pose proof (challengesInv_step e s Hinv He) as Hstep.
  destruct (step e s) as [s1 out1]. specialize (IH s1 Hstep Hes).
  by destruct (run es s1).
Qed.

Lemma get_filter_absent {V} (m : list (string * V)) (k : string)
    (P : string * V → Prop) `{!∀ e, Decision (P e)} :
  JsMap.get k m = None → JsMap.get k (filter P m) = None.
Proof.
  intros Hk. apply get_filter_None. intros v Hin.
  apply get_None_keys in Hk. destruct Hk.
  by apply (list_elem_of_fmap_2 fst) in Hin.
Qed.

(** A challenge id that is not pending stays so, unless a new challenge
    is sent under that very id. *)
Lemma stays_resolved (e : Event) (s : Server) (cid : string) :
  JsMap.get cid (activeChallenges s) = None →
  (∀ now sock to toUsername, e ≠ Receives cid now sock (SendChallenge to toUsername)) →
  JsMap.get cid (activeChallenges (step e s).1) = None.
Proof.
  intros Hcid Hother.
  destruct e as [uuid now sock m|h|k]; [destruct m|..]; handler_cases;
    rewrite ?clearTimeouts_activeChallenges; cbn [activeChallenges with_onlineUsers];
    try done;
    try (by apply get_filter_absent).
  destruct (decide (uuid = cid)) as [->|Hne]; [by destruct (Hother now sock to toUsername)|].
  by rewrite get_set_ne.
Qed.

(** C4. In every state the server reaches (the ids drawn by
    [randomUUID] being fresh), for every challenge id:
    - while the challenge is pending its expiry timer is armed, and each
      of accept, decline, the expiry of its timer, and the disconnect of
      one of its parties (registered in the lobby) removes the challenge
      and leaves its timer dead;
    - when the challenge is not pending (so after any of these), accept
      and decline on that id return at once without any effect, no armed
      timer expires that id (the expiry cannot run, having been cancelled
      or spent), and a disconnect neither finds that id among the
      challenges it resolves nor brings it back;
    - and the id stays out of the registry whatever the server handles
      next, unless a new challenge is drawn under that very id. *)
Theorem C4_challenge_resolved_at_most_once (es : list Event) (cid : string) :
  freshRun es initialServer →
  let s := (run es initialServer).1 in
  (∀ ch, JsMap.get cid (activeChallenges s) = Some ch →
     timers s !! ch_timeout ch
     = Some (mkTimer 10000 (ChallengeExpiry (ch_from ch) (ch_to ch) cid))
     ∧ (∀ uuid sock from,
          let s' := (acceptChallenge uuid sock cid from s).1 in
          JsMap.get cid (activeChallenges s') = None
          ∧ timers s' !! ch_timeout ch = None)
     ∧ (∀ sock from,
          let s' := (declineChallenge sock cid from s).1 in
          JsMap.get cid (activeChallenges s') = None
          ∧ timers s' !! ch_timeout ch = None)
     ∧ (let s' := (fireTimer (ch_timeout ch) s).1 in
        JsMap.get cid (activeChallenges s') = None
        ∧ timers s' !! ch_timeout ch = None)
     ∧ (∀ uuid now sock,
          is_Some (JsMap.get sock (onlineUsers s)) →
          ch_from ch = sock ∨ ch_to ch = sock →
          let s' := (disconnect uuid now sock s).1 in
          JsMap.get cid (activeChallenges s') = None
          ∧ timers s' !! ch_timeout ch = None))
  ∧ (JsMap.get cid (activeChallenges s) = None →
     (∀ uuid sock from, acceptChallenge uuid sock cid from s = (s, []))
     ∧ (∀ sock from, declineChallenge sock cid from s = (s, []))
     ∧ (∀ h t sock to, timers s !! h = Some t →
                       callback t ≠ ChallengeExpiry sock to cid)
     ∧ (∀ uuid now sock,
          JsMap.get cid (activeChallenges (disconnect uuid now sock s).1) = None
          ∧ cid ∉ JsMap.keys (filter (involves sock) (activeChallenges s)))
     ∧ (∀ e, (∀ now sock to toUsername,
                e ≠ Receives cid now sock (SendChallenge to toUsername)) →
             JsMap.get cid (activeChallenges (step e s).1) = None)).
Proof.
  intros Hfresh s.
  pose proof (challengesInv_run es initialServer challengesInv_initial Hfresh) as Hinv.
  fold s in Hinv. pose proof Hinv as (Hnd & Harmed & Howned & Hnext).
  split.
  - intros ch Hch. pose proof (Harmed _ _ Hch) as Ht. split_and!; [done|..].
    + intros uuid sock from. unfold acceptChallenge. rewrite Hch. simpl.
      by rewrite get_delete_eq, lookup_delete_eq.
    + intros sock from. unfold declineChallenge. rewrite Hch. simpl.
      by rewrite get_delete_eq, lookup_delete_eq.
    + unfold fireTimer. rewrite Ht. simpl.
      by rewrite get_delete_eq, lookup_delete_eq.
    + intros uuid now sock [user Huser] Hparty. unfold disconnect. rewrite Huser.
      cbn [fst with_activeChallenges activeChallenges timers].
      rewrite clearTimeouts_activeChallenges, clearTimeouts_timers.
      cbn [with_onlineUsers activeChallenges]. split.
      * rewrite get_filter, Hch by done. rewrite decide_False; [done|].
        intros Hkeep. by apply Hkeep.
      * rewrite decide_True; [done|]. apply list_elem_of_fmap.
        exists (cid, ch). split; [done|]. apply list_elem_of_filter.
        split; [done | by apply get_Some_elem_of].
  - intros Hcid. split_and!.
    + intros uuid sock from. unfold acceptChallenge. by rewrite Hcid.
    + intros sock from. unfold declineChallenge. by rewrite Hcid.
    + intros h [d cb] sock to Ht Hcb. simpl in Hcb. subst cb.
      destruct (Howned _ _ _ _ _ Ht) as (ch & Hch & _). congruence.
    + intros uuid now sock. split.
      * apply (stays_resolved (Receives uuid now sock Disconnect) s cid Hcid). done.
      * apply get_None_keys. by apply get_filter_absent.
    + intros e He. by apply stays_resolved.
Qed.

(** ** The theorems at work on the sample runs *)

Lemma C1_drop_in_column_0_of_game_under_way :
  JsMap.get "g1" (activeGames gameUnderWay) = Some gameAfterFirstMove
  ∧ currentTurn gameAfterFirstMove = colorOf gameAfterFirstMove "B"
  ∧ winner gameAfterFirstMove = None
  ∧ 0 ≤ 0 < 7
  ∧ cellAt (board gameAfterFirstMove) (findRow (board gameAfterFirstMove) 0) 0
    = Some None
  ∧ ∀ r, findRow (board gameAfterFirstMove) 0 < r →
         cellAt (board gameAfterFirstMove) r 0 ≠ Some None.
Proof.
  assert (H1 : JsMap.get "g1" (activeGames gameUnderWay) = Some gameAfterFirstMove)
    by reflexivity.
  assert (H2 : currentTurn gameAfterFirstMove = colorOf gameAfterFirstMove "B")
    by reflexivity.
  assert (H3 : winner gameAfterFirstMove = None) by reflexivity.
  assert (H4 : 0 ≤ 0 < 7) by lia.
  destruct (C1_drop_lands_in_lowest_empty_row gameUnderWay "B" "g1"
              gameAfterFirstMove 0 H1 H2 H3 H4) as [Hdrop _].
  destruct Hdrop as [(_ & Hcell & _ & Hlow) _].
  { exists 4. split; [lia | reflexivity]. }
  split_and!; [exact H1 | exact H2 | exact H3 | lia | lia | exact Hcell |].
  apply Hlow. simpl. lia.
Defined.



Lemma C4_pending_challenge_has_its_timer :
  freshRun [ Receives "m1" "t1" "A" (JoinLobby "ua" "alice");
             Receives "m2" "t2" "B" (JoinLobby "ub" "bob");
             Receives "c1" "t4" "A" (SendChallenge "B" "bob") ] initialServer
  ∧ timers (run [ Receives "m1" "t1" "A" (JoinLobby "ua" "alice");
                  Receives "m2" "t2" "B" (JoinLobby "ub" "bob");
                  Receives "c1" "t4" "A" (SendChallenge "B" "bob") ]
                initialServer).1 !! 0%nat
    = Some (mkTimer 10000 (ChallengeExpiry "A" "B" "c1")).
Proof.
  set (es := [ Receives "m1" "t1" "A" (JoinLobby "ua" "alice");
               Receives "m2" "t2" "B" (JoinLobby "ub" "bob");
               Receives "c1" "t4" "A" (SendChallenge "B" "bob") ]).
  assert (H1 : freshRun es initialServer) by (simpl; repeat split; reflexivity).
  split; [exact H1|].
  destruct (C4_challenge_resolved_at_most_once es "c1" H1) as [Hpending _].
  exact (proj1 (Hpending aliceChallengesBob eq_refl)).
Defined.

Lemma C5_unknown_ids_are_ignored_in_lobby :
  JsMap.get "nope" (activeChallenges lobbyOfThree) = None
  ∧ JsMap.get "nope" (activeGames lobbyOfThree) = None
  ∧ acceptChallenge "g9" "C" "nope" "A" lobbyOfThree = (lobbyOfThree, [])
  ∧ forfeitGame "C" "nope" lobbyOfThree = (lobbyOfThree, []).
Proof.
  assert (H1 : JsMap.get "nope" (activeChallenges lobbyOfThree) = None) by reflexivity.
  assert (H2 : JsMap.get "nope" (activeGames lobbyOfThree) = None) by reflexivity.
  destruct (C5_requester_is_not_checked lobbyOfThree) as (_ & _ & Hch & Hgame).
  split_and!; [exact H1 | exact H2 | |].
  - exact (proj1 (Hch "g9" "C" "nope" "A" H1)).
  - exact (proj2 (Hgame "C" "nope" 0 H2)).
Defined.

Lemma C6_absent_target_is_a_noop :
  JsMap.get "Z" (onlineUsers lobbyOfThree) = None
  ∧ sendChallenge "c9" "A" "Z" "zed" lobbyOfThree = (lobbyOfThree, []).
Proof.
  assert (H1 : JsMap.get "Z" (onlineUsers lobbyOfThree) = None) by reflexivity.
  split; [exact H1|].
  apply (proj1 (C6_sendChallenge_needs_both_parties_present
                  "c9" "A" "Z" "zed" lobbyOfThree)).
  right. exact H1.
Defined.

Lemma C7_filled_board_is_full :
  playDrops fillingDrops createEmptyBoard = Some filledBoard
  ∧ (isBoardFull filledBoard = true ↔ occupiedCells filledBoard = 42%nat).
Proof.
  assert (H1 : playDrops fillingDrops createEmptyBoard = Some filledBoard)
    by (vm_compute; reflexivity).
  split; [exact H1|].
  exact (proj2 (C7_isBoardFull_iff_all_42_occupied fillingDrops filledBoard H1)).
Defined.

Lemma C8_rejoining_user_evicts_old_connection :
  hasJoinedLobby (sockData lobbyOfThree "D") = false
  ∧ JsMap.get "A" (onlineUsers lobbyOfThree) = Some (mkOnlineUser "A" "ua" "alice")
  ∧ "A" ≠ "D"
  ∧ JsMap.get "A" (onlineUsers (joinLobby "m4" "t6" "D" "ua" "alice" lobbyOfThree).1)
    = None
  ∧ JsMap.get "D" (onlineUsers (joinLobby "m4" "t6" "D" "ua" "alice" lobbyOfThree).1)
    = Some (mkOnlineUser "D" "ua" "alice").
Proof.
  assert (H1 : hasJoinedLobby (sockData lobbyOfThree "D") = false) by reflexivity.
  assert (H2 : JsMap.get "A" (onlineUsers lobbyOfThree)
               = Some (mkOnlineUser "A" "ua" "alice")) by reflexivity.
  assert (H3 : "A" ≠ "D") by discriminate.
  destruct (C8_presence_one_entry_per_connection_and_user
              [ Receives "m1" "t1" "A" (JoinLobby "ua" "alice");
                Receives "m2" "t2" "B" (JoinLobby "ub" "bob");
                Receives "m3" "t3" "C" (JoinLobby "uc" "carol") ])
    as (_ & _ & Hevict & _).
  destruct (Hevict "m4" "t6" "D" "ua" "alice" "A" _ H1 H2 eq_refl H3)
    as (Hgone & Hnew & _).
  split_and!; [exact H1 | exact H2 | exact H3 | exact Hgone | exact Hnew].
Defined.


Lemma C10_second_join_of_alice_is_a_noop :
  joinLobby "m5" "t7" "A" "ux" "mallory"
    (run [ Receives "m2" "t2" "B" (JoinLobby "ub" "bob") ]
         (joinLobby "m1" "t1" "A" "ua" "alice" initialServer).1).1
  = ((run [ Receives "m2" "t2" "B" (JoinLobby "ub" "bob") ]
          (joinLobby "m1" "t1" "A" "ua" "alice" initialServer).1).1, []).
Proof.
  exact (proj2 (C10_second_joinLobby_is_noop
                  "m1" "t1" "ua" "alice" "m5" "t7" "ux" "mallory" "A"
                  [ Receives "m2" "t2" "B" (JoinLobby "ub" "bob") ] initialServer)).
Defined.

(** * Further properties of the server code *)

(** ** Counting tokens *)

Section tally.
Context (P : Cell → Prop) `{!∀ cell, Decision (P cell)}.

Lemma tally_row_insert (rowData : list Cell) (i : nat) (x y : Cell) :
  rowData !! i = Some x →
  (length (filter P (<[i:=y]> rowData)) + (if decide (P x) then 1 else 0)
   = length (filter P rowData) + (if decide (P y) then 1 else 0))%nat.
Proof.
  intros Hi. rewrite insert_take_drop by (by eapply lookup_lt_Some).
  rewrite <- (take_drop_middle rowData i x Hi) at 3.
  rewrite !filter_app, !filter_cons, !length_app.
  repeat case_decide; simpl; lia.
Qed.

Lemma tally_setCell (b : Board) (row col : Z) (color : Color) :
  cellAt b row col = Some None →
  (sum_list (map (λ rowData : list Cell, length (filter P rowData))
                 (setCell b row col color))
   + (if decide (P None) then 1 else 0)
   = sum_list (map (λ rowData : list Cell, length (filter P rowData)) b)
     + (if decide (P (Some color)) then 1 else 0))%nat.
Proof.
  intros (rowData & Hrow & Hcell)%cellAt_Some. unfold setCell. rewrite Hrow.
  apply idx_Some in Hrow as [Hr Hrow]. apply idx_Some in Hcell as [Hc Hcell].
  unfold setIdx. rewrite !decide_True by done.
  pose proof (tally_row_insert rowData (Z.to_nat col) None (Some color) Hcell) as Hone.
  rewrite insert_take_drop by (by eapply lookup_lt_Some).
  rewrite <- (take_drop_middle b (Z.to_nat row) rowData Hrow) at 3.
  rewrite !map_app, !sum_list_with_app. simpl. lia.
Qed.
End tally.

Lemma occupiedCells_setCell (b : Board) (row col : Z) (color : Color) :
  cellAt b row col = Some None →
  occupiedCells (setCell b row col color) = S (occupiedCells b).
Proof.
  intros Hcell. unfold occupiedCells.
  pose proof (tally_setCell (λ cell : Cell, cell ≠ None) b row col color Hcell) as H.
  rewrite decide_False in H by (by intros ?). rewrite decide_True in H by done. lia.
Qed.

Lemma countColor_setCell (b : Board) (row col : Z) (color c : Color) :
  cellAt b row col = Some None →
  countColor c (setCell b row col color)
  = (countColor c b + (if decide (color = c) then 1 else 0))%nat.
Proof.
  intros Hcell. unfold countColor.
  pose proof (tally_setCell (λ cell : Cell, cell = Some c) b row col color Hcell) as H.
  rewrite decide_False in H by done.
  destruct (decide (color = c)) as [->|Hne].
  - rewrite decide_True in H by done. lia.
  - rewrite decide_False in H by congruence. lia.
Qed.

(** ** The cells of a win *)

Lemma elem_of_ray (row col : Z) (d rc : Coord) (n : nat) :
  rc ∈ ray row col d n
  ↔ ∃ i, 1 ≤ i ≤ Z.of_nat n ∧ rc = (row + i * d.1, col + i * d.2).
Proof.
  unfold ray. rewrite list_elem_of_fmap. split.
  - intros (i & -> & Hi%elem_of_seq). exists (Z.of_nat i). split; [lia | done].
  - intros (i & Hi & ->). exists (Z.to_nat i). rewrite Z2Nat.id by lia.
    split; [done|]. apply elem_of_seq. lia.
Qed.

Lemma NoDup_ray (row col dr dc : Z) (n : nat) :
  unitStep dr dc → NoDup (ray row col (dr, dc) n).
Proof.
  intros (Hdr & Hdc & Hnz). unfold ray.
  apply NoDup_fmap_2_strong; [|apply NoDup_seq].
  intros i j _ _ [= Hr Hc]. simpl in *. nia.
Qed.

Lemma NoDup_axis (row col dr dc : Z) (n1 n2 : nat) :
  unitStep dr dc →
  NoDup ((row, col) :: ray row col (dr, dc) n1 ++ ray row col (-dr, -dc) n2).
Proof.
  intros Hu. pose proof Hu as (Hdr & Hdc & Hnz).
  assert (Hu' : unitStep (-dr) (-dc)) by (unfold unitStep; lia).
  apply NoDup_cons. split.
  - rewrite elem_of_app, !elem_of_ray.
    intros [(i & Hi & [= Hr Hc])|(i & Hi & [= Hr Hc])]; simpl in *; nia.
  - apply NoDup_app. split_and!; [by apply NoDup_ray | | by apply NoDup_ray].
    intros rc (i & Hi & ->)%elem_of_ray (j & Hj & [= Hr Hc])%elem_of_ray.
    simpl in *. nia.
Qed.

(** What [checkWinner] returns with a winner: the winner is the colour of
    the cell it was asked about, and the cells are that cell followed by
    others, at least four in all, pairwise distinct, each holding the
    winner's colour; at most seven when the cell is on the board. *)
Lemma checkWinner_cells (b : Board) (row col : Z) (p : Color) :
  wr_winner (checkWinner b row col) = Some p →
  cellAt b row col = Some (Some p)
  ∧ ∃ rest, wr_cells (checkWinner b row col) = Some ((row, col) :: rest)
            ∧ (3 ≤ length rest)%nat
            ∧ NoDup ((row, col) :: rest)
            ∧ (∀ rc, rc ∈ (row, col) :: rest → cellAt b rc.1 rc.2 = Some (Some p))
            ∧ (inBounds row col = true → (length rest ≤ 6)%nat).
Proof.
  pose proof (checkWinner_player b row col) as Hcw.
  destruct (cellAt b row col) as [[player|]|] eqn:Hcell; rewrite Hcw; [|done..].
  destruct (checkDirections_spec b player row col directions)
    as [[-> _]|(dir & Hin & Hlen & ->)]; [done|].
  intros [= <-]. split; [done|].
  destruct (directions_shape dir Hin) as (dr & dc & -> & Hu).
  destruct (axis_profile b player row col dr dc Hu)
    as (n1 & n2 & Heq & Hall & _ & _).
  rewrite Heq in Hlen |- *. cbn [wr_cells].
  eexists. split; [done|].
  simpl in Hlen. rewrite length_app, !length_ray in *.
  split_and!; [lia | by apply NoDup_axis | |].
  - intros rc [->|Hrc]%elem_of_cons; [done|].
    apply elem_of_app in Hrc as [(i & Hi & ->)%elem_of_ray|(i & Hi & ->)%elem_of_ray];
      simpl.
    + apply (Hall i); lia.
    + destruct (Hall (- i)) as [_ Hc]; [lia..|].
      by replace (row + i * - dr) with (row + - i * dr) by lia;
         replace (col + i * - dc) with (col + - i * dc) by lia.
  - intros [Hr Hc]%inBounds_true. destruct Hu as (Hdr & Hdc & Hnz).
    assert (H1 : n1 = 0%nat ∨ owns b player (row + Z.of_nat n1 * dr) (col + Z.of_nat n1 * dc)).
    { destruct n1; [by left | right; apply Hall; lia]. }
    assert (H2 : n2 = 0%nat ∨ owns b player (row + - Z.of_nat n2 * dr) (col + - Z.of_nat n2 * dc)).
    { destruct n2; [by left | right; apply Hall; lia]. }
    destruct H1 as [->|[Hb1%inBounds_true _]], H2 as [->|[Hb2%inBounds_true _]]; nia.
Qed.

(** ** How sessions change *)

(** The session a move is applied to, after the move. *)
Lemma makeMove_applied (sock gid : string) (col : Z) (s : Server) (g g' : GameData) :
  JsMap.get gid (activeGames s) = Some g →
  JsMap.get gid (activeGames (makeMove sock gid col s).1) = Some g' →
  g' ≠ g →
  let row := findRow (board g) col in
  let b' := setCell (board g) row col (currentTurn g) in
  let result := checkWinner b' row col in
  winner g = None ∧ colorOf g sock = currentTurn g
  ∧ 0 ≤ col < 7 ∧ cellAt (board g) row col = Some None
  ∧ g' = match wr_winner result with
         | Some w => mkGameData (g_id g) b' (currentTurn g) (players g)
                                (Some (Won w)) (wr_cells result)
         | None =>
             if isBoardFull b'
             then mkGameData (g_id g) b' (currentTurn g) (players g)
                             (Some Draw) (winningCells g)
             else mkGameData (g_id g) b' (flipTurn (currentTurn g)) (players g)
                             None (winningCells g)
         end.
Proof.
  intros Hg Hg' Hchg. revert Hg'. unfold makeMove. rewrite Hg. cbv zeta.
  destruct (decide (currentTurn g ≠ colorOf g sock)) as [Hturn|Hturn].
  { simpl. congruence. }
  apply dec_stable in Hturn. case_bool_decide as Hwin; [simpl; congruence|].
  destruct (decide (col < 0 ∨ col >= 7)) as [Hcol|Hcol]; [simpl; congruence|].
  destruct (decide (findRow (board g) col = -1)) as [Hrow|Hrow]; [simpl; congruence|].
  destruct (findRow_cell _ _ Hrow) as [_ Hcell]. rewrite <- Hturn.
  destruct (wr_winner (checkWinner _ _ _)); [|destruct (isBoardFull _)];
    simpl; rewrite get_set_eq; intros [= <-];
    (split_and!; [done | done | lia | lia | done |]);
    by rewrite ?Hwin.
Qed.

Lemma makeMove_other_session (sock gameId gid : string) (col : Z) (s : Server) :
  gameId ≠ gid →
  JsMap.get gid (activeGames (makeMove sock gameId col s).1)
  = JsMap.get gid (activeGames s).
Proof.
  intros Hne. unfold makeMove. repeat case_match; simpl; try done;
    by apply get_set_ne.
Qed.

(** Where the session found under an id after one event comes from. *)
Lemma games_step_cases (e : Event) (s : Server) (gid : string) (g' : GameData) :
  JsMap.get gid (activeGames (step e s).1) = Some g' →
  JsMap.get gid (activeGames s) = Some g'
  ∨ (∃ ps, g' = mkGameData gid createEmptyBoard Red ps None None)
  ∨ (∃ g ps, JsMap.get gid (activeGames s) = Some g ∧ g' = rebound g ps)
  ∨ (∃ sock col g, JsMap.get gid (activeGames s) = Some g
                   ∧ JsMap.get gid (activeGames (makeMove sock gid col s).1) = Some g'
                   ∧ g' ≠ g).
Proof.
  destruct e as [uuid now sock m|h|k]; [destruct m|..]; cbn [step handle].
  - unfold joinLobby. case_match; auto.
  - unfold sendChallenge. repeat case_match; auto.
  - unfold acceptChallenge. case_match; [|auto]. cbn [fst activeGames with_activeGames
      with_activeChallenges clearTimeout].
    rewrite get_set. case_decide; [|auto]. intros [= <-]. subst. right. left. eauto.
  - unfold declineChallenge. case_match; auto.
  - unfold joinGame. cbn [socketJoin activeGames].
    destruct (JsMap.get gameId (activeGames s)) as [g|] eqn:Hg; [|auto].
    repeat case_decide; cbn [fst activeGames with_activeGames]; [| |auto];
      (rewrite get_set; case_decide; [|auto]; intros [= <-]; subst;
       right; right; left; eauto).
  - destruct (decide (gameId = gid)) as [->|Hne].
    + destruct (JsMap.get gid (activeGames s)) as [g|] eqn:Hg.
      * intros Hg'. destruct (decide (g' = g)) as [->|Hchg]; [auto|].
        right. right. right. by exists sock, col, g.
      * unfold makeMove. rewrite Hg. simpl. congruence.
    + rewrite makeMove_other_session by done. auto.
  - unfold forfeitGame. case_match; [|auto]. cbn [fst activeGames with_activeGames].
    rewrite get_delete. case_decide; [done | auto].
  - unfold disconnect. case_match; [|auto]. cbn [fst activeGames with_activeChallenges].
    rewrite clearTimeouts_activeGames. auto.
  - unfold fireTimer. repeat case_match; cbn [fst activeGames with_activeGames
      with_activeChallenges clearTimeout]; auto.
    rewrite get_delete. case_decide; [done | auto].
  - destruct k; auto.
Qed.

(** A property of sessions that new sessions have, that [joinGame] cannot
    break, and that every applied move keeps, holds of every session of
    every state the server reaches. *)
Lemma sessions_invariant (P : GameData → Prop) :
  (∀ gid ps, P (mkGameData gid createEmptyBoard Red ps None None)) →
  (∀ g ps, P g → P (rebound g ps)) →
  (∀ sock gid col s g g',
     JsMap.get gid (activeGames s) = Some g →
     JsMap.get gid (activeGames (makeMove sock gid col s).1) = Some g' →
     g' ≠ g → P g → P g') →
  ∀ es gid g, JsMap.get gid (activeGames (run es initialServer).1) = Some g → P g.
Proof.
  intros Hnew Hrebound Hmove es.
  assert (Hrun : ∀ s, (∀ gid g, JsMap.get gid (activeGames s) = Some g → P g) →
                      ∀ gid g, JsMap.get gid (activeGames (run es s).1) = Some g → P g).
  { induction es as [|e es IH]; intros s Hs; [done|]. cbn [run].
    assert (Hstep : ∀ gid g, JsMap.get gid (activeGames (step e s).1) = Some g → P g).
    { intros gid g Hg. apply games_step_cases in Hg
        as [Hg|[[ps ->]|[(g0 & ps & Hg0 & ->)|(sock & col & g0 & Hg0 & Hg & Hne)]]];
        eauto. }
    destruct (step e s) as [s1 out1]. specialize (IH s1 Hstep).
    by destruct (run es s1). }
  apply Hrun. by intros gid g.
Qed.

(** ** Results and boards of the sessions *)

Lemma isBoardFull_occupied (b : Board) :
  wellShaped b → settled b →
  isBoardFull b = true ↔ occupiedCells b = 42%nat.
Proof.
  intros Hshape Hsettled.
  rewrite occupiedCells_all, all_occupied_cells, isBoardFull_top by done. split.
  - intros Htop r c Hr Hc.
    destruct (wellShaped_cellAt b r c Hshape Hr Hc) as [[p|] Hx]; [by exists p|].
    exfalso. apply (Htop c Hc). apply (settled_rises b c (Z.to_nat r)); [done|].
    by rewrite Z2Nat.id by lia.
  - intros Hall c Hc Hcell. destruct (Hall 0 c) as [p Hp]; [lia | done | congruence].
Qed.

Lemma isBoardFull_false_column (b : Board) :
  wellShaped b → isBoardFull b = false →
  ∃ col, 0 ≤ col < 7 ∧ cellAt b 0 col = Some None ∧ findRow b col ≠ -1.
Proof.
  intros Hshape Hfull.
  assert (Hfound : ∀ col, 0 ≤ col < 7 → cellAt b 0 col = Some None →
                   ∃ col, 0 ≤ col < 7 ∧ cellAt b 0 col = Some None ∧ findRow b col ≠ -1).
  { intros col Hcol Hcell. exists col. split_and!; [lia | lia | done |].
    intros Hrow. apply (proj1 (findRow_none b col) Hrow 0); [lia | done]. }
  destruct (decide (cellAt b 0 0 = Some None)); [by apply (Hfound 0)|].
  destruct (decide (cellAt b 0 1 = Some None)); [by apply (Hfound 1)|].
  destruct (decide (cellAt b 0 2 = Some None)); [by apply (Hfound 2)|].
  destruct (decide (cellAt b 0 3 = Some None)); [by apply (Hfound 3)|].
  destruct (decide (cellAt b 0 4 = Some None)); [by apply (Hfound 4)|].
  destruct (decide (cellAt b 0 5 = Some None)); [by apply (Hfound 5)|].
  destruct (decide (cellAt b 0 6 = Some None)); [by apply (Hfound 6)|].
  exfalso. apply not_true_iff_false in Hfull. apply Hfull.
  apply isBoardFull_top; [done|]. intros c Hc.
  assert (c = 0 ∨ c = 1 ∨ c = 2 ∨ c = 3 ∨ c = 4 ∨ c = 5 ∨ c = 6)
    as [->|[->|[->|[->|[->|[->| ->]]]]]] by lia; done.
Qed.

Lemma sum_list_cons (x : nat) (l : list nat) :
  sum_list (x :: l) = (x + sum_list l)%nat.
Proof. reflexivity. Qed.

Lemma occupiedCells_colors (b : Board) :
  occupiedCells b = (countColor Red b + countColor Yellow b)%nat.
Proof.
  unfold occupiedCells, countColor. induction b as [|rowData b IH]; [done|].
  cbn [map]. rewrite !sum_list_cons, IH.
  assert (Hrow : length (filter (λ cell : Cell, cell ≠ None) rowData)
                 = (length (filter (λ cell : Cell, cell = Some Red) rowData)
                    + length (filter (λ cell : Cell, cell = Some Yellow) rowData))%nat).
  { clear. induction rowData as [|[[]|] rowData IH]; [done|..];
      rewrite !filter_cons; repeat case_decide; try done; simpl; lia. }
  lia.
Qed.

(** Every session of every state the server reaches has a board of play,
    a result that agrees with the board, and as many tokens of each colour
    as its turn tells. *)
Lemma sessions_sound (es : list Event) (gid : string) (g : GameData) :
  JsMap.get gid (activeGames (run es initialServer).1) = Some g →
  wellShaped (board g) ∧ settled (board g) ∧ resultOnBoard g ∧ balanced g.
Proof.
  apply (sessions_invariant
           (λ g, wellShaped (board g) ∧ settled (board g)
                 ∧ resultOnBoard g ∧ balanced g)).
  - intros gid' ps. split_and!; [apply wellShaped_empty | apply settled_empty | done | done].
  - by intros g0 ps.
  - intros sock gid' col s g0 g' Hg0 Hg' Hne (Hshape & Hsettled & Hres & Hbal).
    destruct (makeMove_applied sock gid' col s g0 g' Hg0 Hg' Hne)
      as (Hwin & Hturn & Hcol & Hcell & Hg'eq).
    set (row := findRow (board g0) col) in *.
    set (b' := setCell (board g0) row col (currentTurn g0)) in *.
    assert (Hshape' : wellShaped b') by by apply wellShaped_setCell.
    assert (Hsettled' : settled b').
    { eapply (settled_dropToken (board g0) col row (currentTurn g0)); [done..|].
      unfold dropToken. fold row. rewrite decide_False; [done|].
      intros Hrow. apply (proj1 (findRow_none (board g0) col) Hrow row).
      - pose proof (cellAt_inside _ _ _ _ Hshape Hcell). lia.
      - done. }
    assert (Hnew : cellAt b' row col = Some (Some (currentTurn g0)))
      by by eapply cellAt_setCell_eq.
    assert (Hcells0 : winningCells g0 = None).
    { unfold resultOnBoard in Hres. rewrite Hwin in Hres. apply Hres. }
    assert (Hcount : ∀ c, countColor c b'
                          = (countColor c (board g0)
                             + (if decide (currentTurn g0 = c) then 1 else 0))%nat)
      by (intros c; by apply countColor_setCell).
    unfold balanced in Hbal. rewrite Hwin in Hbal.
    destruct (wr_winner (checkWinner b' row col)) as [w|] eqn:Hw.
    + destruct (checkWinner_cells b' row col w Hw)
        as (Hcellw & rest & Hcs & Hlen & Hnd & Hall & _).
      assert (w = currentTurn g0) as -> by congruence.
      subst g'. split_and!; [done | done | |].
      * unfold resultOnBoard. cbn [winner currentTurn winningCells board].
        split; [done|]. exists ((row, col) :: rest).
        split_and!; [done | simpl; lia | done | done].
      * unfold balanced. cbn [winner currentTurn board]. rewrite !Hcount.
        destruct (currentTurn g0); simpl; lia.
    + destruct (isBoardFull b') eqn:Hfull; subst g'; (split_and!; [done | done | |]).
      * unfold resultOnBoard. cbn [winner winningCells board].
        split; [by apply isBoardFull_occupied | done].
      * unfold balanced. cbn [winner currentTurn board]. rewrite !Hcount.
        destruct (currentTurn g0); simpl; lia.
      * unfold resultOnBoard. cbn [winner winningCells board]. done.
      * unfold balanced. cbn [winner currentTurn board]. rewrite !Hcount.
        destruct (currentTurn g0); simpl; lia.
Qed.

Lemma makeMove_accepts (sock gid : string) (col : Z) (s : Server) (g : GameData) :
  JsMap.get gid (activeGames s) = Some g →
  winner g = None → colorOf g sock = currentTurn g →
  0 ≤ col < 7 → findRow (board g) col ≠ -1 →
  ∃ g', JsMap.get gid (activeGames (makeMove sock gid col s).1) = Some g'
        ∧ board g' = setCell (board g) (findRow (board g) col) col (currentTurn g)
        ∧ g' ≠ g.
Proof.
  intros Hg Hwin Hturn Hcol Hrow.
  destruct (makeMove_cases sock gid col s g Hg)
    as [(msg & Hrej & _)|(_ & _ & _ & _ & g' & Hg' & Hb & Hchg & _)].
  - exfalso. revert Hrej. unfold makeMove. rewrite Hg. cbv zeta.
    rewrite decide_False by (intros Hne; by apply Hne).
    rewrite Hwin, bool_decide_eq_false_2 by (by intros ?).
    rewrite decide_False by lia. rewrite decide_False by done.
    destruct (wr_winner _); [|destruct (isBoardFull _)]; simpl; intros [= _ ?].
  - exists g'. split_and!; [done | done | congruence].
Qed.

(** X1. In every state the server reaches, a session whose [winner] is a
    colour has [currentTurn] still on that colour, and its [winningCells]
    are at least four pairwise distinct cells that all hold the winner's
    colour on the session's board. *)
Theorem X1_recorded_win_is_on_the_board
    (es : list Event) (gid : string) (g : GameData) (c : Color) :
  JsMap.get gid (activeGames (run es initialServer).1) = Some g →
  winner g = Some (Won c) →
  currentTurn g = c
  ∧ ∃ cells, winningCells g = Some cells
             ∧ (4 ≤ length cells)%nat
             ∧ NoDup cells
             ∧ ∀ rc, rc ∈ cells → cellAt (board g) rc.1 rc.2 = Some (Some c).
Proof.
  intros Hg Hwin. destruct (sessions_sound es gid g Hg) as (_ & _ & Hres & _).
  unfold resultOnBoard in Hres. by rewrite Hwin in Hres.
Qed.

Lemma X1_red_win_in_column_0 :
  JsMap.get "g1" (activeGames (run eventsToRedWin initialServer).1) = Some gameWonByRed
  ∧ winner gameWonByRed = Some (Won Red)
  ∧ currentTurn gameWonByRed = Red.
Proof.
  assert (H1 : JsMap.get "g1" (activeGames (run eventsToRedWin initialServer).1)
               = Some gameWonByRed) by (vm_compute; reflexivity).
  assert (H2 : winner gameWonByRed = Some (Won Red)) by reflexivity.
  split_and!; [exact H1 | exact H2 |].
  exact (proj1 (X1_recorded_win_is_on_the_board eventsToRedWin "g1" gameWonByRed Red H1 H2)).
Defined.

(** X2. In every state the server reaches: a session marked as a draw
    has all 42 cells occupied and no winning cells; a session with no
    winner has a board that is not full, so there is a column in which
    the player to move can still drop, and that move is applied and adds
    one token. *)
Theorem X2_draw_only_on_full_board_and_open_game_has_a_move
    (es : list Event) (gid : string) (g : GameData) :
  JsMap.get gid (activeGames (run es initialServer).1) = Some g →
  (winner g = Some Draw →
   occupiedCells (board g) = 42%nat ∧ winningCells g = None)
  ∧ (winner g = None →
     isBoardFull (board g) = false
     ∧ (occupiedCells (board g) < 42)%nat
     ∧ ∃ col, 0 ≤ col < 7
              ∧ ∀ sock, colorOf g sock = currentTurn g →
                  ∃ g', JsMap.get gid
                          (activeGames (makeMove sock gid col (run es initialServer).1).1)
                        = Some g'
                        ∧ occupiedCells (board g') = S (occupiedCells (board g))).
Proof.
  intros Hg. destruct (sessions_sound es gid g Hg) as (Hshape & Hsettled & Hres & _).
  unfold resultOnBoard in Hres. split; intros Hwin; rewrite Hwin in Hres; [done|].
  destruct Hres as [Hfull _]. split; [done|]. split.
  - destruct (decide (occupiedCells (board g) = 42%nat)) as [H42|Hne].
    + apply isBoardFull_occupied in H42; [congruence | done..].
    + assert (occupiedCells (board g) ≤ 42)%nat; [|lia].
      rewrite occupiedCells_colors. destruct Hshape as [Hlen Hrows].
      clear -Hlen Hrows. unfold countColor.
      destruct (board g) as [|r0 [|r1 [|r2 [|r3 [|r4 [|r5 [|? ?]]]]]]]; try done.
      rewrite !Forall_cons in Hrows.
      destruct Hrows as (H0 & H1 & H2 & H3 & H4 & H5 & _).
      pose proof (occupiedCells_colors [r0; r1; r2; r3; r4; r5]) as Hsum.
      unfold occupiedCells, countColor in Hsum. rewrite <- Hsum. simpl.
      pose proof (occupied_row_le r0). pose proof (occupied_row_le r1).
      pose proof (occupied_row_le r2). pose proof (occupied_row_le r3).
      pose proof (occupied_row_le r4). pose proof (occupied_row_le r5). lia.
  - destruct (isBoardFull_false_column _ Hshape Hfull) as (col & Hcol & _ & Hrow).
    exists col. split; [done|]. intros sock Hturn.
    destruct (makeMove_accepts sock gid col _ g Hg Hwin Hturn Hcol Hrow)
      as (g' & Hg' & Hb & _).
    exists g'. split; [done|]. rewrite Hb. apply occupiedCells_setCell.
    by apply findRow_cell.
Qed.

Lemma X2_game_under_way_is_open :
  JsMap.get "g1" (activeGames (run eventsToGameUnderWay initialServer).1)
  = Some gameAfterFirstMove
  ∧ winner gameAfterFirstMove = None
  ∧ isBoardFull (board gameAfterFirstMove) = false.
Proof.
  assert (H1 : JsMap.get "g1" (activeGames (run eventsToGameUnderWay initialServer).1)
               = Some gameAfterFirstMove) by (vm_compute; reflexivity).
  assert (H2 : winner gameAfterFirstMove = None) by reflexivity.
  split_and!; [exact H1 | exact H2 |].
  exact (proj1 (proj2 (X2_draw_only_on_full_board_and_open_game_has_a_move
                         eventsToGameUnderWay "g1" gameAfterFirstMove H1) H2)).
Defined.

(** X3. In every state the server reaches, the tokens on a session's
    board match its turn: red has as many tokens as yellow or one more,
    the occupied cells are the red and the yellow tokens, and while the
    game is open it is red's turn exactly when the two counts are equal. *)
Theorem X3_tokens_match_the_turn
    (es : list Event) (gid : string) (g : GameData) :
  JsMap.get gid (activeGames (run es initialServer).1) = Some g →
  (countColor Yellow (board g) ≤ countColor Red (board g)
   ≤ S (countColor Yellow (board g)))%nat
  ∧ occupiedCells (board g)
    = (countColor Red (board g) + countColor Yellow (board g))%nat
  ∧ (winner g = None →
     (currentTurn g = Red ↔ countColor Red (board g) = countColor Yellow (board g)))
  ∧ balanced g.
Proof.
  intros Hg. destruct (sessions_sound es gid g Hg) as (_ & _ & _ & Hbal).
  assert (Hbal' := Hbal). unfold balanced in Hbal'.
  split; [|split; [apply occupiedCells_colors | split; [|exact Hbal]]].
  - destruct (winner g), (currentTurn g); lia.
  - intros Hwin. rewrite Hwin in Hbal'.
    destruct (currentTurn g); split; (done || lia).
Qed.

Lemma X3_one_red_token_and_yellow_to_move :
  JsMap.get "g1" (activeGames (run eventsToGameUnderWay initialServer).1)
  = Some gameAfterFirstMove
  ∧ balanced gameAfterFirstMove.
Proof.
  assert (H1 : JsMap.get "g1" (activeGames (run eventsToGameUnderWay initialServer).1)
               = Some gameAfterFirstMove) by (vm_compute; reflexivity).
  split; [exact H1|].
  exact (proj2 (proj2 (proj2 (X3_tokens_match_the_turn
                                eventsToGameUnderWay "g1" gameAfterFirstMove H1)))).
Defined.

(** X4. A [makeMove] on an existing session never removes or recolours
    a token and never touches another session: the session is still
    there with the same players, every token of its board is where it
    was, and the board either is unchanged or has exactly one token
    more. *)
Theorem X4_makeMove_only_adds_one_token
    (sock gid : string) (col : Z) (s : Server) (g : GameData) :
  JsMap.get gid (activeGames s) = Some g →
  (∃ g', JsMap.get gid (activeGames (makeMove sock gid col s).1) = Some g'
         ∧ players g' = players g
         ∧ (∀ r c p, cellAt (board g) r c = Some (Some p) →
                     cellAt (board g') r c = Some (Some p))
         ∧ (board g' = board g
            ∨ occupiedCells (board g') = S (occupiedCells (board g))))
  ∧ ∀ k, k ≠ gid →
         JsMap.get k (activeGames (makeMove sock gid col s).1)
         = JsMap.get k (activeGames s).
Proof.
  intros Hg. split; [|intros k Hk; by apply makeMove_other_session].
  destruct (makeMove_cases sock gid col s g Hg)
    as [(msg & -> & _)|(_ & _ & _ & Hrow & g' & Hg' & Hb & _ & Hps & _)].
  - exists g. split_and!; [done | done | auto | by left].
  - destruct (findRow_cell _ _ Hrow) as [_ Hcell].
    exists g'. split_and!; [done | done | | right].
    + intros r c p Hp. rewrite Hb, cellAt_setCell_ne; [done|].
      intros [= -> ->]. congruence.
    + rewrite Hb. by apply occupiedCells_setCell.
Qed.

Lemma X4_move_in_game_under_way :
  JsMap.get "g1" (activeGames gameUnderWay) = Some gameAfterFirstMove
  ∧ ∃ g', JsMap.get "g1" (activeGames (makeMove "B" "g1" 0 gameUnderWay).1) = Some g'
          ∧ cellAt (board g') 5 0 = Some (Some Red).
Proof.
  assert (H1 : JsMap.get "g1" (activeGames gameUnderWay) = Some gameAfterFirstMove)
    by reflexivity.
  split; [exact H1|].
  destruct (proj1 (X4_makeMove_only_adds_one_token "B" "g1" 0 gameUnderWay
                     gameAfterFirstMove H1)) as (g' & Hg' & _ & Hkeep & _).
  exists g'. split; [exact Hg'|]. apply Hkeep. reflexivity.
Defined.

Lemma makeMove_timers (sock gid : string) (col : Z) (s s1 : Server) (g g' : GameData) :
  JsMap.get gid (activeGames s) = Some g →
  s1 = (makeMove sock gid col s).1 →
  JsMap.get gid (activeGames s1) = Some g' →
  (winner g' = winner g → timers s1 = timers s ∧ nextTimer s1 = nextTimer s)
  ∧ (winner g' ≠ winner g →
     s1 = setTimeout (GameCleanup gid) 30000
            (with_activeGames (JsMap.set gid g' (activeGames s)) s)).
Proof.
  intros Hg Hs1. revert Hs1. unfold makeMove. rewrite Hg. cbv zeta.
  repeat case_match; cbn [fst]; intros ->;
    cbn [activeGames with_activeGames setTimeout timers nextTimer];
    rewrite ?get_set_eq, ?Hg; intros [= <-]; cbn [winner];
    (split; [intros Hsame | intros Hdiff]); try done; try congruence.
  all: match goal with H : bool_decide _ = false |- _ =>
         apply bool_decide_eq_false in H; destruct H; congruence end.
Qed.

(** X5. The clean-up timer of a session is armed by the move that ends
    the game and by no other move: a move that leaves the game open (or
    is turned down) leaves the timers as they were; a move that sets
    [winner] arms one timer of 30000 ms, and when that timer fires the
    session is deleted, nothing else in the registries changes, and from
    then on a move on that id returns without any effect. *)
Theorem X5_cleanup_timer_of_a_finished_game
    (sock gid : string) (col : Z) (s : Server) (g g' : GameData) :
  JsMap.get gid (activeGames s) = Some g →
  JsMap.get gid (activeGames (makeMove sock gid col s).1) = Some g' →
  let s1 := (makeMove sock gid col s).1 in
  (winner g' = winner g → timers s1 = timers s ∧ nextTimer s1 = nextTimer s)
  ∧ (winner g' ≠ winner g →
     timers s1 = <[nextTimer s := mkTimer 30000 (GameCleanup gid)]> (timers s)
     ∧ let s2 := (fireTimer (nextTimer s) s1).1 in
       JsMap.get gid (activeGames s2) = None
       ∧ (∀ k, k ≠ gid → JsMap.get k (activeGames s2) = JsMap.get k (activeGames s))
       ∧ activeChallenges s2 = activeChallenges s
       ∧ onlineUsers s2 = onlineUsers s
       ∧ (fireTimer (nextTimer s) s1).2 = [Log ("Game " +:+ gid +:+ " cleaned up")]
       ∧ ∀ sock' col', makeMove sock' gid col' s2 = (s2, [])).
Proof.
  intros Hg Hg' s1.
  destruct (makeMove_timers sock gid col s s1 g g' Hg eq_refl Hg') as [Hsame Hdiff].
  split; [done|]. intros Hne. rewrite (Hdiff Hne). clear.
  unfold fireTimer. cbn [timers setTimeout with_activeGames nextTimer].
  rewrite lookup_insert_eq. simpl.
  split_and!; [done | apply get_delete_eq | | done | done | done |].
  - intros k Hk. by rewrite get_delete_ne, get_set_ne by done.
  - intros sock' col'. unfold makeMove. simpl. by rewrite get_delete_eq.
Qed.

Lemma X5_red_win_arms_the_cleanup :
  JsMap.get "g1" (activeGames beforeRedWin) = Some gameBeforeRedWin
  ∧ JsMap.get "g1" (activeGames (makeMove "A" "g1" 0 beforeRedWin).1)
    = Some gameWonByRed
  ∧ winner gameWonByRed ≠ winner gameBeforeRedWin
  ∧ timers (makeMove "A" "g1" 0 beforeRedWin).1
    = <[nextTimer beforeRedWin := mkTimer 30000 (GameCleanup "g1")]>
        (timers beforeRedWin).
Proof.
  assert (H1 : JsMap.get "g1" (activeGames beforeRedWin) = Some gameBeforeRedWin)
    by (vm_compute; reflexivity).
  assert (H2 : JsMap.get "g1" (activeGames (makeMove "A" "g1" 0 beforeRedWin).1)
               = Some gameWonByRed) by (vm_compute; reflexivity).
  assert (H3 : winner gameWonByRed ≠ winner gameBeforeRedWin) by discriminate.
  split_and!; [exact H1 | exact H2 | exact H3 |].
  exact (proj1 (proj2 (X5_cleanup_timer_of_a_finished_game
                         "A" "g1" 0 beforeRedWin gameBeforeRedWin gameWonByRed H1 H2)
                 H3)).
Defined.

(** ** [joinGame] *)

Lemma joinGame_games (sock gid uid uname : string) (s : Server) :
  activeGames (joinGame sock gid uid uname s).1
  = match JsMap.get gid (activeGames s) with
    | Some g =>
        if decide (userId (red (players g)) = uid) then
          JsMap.set gid
            (rebound g (mkPlayers (mkPlayer sock (userId (red (players g)))
                                            (username (red (players g))))
                                  (yellow (players g))))
            (activeGames s)
        else if decide (userId (yellow (players g)) = uid) then
          JsMap.set gid
            (rebound g (mkPlayers (red (players g))
                                  (mkPlayer sock (userId (yellow (players g)))
                                            (username (yellow (players g))))))
            (activeGames s)
        else activeGames s
    | None => activeGames s
    end.
Proof.
  unfold joinGame. cbn [socketJoin activeGames].
  destruct (JsMap.get gid (activeGames s)); [|done]. by repeat case_decide.
Qed.

(** X6. Whatever its payload, [joinGame] creates no session, deletes
    none, and changes nothing of a session but the socket id of a seat:
    boards, turns, results and the players' user ids and names are as
    before, and so are the presence registry, the challenges and the
    timers.  The socket is put in the room of the game id in every case,
    also when there is no such game or the user has no seat in it. *)
Theorem X6_joinGame_changes_socket_ids_only
    (sock gid uid uname : string) (s : Server) :
  let s' := (joinGame sock gid uid uname s).1 in
  (∀ k, match JsMap.get k (activeGames s), JsMap.get k (activeGames s') with
        | Some g, Some g' =>
            g' = rebound g (players g')
            ∧ userId (red (players g')) = userId (red (players g))
            ∧ username (red (players g')) = username (red (players g))
            ∧ userId (yellow (players g')) = userId (yellow (players g))
            ∧ username (yellow (players g')) = username (yellow (players g))
            ∧ (k ≠ gid → g' = g)
        | None, None => True
        | _, _ => False
        end)
  ∧ onlineUsers s' = onlineUsers s
  ∧ activeChallenges s' = activeChallenges s
  ∧ timers s' = timers s
  ∧ (∃ joined, rooms s' !! sock = Some joined ∧ gid ∈ joined).
Proof.
  intros s'. split_and!.
  - intros k. subst s'. rewrite joinGame_games.
    assert (Hsame : ∀ g, g = rebound g (players g)) by by intros [].
    destruct (JsMap.get gid (activeGames s)) as [g|] eqn:Hg.
    + repeat case_decide; rewrite ?get_set;
        try (destruct (JsMap.get k (activeGames s)); by auto);
        (case_decide; [subst k; rewrite Hg; by split_and!
                      | destruct (JsMap.get k (activeGames s)); by auto]).
    + destruct (JsMap.get k (activeGames s)); by auto.
  - subst s'. unfold joinGame. by repeat case_match.
  - subst s'. unfold joinGame. by repeat case_match.
  - subst s'. unfold joinGame. by repeat case_match.
  - exists ({[gid]} ∪ default ∅ (rooms s !! sock)). split; [|set_solver].
    subst s'. unfold joinGame. repeat case_match; simpl; apply lookup_insert_eq.
Qed.

(** X7. A player keeps the seat across connections: after the
    disconnect of any connection, a [joinGame] from a connection [sock]
    that gives red's user id takes red's seat, and [sock] then plays red;
    one that gives yellow's user id (and not red's) takes yellow's seat,
    and [sock] then plays yellow unless it also holds red's seat.  Board,
    turn and result are those from before the disconnect. *)
Theorem X7_rejoining_player_takes_the_seat_back
    (uuid now old sock gid uid uname : string) (s : Server) (g : GameData) :
  JsMap.get gid (activeGames s) = Some g →
  let s1 := (disconnect uuid now old s).1 in
  let s2 := (joinGame sock gid uid uname s1).1 in
  (uid = userId (red (players g)) →
   ∃ g2, JsMap.get gid (activeGames s2) = Some g2
         ∧ g2 = rebound g (mkPlayers (mkPlayer sock (userId (red (players g)))
                                               (username (red (players g))))
                                     (yellow (players g)))
         ∧ colorOf g2 sock = Red)
  ∧ (uid ≠ userId (red (players g)) → uid = userId (yellow (players g)) →
     ∃ g2, JsMap.get gid (activeGames s2) = Some g2
           ∧ g2 = rebound g (mkPlayers (red (players g))
                                       (mkPlayer sock (userId (yellow (players g)))
                                                 (username (yellow (players g)))))
           ∧ (colorOf g2 sock = Yellow ↔ socketId (red (players g)) ≠ sock)).
Proof.
  intros Hg s1 s2.
  assert (Hg1 : JsMap.get gid (activeGames s1) = Some g).
  { subst s1. unfold disconnect. case_match; [|done].
    cbn [fst activeGames with_activeChallenges]. by rewrite clearTimeouts_activeGames. }
  subst s2. rewrite joinGame_games, Hg1. split.
  - intros ->. rewrite decide_True by done. rewrite get_set_eq.
    eexists. split_and!; [done | done |]. unfold colorOf. simpl.
    by rewrite decide_True.
  - intros Hred ->. rewrite decide_False by done. rewrite decide_True by done.
    rewrite get_set_eq. eexists. split_and!; [done | done |].
    unfold colorOf. simpl. case_decide; split; done.
Qed.

Lemma X7_alice_comes_back_on_another_connection :
  JsMap.get "g1" (activeGames gameUnderWay) = Some gameAfterFirstMove
  ∧ "ua" = userId (red (players gameAfterFirstMove))
  ∧ ∃ g2, JsMap.get "g1"
            (activeGames (joinGame "A2" "g1" "ua" "alice"
                            (disconnect "m9" "t9" "A" gameUnderWay).1).1) = Some g2
          ∧ colorOf g2 "A2" = Red.
Proof.
  assert (H1 : JsMap.get "g1" (activeGames gameUnderWay) = Some gameAfterFirstMove)
    by reflexivity.
  assert (H2 : "ua" = userId (red (players gameAfterFirstMove))) by reflexivity.
  split_and!; [exact H1 | exact H2 |].
  destruct (proj1 (X7_rejoining_player_takes_the_seat_back
                     "m9" "t9" "A" "A2" "g1" "ua" "alice" gameUnderWay
                     gameAfterFirstMove H1) H2) as (g2 & Hg2 & _ & Hc).
  exists g2. split; [exact Hg2 | exact Hc].
Defined.

(** ** Challenges that end without a game *)

Lemma delete_set_fresh {V} (m : list (string * V)) (k : string) (v : V) :
  JsMap.get k m = None → JsMap.delete k (JsMap.set k v m) = m.
Proof.
  intros Hm. rewrite set_fresh by done. unfold JsMap.delete.
  rewrite filter_app. fold (JsMap.delete k m). rewrite get_None_delete by done.
  rewrite filter_cons, decide_False by (simpl; by intros ?). simpl.
  by rewrite app_nil_r.
Qed.

(** X8. A challenge that is declined or that expires leaves no trace.
    On a state the server reaches (with [randomUUID] drawing unused ids),
    a [sendChallenge] between two present connections followed by a
    [declineChallenge] of that id from any connection, or by the expiry of
    its timer, gives back the registries and the pending timers of before;
    only the handle counter has moved.  The decline is reported to the
    room the payload names as [from], the expiry to the sender and the
    target. *)
Theorem X8_declined_or_expired_challenge_leaves_no_trace
    (es : list Event) (uuid sock to toUsername : string)
    (challenger opponent : OnlineUser) :
  freshRun es initialServer →
  let s := (run es initialServer).1 in
  JsMap.get uuid (activeChallenges s) = None →
  JsMap.get sock (onlineUsers s) = Some challenger →
  JsMap.get to (onlineUsers s) = Some opponent →
  let s1 := (sendChallenge uuid sock to toUsername s).1 in
  let back := mkServer (onlineUsers s) (activeChallenges s) (activeGames s)
                       (timers s) (S (nextTimer s)) (socketData s) (rooms s) in
  (∀ sock' from,
     (declineChallenge sock' uuid from s1).1 = back
     ∧ ∃ shown line,
         (declineChallenge sock' uuid from s1).2
         = [ Emit (ToRoom from) (ChallengeDeclined shown); Log line ])
  ∧ fireTimer (nextTimer s) s1
    = (back, [ Emit (ToSocket sock) ChallengeTimeout;
               Emit (ToRoom to) ChallengeTimeout;
               Log ("Challenge " +:+ uuid +:+ " timed out") ]).
Proof.
  intros Hfresh s Hnone Hc Ho s1 back.
  assert (Hinv : challengesInv s)
    by (apply challengesInv_run; [apply challengesInv_initial | done]).
  destruct Hinv as (_ & _ & _ & Hnext).
  assert (Hh : timers s !! nextTimer s = None) by (apply Hnext; lia).
  subst s1 back. unfold sendChallenge. rewrite Hc, Ho. cbv zeta. cbn [fst].
  split.
  - intros sock' from. unfold declineChallenge.
    cbn [activeChallenges with_activeChallenges setTimeout].
    rewrite get_set_eq. cbv zeta.
    cbn [ch_timeout clearTimeout with_activeChallenges activeChallenges onlineUsers
         activeGames timers nextTimer socketData rooms fst snd].
    rewrite delete_set_fresh by done.
    unfold with_activeChallenges, clearTimeout, setTimeout.
    cbn [activeChallenges onlineUsers activeGames timers nextTimer socketData rooms].
    rewrite delete_insert_id by done. split; [done|]. eauto.
  - unfold fireTimer. cbn [timers with_activeChallenges setTimeout].
    rewrite lookup_insert_eq. cbv zeta.
    cbn [callback clearTimeout with_activeChallenges activeChallenges onlineUsers
         activeGames timers nextTimer socketData rooms].
    rewrite delete_set_fresh by done.
    unfold with_activeChallenges, clearTimeout, setTimeout.
    cbn [activeChallenges onlineUsers activeGames timers nextTimer socketData rooms].
    by rewrite delete_insert_id by done.
Qed.

Lemma X8_alice_challenges_bob_and_bob_declines :
  freshRun (take 3 eventsToGameUnderWay) initialServer
  ∧ (declineChallenge "B" "c1" "A"
       (sendChallenge "c1" "A" "B" "bob"
          (run (take 3 eventsToGameUnderWay) initialServer).1).1).1
    = mkServer (onlineUsers lobbyOfThree) (activeChallenges lobbyOfThree)
               (activeGames lobbyOfThree) (timers lobbyOfThree)
               (S (nextTimer lobbyOfThree)) (socketData lobbyOfThree)
               (rooms lobbyOfThree).
Proof.
  assert (H0 : freshRun (take 3 eventsToGameUnderWay) initialServer)
    by (simpl; tauto).
  split; [exact H0|].
  exact (proj1 (proj1 (X8_declined_or_expired_challenge_leaves_no_trace
                  (take 3 eventsToGameUnderWay) "c1" "A" "B" "bob"
                  (mkOnlineUser "A" "ua" "alice") (mkOnlineUser "B" "ub" "bob")
                  H0 eq_refl eq_refl eq_refl) "B" "A")).
Defined.

(** ** From a challenge to the first move *)

(** X9. The sender of the challenge moves first.  Accepting a pending
    challenge creates the session under the drawn id with an empty board,
    red to move, the challenge's sender as red and its target as yellow.
    On that session a first move from any connection other than the
    sender's is turned down with "It's not your turn!" and changes
    nothing; a first move of the sender in a column of the board puts a
    red token at the bottom of that column and hands the turn to yellow. *)
Theorem X9_sender_of_the_challenge_moves_first
    (uuid sock cid from : string) (col : Z) (s : Server) (ch : Challenge) :
  JsMap.get cid (activeChallenges s) = Some ch →
  0 ≤ col < 7 →
  let s1 := (acceptChallenge uuid sock cid from s).1 in
  let ps := mkPlayers (mkPlayer (ch_from ch) (ch_fromUserId ch) (ch_fromUsername ch))
                      (mkPlayer (ch_to ch) (ch_toUserId ch) (ch_toUsername ch)) in
  JsMap.get uuid (activeGames s1)
  = Some (mkGameData uuid createEmptyBoard Red ps None None)
  ∧ (∀ other, other ≠ ch_from ch →
       makeMove other uuid col s1
       = (s1, [ Emit (ToSocket other) (InvalidMove "It's not your turn!") ]))
  ∧ JsMap.get uuid (activeGames (makeMove (ch_from ch) uuid col s1).1)
    = Some (mkGameData uuid (setCell createEmptyBoard 5 col Red) Yellow ps None None).
Proof.
  intros Hch Hcol s1 ps.
  assert (Hg : JsMap.get uuid (activeGames s1)
               = Some (mkGameData uuid createEmptyBoard Red ps None None)).
  { subst s1. unfold acceptChallenge. rewrite Hch. cbv zeta. cbn [fst].
    cbn [activeGames with_activeGames]. apply get_set_eq. }
  split; [exact Hg|]. split.
  - intros other Hother. unfold makeMove. rewrite Hg. cbv zeta.
    unfold colorOf. cbn [players red socketId currentTurn].
    rewrite (decide_False (P := ch_from ch = other)) by done.
    by rewrite decide_True.
  - assert (Hrow : findRow createEmptyBoard col = 5).
    { assert (Hc : col = 0 ∨ col = 1 ∨ col = 2 ∨ col = 3 ∨ col = 4 ∨ col = 5 ∨ col = 6)
        by lia.
      destruct Hc as [->|[->|[->|[->|[->|[->| ->]]]]]]; reflexivity. }
    assert (Hred : colorOf (mkGameData uuid createEmptyBoard Red ps None None)
                           (ch_from ch) = Red).
    { unfold colorOf. cbn [players red socketId ps]. by rewrite decide_True. }
    destruct (makeMove_accepts (ch_from ch) uuid col s1 _ Hg eq_refl Hred Hcol)
      as (g' & Hg' & _ & Hne).
    { cbn [board]. rewrite Hrow. done. }
    rewrite Hg'. f_equal.
    destruct (makeMove_applied (ch_from ch) uuid col s1 _ g' Hg Hg' Hne)
      as (_ & _ & _ & _ & ->).
    cbn [board currentTurn g_id players winningCells]. rewrite Hrow.
    assert (Hc : col = 0 ∨ col = 1 ∨ col = 2 ∨ col = 3 ∨ col = 4 ∨ col = 5 ∨ col = 6)
      by lia.
    destruct Hc as [->|[->|[->|[->|[->|[->| ->]]]]]]; reflexivity.
Qed.

Lemma X9_alice_moves_first_against_bob :
  JsMap.get "c1" (activeChallenges challengePending) = Some aliceChallengesBob
  ∧ makeMove "B" "g1" 3 (acceptChallenge "g1" "B" "c1" "A" challengePending).1
    = ((acceptChallenge "g1" "B" "c1" "A" challengePending).1,
       [ Emit (ToSocket "B") (InvalidMove "It's not your turn!") ]).
Proof.
  assert (H1 : JsMap.get "c1" (activeChallenges challengePending)
               = Some aliceChallengesBob) by reflexivity.
  assert (H2 : 0 ≤ 3 < 7) by lia.
  assert (H3 : "B" ≠ ch_from aliceChallengesBob) by discriminate.
  split; [exact H1|].
  exact (proj1 (proj2 (X9_sender_of_the_challenge_moves_first
                         "g1" "B" "c1" "A" 3 challengePending aliceChallengesBob
                         H1 H2)) "B" H3).
Defined.

(** ** Disconnects *)

Lemma disconnect_registered (uuid now sock : string) (s : Server) (user : OnlineUser) :
  JsMap.get sock (onlineUsers s) = Some user →
  let s' := (disconnect uuid now sock s).1 in
  onlineUsers s' = JsMap.delete sock (onlineUsers s)
  ∧ activeChallenges s' = filter (λ e, ¬ involves sock e) (activeChallenges s)
  ∧ activeGames s' = activeGames s.
Proof.
  intros Hu. unfold disconnect. rewrite Hu. cbv zeta. cbn [fst].
  cbn [onlineUsers activeChallenges activeGames with_activeChallenges].
  rewrite clearTimeouts_onlineUsers, clearTimeouts_activeChallenges,
    clearTimeouts_activeGames.
  done.
Qed.

(** X10. The disconnect of a connection that is in the presence
    registry, on a state the server reaches (with [randomUUID] drawing
    unused ids): the connection leaves the registry; the pending
    challenges afterwards are those of before that it neither sent nor
    received; no expiry timer is left that names it as sender or target;
    the other party of each cancelled challenge gets one
    [challengeTimeout], in the order of the registry, followed by the
    presence broadcast; no session is touched (a disconnect is not a
    forfeit); and a second disconnect of the connection does nothing. *)
Theorem X10_disconnect_cancels_the_challenges_of_the_connection
    (es : list Event) (uuid now sock : string) (user : OnlineUser) :
  freshRun es initialServer →
  let s := (run es initialServer).1 in
  JsMap.get sock (onlineUsers s) = Some user →
  let s' := (disconnect uuid now sock s).1 in
  JsMap.get sock (onlineUsers s') = None
  ∧ (∀ cid ch, JsMap.get cid (activeChallenges s') = Some ch
               ↔ JsMap.get cid (activeChallenges s) = Some ch
                 ∧ ch_from ch ≠ sock ∧ ch_to ch ≠ sock)
  ∧ (∀ h d a b cid, timers s' !! h = Some (mkTimer d (ChallengeExpiry a b cid)) →
                    a ≠ sock ∧ b ≠ sock)
  ∧ activeGames s' = activeGames s
  ∧ (∃ leaveMsg,
       (disconnect uuid now sock s).2
       = map (λ e : string * Challenge,
                Emit (ToRoom (if decide (ch_from e.2 = sock)
                              then ch_to e.2 else ch_from e.2)) ChallengeTimeout)
             (filter (involves sock) (activeChallenges s))
         ++ [ Emit (ToRoom "main") (OnlineUsers (JsMap.values (onlineUsers s')));
              AwaitInsert leaveMsg (AfterLeaveInsert leaveMsg (ou_username user)) ])
  ∧ ∀ uuid' now', disconnect uuid' now' sock s' = (s', []).
Proof.
  intros Hfresh s Hu s'.
  assert (Hinv : challengesInv s)
    by (apply challengesInv_run; [apply challengesInv_initial | done]).
  assert (Hinv' : challengesInv s') by by apply challengesInv_disconnect.
  destruct (disconnect_registered uuid now sock s user Hu) as (Hou & Hch & Hgames).
  fold s' in Hou, Hch, Hgames.
  assert (Hgone : JsMap.get sock (onlineUsers s') = None)
    by (rewrite Hou; apply get_delete_eq).
  assert (Hleft : ∀ cid ch, JsMap.get cid (activeChallenges s') = Some ch
                            ↔ JsMap.get cid (activeChallenges s) = Some ch
                              ∧ ch_from ch ≠ sock ∧ ch_to ch ≠ sock).
  { intros cid ch. rewrite Hch, get_filter by apply Hinv.
    destruct (JsMap.get cid (activeChallenges s)) as [ch0|];
      [|split; [done | by intros [? _]]].
    unfold involves. cbn [snd]. case_decide as Hk.
    - split; [intros [= ->]; split; [done | tauto] | by intros [[= ->] _]].
    - split; [done|]. intros ([= ->] & ? & ?). by destruct Hk. }
  split_and!; [done | done | | done | | ].
  - intros h d a b cid Hh.
    destruct Hinv' as (_ & Harmed & Howned & _).
    destruct (Howned _ _ _ _ _ Hh) as (ch & Hpending & Hhandle).
    pose proof (Harmed _ _ Hpending) as Ht. rewrite Hhandle, Hh in Ht.
    injection Ht as _ -> ->. by apply Hleft in Hpending as (_ & ? & ?).
  - subst s'. unfold disconnect. rewrite Hu. cbv zeta. cbn [fst snd].
    eexists. reflexivity.
  - intros uuid' now'. unfold disconnect at 1. by rewrite Hgone.
Qed.

Lemma X10_alice_disconnects_with_a_challenge_pending :
  freshRun (take 4 eventsToGameUnderWay) initialServer
  ∧ JsMap.get "A" (onlineUsers (run (take 4 eventsToGameUnderWay) initialServer).1)
    = Some (mkOnlineUser "A" "ua" "alice")
  ∧ activeGames (disconnect "m9" "t9" "A"
                   (run (take 4 eventsToGameUnderWay) initialServer).1).1
    = activeGames (run (take 4 eventsToGameUnderWay) initialServer).1.
Proof.
  assert (H0 : freshRun (take 4 eventsToGameUnderWay) initialServer)
    by (simpl; tauto).
  assert (H1 : JsMap.get "A"
                 (onlineUsers (run (take 4 eventsToGameUnderWay) initialServer).1)
               = Some (mkOnlineUser "A" "ua" "alice")) by reflexivity.
  split_and!; [exact H0 | exact H1 |].
  exact (proj1 (proj2 (proj2 (proj2
           (X10_disconnect_cancels_the_challenges_of_the_connection
              (take 4 eventsToGameUnderWay) "m9" "t9" "A"
              (mkOnlineUser "A" "ua" "alice") H0 H1))))).
Defined.

(** ** Evicted connections *)

Lemma joinLobby_first (uuid now sock uid uname : string) (s : Server) :
  hasJoinedLobby (sockData s sock) = false →
  let s1 := (joinLobby uuid now sock uid uname s).1 in
  onlineUsers s1
  = JsMap.set sock (mkOnlineUser sock uid uname)
      (filter (λ e : string * OnlineUser, ¬ (ou_userId e.2 = uid ∧ e.1 ≠ sock))
              (onlineUsers s))
  ∧ activeChallenges s1 = activeChallenges s
  ∧ timers s1 = timers s
  ∧ nextTimer s1 = nextTimer s
  ∧ activeGames s1 = activeGames s.
Proof. intros Hflag. unfold joinLobby. by rewrite Hflag. Qed.

(** X11. The challenges of an evicted connection are not cancelled.
    When a [joinLobby] from another connection brings the user id of a
    registered connection [old], [old] leaves the presence registry while
    challenges, timers and sessions stay as they are.  From then on [old]
    can neither send nor receive a challenge, and its disconnect does
    nothing: the challenges it sent or received before stay pending (they
    end by accept, decline or expiry only). *)
Theorem X11_challenges_of_an_evicted_connection_stay_pending
    (es : list Event) (uuid now sock uid uname old : string) (u : OnlineUser) :
  let s := (run es initialServer).1 in
  hasJoinedLobby (sockData s sock) = false →
  JsMap.get old (onlineUsers s) = Some u →
  ou_userId u = uid → old ≠ sock →
  let s1 := (joinLobby uuid now sock uid uname s).1 in
  activeChallenges s1 = activeChallenges s
  ∧ timers s1 = timers s
  ∧ activeGames s1 = activeGames s
  ∧ (∀ uuid' now', disconnect uuid' now' old s1 = (s1, []))
  ∧ (∀ uuid' to toUsername, sendChallenge uuid' old to toUsername s1 = (s1, []))
  ∧ (∀ uuid' from toUsername, sendChallenge uuid' from old toUsername s1 = (s1, [])).
Proof.
  intros s Hflag Hold Hu Hne s1.
  destruct (registries_unique_keys es) as (Hnd & _).
  fold s in Hnd.
  destruct (joinLobby_first uuid now sock uid uname s Hflag)
    as (Hou & Hch & Htm & _ & Hgames).
  fold s1 in Hou, Hch, Htm, Hgames.
  assert (Hgone : JsMap.get old (onlineUsers s1) = None).
  { rewrite Hou, get_set_ne by done. apply get_filter_None.
    intros v Hin%(elem_of_get _ _ _ Hnd) Hkeep. apply Hkeep. simpl.
    split; [congruence | done]. }
  split_and!; [done | done | done | | |].
  - intros uuid' now'. unfold disconnect. by rewrite Hgone.
  - intros uuid' to toUsername. unfold sendChallenge. by rewrite Hgone.
  - intros uuid' from toUsername. unfold sendChallenge. rewrite Hgone.
    by destruct (JsMap.get from (onlineUsers s1)).
Qed.

Lemma X11_alice_reconnects_while_her_challenge_is_pending :
  hasJoinedLobby (sockData (run (take 4 eventsToGameUnderWay) initialServer).1 "A2")
  = false
  ∧ JsMap.get "A" (onlineUsers (run (take 4 eventsToGameUnderWay) initialServer).1)
    = Some (mkOnlineUser "A" "ua" "alice")
  ∧ activeChallenges
      (joinLobby "m5" "t5" "A2" "ua" "alice"
         (run (take 4 eventsToGameUnderWay) initialServer).1).1
    = activeChallenges (run (take 4 eventsToGameUnderWay) initialServer).1.
Proof.
  assert (H0 : hasJoinedLobby
                 (sockData (run (take 4 eventsToGameUnderWay) initialServer).1 "A2")
               = false) by reflexivity.
  assert (H1 : JsMap.get "A"
                 (onlineUsers (run (take 4 eventsToGameUnderWay) initialServer).1)
               = Some (mkOnlineUser "A" "ua" "alice")) by reflexivity.
  assert (H2 : ou_userId (mkOnlineUser "A" "ua" "alice") = "ua") by reflexivity.
  assert (H3 : "A" ≠ "A2") by discriminate.
  split_and!; [exact H0 | exact H1 |].
  exact (proj1 (X11_challenges_of_an_evicted_connection_stay_pending
                  (take 4 eventsToGameUnderWay) "m5" "t5" "A2" "ua" "alice" "A"
                  (mkOnlineUser "A" "ua" "alice") H0 H1 H2 H3)).
Defined.

(** ** Presence broadcasts *)

Lemma keyedBySocket_step (e : Event) (s : Server) :
  NoDup (JsMap.keys (onlineUsers s)) →
  keyedBySocket (onlineUsers s) → keyedBySocket (onlineUsers (step e s).1).
Proof.
  intros Hnd Hkey.
  destruct (onlineUsers_step e s) as [->|[[sock ->]|(sock & uid & uname & ->)]].
  - done.
  - intros e0 [_ Hin]%list_elem_of_filter. by apply Hkey.
  - set (kept := filter _ (onlineUsers s)).
    assert (Hnd' : NoDup (JsMap.keys kept)) by by apply NoDup_keys_filter.
    intros e0 [->|[[_ Hin]%list_elem_of_filter _]]%(elem_of_set _ _ _ _ Hnd');
      [done | by apply Hkey].
Qed.

(** The only [onlineUsers] events a step sends go to the room ["main"]
    and carry the values of the registry as the step leaves it. *)
Lemma broadcast_step (e : Event) (s : Server) (tgt : Target) (l : list OnlineUser) :
  Emit tgt (OnlineUsers l) ∈ (step e s).2 →
  tgt = ToRoom "main" ∧ l = JsMap.values (onlineUsers (step e s).1).
Proof.
  destruct e as [uuid now sock m|h|k]; [destruct m|..]; handler_cases;
    rewrite ?elem_of_app, ?elem_of_cons, ?list_elem_of_fmap, ?elem_of_nil;
    intros Hin; repeat (destruct Hin as [Hin|Hin]); try done;
    try (destruct Hin as (? & ? & ?); done);
    try (injection Hin as -> ->; split; [done|]);
    rewrite ?clearTimeouts_onlineUsers, ?clearTimeouts_activeChallenges; done.
Qed.

(** X12. Every [onlineUsers] event the server sends, in any run from its
    start, goes to the room ["main"] and lists each connection once and
    each user once: no two entries of the list share a socket id, and no
    two share a user id. *)
Theorem X12_presence_broadcasts_list_each_user_once
    (es : list Event) (tgt : Target) (l : list OnlineUser) :
  Emit tgt (OnlineUsers l) ∈ (run es initialServer).2 →
  tgt = ToRoom "main"
  ∧ NoDup (ou_socketId <$> l)
  ∧ NoDup (ou_userId <$> l).
Proof.
  assert (Hrun : ∀ s,
            NoDup (JsMap.keys (onlineUsers s)) ∧ perUser (onlineUsers s) →
            keyedBySocket (onlineUsers s) →
            Emit tgt (OnlineUsers l) ∈ (run es s).2 →
            tgt = ToRoom "main" ∧ NoDup (ou_socketId <$> l) ∧ NoDup (ou_userId <$> l)).
  { induction es as [|e es IH]; intros s Hinv Hkey; [by intros ?%elem_of_nil|].
    cbn [run].
    pose proof (presence_step e s Hinv) as Hinv'.
    pose proof (keyedBySocket_step e s (proj1 Hinv) Hkey) as Hkey'.
    pose proof (broadcast_step e s tgt l) as Hstep.
    destruct (step e s) as [s1 out1]. specialize (IH s1 Hinv' Hkey').
    destruct (run es s1) as [s2 out2]. cbn [fst snd] in *.
    intros [Hin|Hin]%elem_of_app; [|by apply IH].
    destruct (Hstep Hin) as [-> ->]. split; [done|].
    destruct Hinv' as [Hnd' Hper']. split; [|by apply perUser_NoDup].
    replace (ou_socketId <$> JsMap.values (onlineUsers s1))
      with (JsMap.keys (onlineUsers s1)); [done|].
    unfold JsMap.keys, JsMap.values. rewrite <- list_fmap_compose.
    apply list_fmap_ext. intros i e0 Hi. symmetry. apply Hkey'.
    by eapply list_elem_of_lookup_2. }
  apply Hrun; [|by intros e0 ?%elem_of_nil].
  split; [apply NoDup_nil_2 | by intros e1 e2 H1%elem_of_nil].
Qed.

Lemma X12_broadcast_after_the_third_join :
  Emit (ToRoom "main")
       (OnlineUsers [ mkOnlineUser "A" "ua" "alice"; mkOnlineUser "B" "ub" "bob";
                      mkOnlineUser "C" "uc" "carol" ])
  ∈ (run eventsToGameUnderWay initialServer).2
  ∧ NoDup (ou_userId <$> [ mkOnlineUser "A" "ua" "alice"; mkOnlineUser "B" "ub" "bob";
                           mkOnlineUser "C" "uc" "carol" ]).
Proof.
  assert (H0 : Emit (ToRoom "main")
                 (OnlineUsers [ mkOnlineUser "A" "ua" "alice";
                                mkOnlineUser "B" "ub" "bob";
                                mkOnlineUser "C" "uc" "carol" ])
               ∈ (run eventsToGameUnderWay initialServer).2).
  { vm_compute. repeat constructor. }
  split; [exact H0|].
  exact (proj2 (proj2 (X12_presence_broadcasts_list_each_user_once
                         eventsToGameUnderWay _ _ H0))).
Defined.

(** ** Presence entries are written once *)

(** How one event changes the presence registry, with the handler that
    adds an entry named. *)
Lemma onlineUsers_step_join (e : Event) (s : Server) :
  onlineUsers (step e s).1 = onlineUsers s
  ∨ (∃ sock, onlineUsers (step e s).1 = JsMap.delete sock (onlineUsers s))
  ∨ (∃ uuid now sock uid uname,
       e = Receives uuid now sock (JoinLobby uid uname)
       ∧ hasJoinedLobby (sockData s sock) = false
       ∧ onlineUsers (step e s).1
         = JsMap.set sock (mkOnlineUser sock uid uname)
             (filter (λ e : string * OnlineUser, ¬ (ou_userId e.2 = uid ∧ e.1 ≠ sock))
                     (onlineUsers s))).
Proof.
  destruct e as [uuid now sock m|h|k]; [destruct m|..]; handler_cases;
    rewrite ?clearTimeouts_onlineUsers; eauto 12.
Qed.

Lemma entry_step (e : Event) (s : Server) (sock : string) :
  NoDup (JsMap.keys (onlineUsers s)) →
  hasJoinedLobby (sockData s sock) = true →
  JsMap.get sock (onlineUsers (step e s).1) = JsMap.get sock (onlineUsers s)
  ∨ JsMap.get sock (onlineUsers (step e s).1) = None.
Proof.
  intros Hnd Hflag.
  destruct (onlineUsers_step_join e s)
    as [->|[[k ->]|(uuid & now & k & uid & uname & _ & Hk & ->)]].
  - by left.
  - rewrite get_delete. case_decide; [by right | by left].
  - rewrite get_set. case_decide as Hsock; [congruence|].
    rewrite get_filter by done.
    destruct (JsMap.get sock (onlineUsers s)); [|by left].
    case_decide; [by left | by right].
Qed.

Lemma joinedAreFlagged_step (e : Event) (s : Server) :
  NoDup (JsMap.keys (onlineUsers s)) →
  joinedAreFlagged s → joinedAreFlagged (step e s).1.
Proof.
  intros Hnd Hinv sock u.
  destruct (onlineUsers_step_join e s)
    as [Hsame|[[k Hdel]|(uuid & now & k & uid & uname & -> & Hk & Hset)]].
  - rewrite Hsame. intros Hu. apply hasJoinedLobby_step. by eapply Hinv.
  - rewrite Hdel, get_delete. case_decide; [done|].
    intros Hu. apply hasJoinedLobby_step. by eapply Hinv.
  - rewrite Hset, get_set. case_decide as Hsock.
    + subst k. intros _. apply joinLobby_sets_flag.
    + rewrite get_filter by done.
      destruct (JsMap.get sock (onlineUsers s)) as [u0|] eqn:Hu0; [|done].
      intros _. apply (hasJoinedLobby_step (Receives uuid now k (JoinLobby uid uname))).
      by eapply Hinv.
Qed.

Lemma joinedAreFlagged_run (es : list Event) (s : Server) :
  NoDup (JsMap.keys (onlineUsers s)) ∧ perUser (onlineUsers s) →
  joinedAreFlagged s → joinedAreFlagged (run es s).1.
Proof.
  revert s. induction es as [|e es IH]; intros s Hpres Hinv; [done|].
  cbn [run]. pose proof (presence_step e s Hpres) as Hpres'.
  pose proof (joinedAreFlagged_step e s (proj1 Hpres) Hinv) as Hinv'.
  destruct (step e s) as [s1 out1]. specialize (IH s1 Hpres' Hinv').
  by destruct (run es s1).
Qed.

Lemma entry_run (es : list Event) (s : Server) (sock : string) :
  NoDup (JsMap.keys (onlineUsers s)) ∧ perUser (onlineUsers s) →
  hasJoinedLobby (sockData s sock) = true →
  JsMap.get sock (onlineUsers (run es s).1) = JsMap.get sock (onlineUsers s)
  ∨ JsMap.get sock (onlineUsers (run es s).1) = None.
Proof.
  revert s. induction es as [|e es IH]; intros s Hpres Hflag; [by left|].
  cbn [run]. pose proof (presence_step e s Hpres) as Hpres'.
  pose proof (hasJoinedLobby_step e s sock Hflag) as Hflag'.
  pose proof (entry_step e s sock (proj1 Hpres) Hflag) as Hstep.
  destruct (step e s) as [s1 out1]. specialize (IH s1 Hpres' Hflag').
  destruct (run es s1) as [s2 out2]. cbn [fst] in *.
  destruct IH as [->| ->]; [done | by right].
Qed.

(** X13. A presence entry is written once.  In every state the server
    reaches, a connection that is in the presence registry has its
    [hasJoinedLobby] flag set; and whatever the server handles next, the
    entry of that connection is the very same entry (same user id and
    name) or is gone, and a connection whose flag is set and which is not
    in the registry never gets back into it. *)
Theorem X13_presence_entry_is_written_once
    (es1 es2 : list Event) (sock : string) :
  let s1 := (run es1 initialServer).1 in
  let s2 := (run es2 s1).1 in
  (∀ u, JsMap.get sock (onlineUsers s1) = Some u →
        hasJoinedLobby (sockData s1 sock) = true
        ∧ (JsMap.get sock (onlineUsers s2) = Some u
           ∨ JsMap.get sock (onlineUsers s2) = None))
  ∧ (hasJoinedLobby (sockData s1 sock) = true →
     JsMap.get sock (onlineUsers s1) = None →
     JsMap.get sock (onlineUsers s2) = None).
Proof.
  intros s1 s2.
  assert (Hinit : NoDup (JsMap.keys (onlineUsers initialServer))
                  ∧ perUser (onlineUsers initialServer)).
  { split; [apply NoDup_nil_2 | by intros e1 e2 H1%elem_of_nil]. }
  pose proof (presence_run es1 initialServer Hinit) as Hpres. fold s1 in Hpres.
  assert (Hflagged : joinedAreFlagged s1)
    by (by apply joinedAreFlagged_run).
  split.
  - intros u Hu. pose proof (Hflagged _ _ Hu) as Hflag. split; [done|].
    destruct (entry_run es2 s1 sock Hpres Hflag) as [Hsame|Hnone];
      [left; by rewrite <- Hu | by right].
  - intros Hflag Hnone.
    destruct (entry_run es2 s1 sock Hpres Hflag) as [Hsame|Hgone];
      [by rewrite <- Hnone | done].
Qed.

(** ** Registration tokens *)

Lemma filter_ext_in {A} (P Q : A → Prop) `{!∀ x, Decision (P x), !∀ x, Decision (Q x)}
    (l : list A) :
  (∀ x, x ∈ l → P x ↔ Q x) → filter P l = filter Q l.
Proof.
  induction l as [|a l IH]; [done|]. intros Hext.
  rewrite !filter_cons.
  rewrite IH by (intros x Hx; apply Hext; by right).
  destruct (decide (P a)) as [Hp|Hp].
  - by rewrite decide_True by (apply Hext; [left | done]).
  - rewrite decide_False; [done|]. intros Hq. apply Hp, Hext; [left | done].
Qed.

Lemma filter_all {A} (P : A → Prop) `{!∀ x, Decision (P x)} (l : list A) :
  (∀ x, x ∈ l → P x) → filter P l = l.
Proof.
  induction l as [|a l IH]; [done|]. intros Hall.
  rewrite filter_cons, decide_True by (apply Hall; left).
  by rewrite IH by (intros x Hx; apply Hall; by right).
Qed.

Lemma one_value_per_key {V} (m : list (string * V)) (k : string) (v v' : V) :
  NoDup (JsMap.keys m) → (k, v) ∈ m → (k, v') ∈ m → v = v'.
Proof.
  intros Hnd H1%(elem_of_get _ _ _ Hnd) H2%(elem_of_get _ _ _ Hnd). congruence.
Qed.

Section registration.
Import Registration.
Variable hmac : string → string.

(** What the loop of the clean-up interval has deleted after visiting
    the entries [l]: the keys of the expired ones. *)
Lemma cleanup_loop (now : Z) (l acc : Tokens) :
  foldl (λ (acc : Tokens) (e : string * RegistrationToken),
           if decide (now > expiresAt e.2) then JsMap.delete e.1 acc else acc)
        acc l
  = filter (λ e : string * RegistrationToken,
              e.1 ∉ (filter (λ e' : string * RegistrationToken,
                               now > expiresAt e'.2) l).*1) acc.
Proof.
  revert acc. induction l as [|x l IH]; intros acc.
  - simpl. symmetry. apply filter_all. intros e _. apply not_elem_of_nil.
  - cbn [foldl]. rewrite IH. case_decide as Hx.
    + unfold JsMap.delete. rewrite list_filter_filter.
      apply list_filter_iff. intros e.
      rewrite filter_cons, decide_True by done.
      rewrite fmap_cons, not_elem_of_cons. tauto.
    + apply list_filter_iff. intros e. by rewrite filter_cons, decide_False by done.
Qed.

Lemma cleanup_filter (now : Z) (m : Tokens) :
  NoDup (JsMap.keys m) →
  cleanup now m
  = filter (λ e : string * RegistrationToken, ¬ now > expiresAt e.2) m.
Proof.
  intros Hnd. unfold cleanup. rewrite cleanup_loop.
  apply filter_ext_in. intros [k t] Hin. cbn [fst snd]. split.
  - intros Hdead Hexp. apply Hdead. apply list_elem_of_fmap.
    exists (k, t). split; [done|]. by apply list_elem_of_filter.
  - intros Hlive ([k' t'] & Hk & [Hexp Hin']%list_elem_of_filter)%list_elem_of_fmap.
    cbn [fst snd] in *. subst k'.
    by rewrite (one_value_per_key m k t t' Hnd Hin Hin') in Hlive.
Qed.

Lemma wellFormed_delete (m : Tokens) (k : string) :
  wellFormed hmac m → wellFormed hmac (JsMap.delete k m).
Proof.
  intros [Hnd Hall]. split; [by apply NoDup_keys_filter|].
  intros k' t. rewrite get_delete. case_decide; [done | apply Hall].
Qed.

Lemma wellFormed_serve (c : Call) (m : Tokens) :
  wellFormed hmac m → wellFormed hmac (serve hmac c m).
Proof.
  intros Hwf. pose proof Hwf as [Hnd Hall]. destruct c as [req now|req body now|tok uname currentIp captcha db|now];
    cbn [serve].
  - unfold registerToken. cbn [fst]. split; [by apply NoDup_keys_set|].
    intros k t. rewrite get_set. case_decide as Hk; [|apply Hall].
    intros [= <-]. cbn [token ip userAgent timestamp expiresAt].
    split_and!; [done | done | lia].
  - unfold registerChecks. repeat case_match; cbn [fst]; try done;
      by apply wellFormed_delete.
  - unfold registerCompletes. repeat case_match; cbn [fst]; try done;
      by apply wellFormed_delete.
  - rewrite cleanup_filter by done. split; [by apply NoDup_keys_filter|].
    intros k t. rewrite get_filter by done.
    destruct (JsMap.get k m) as [t0|] eqn:Ht0; [|done].
    case_decide; [|done]. intros [= <-]. by apply Hall.
Qed.

Lemma wellFormed_serveAll (cs : list Call) (m : Tokens) :
  wellFormed hmac m → wellFormed hmac (serveAll hmac cs m).
Proof.
  revert m. induction cs as [|c cs IH]; intros m Hwf; [done|].
  cbn [serveAll foldl]. apply IH. by apply wellFormed_serve.
Qed.

Lemma wellFormed_reachable (cs : list Call) :
  wellFormed hmac (serveAll hmac cs []).
Proof.
  apply wellFormed_serveAll. split; [apply NoDup_nil_2 | done].
Qed.

(** How one piece of a registration changes the token map. *)
Lemma registerChecks_map (req : Request) (body : RegisterBody) (now : Z) (m : Tokens) :
  (registerChecks req body now m).1.1 = m
  ∨ ∃ tok t, b_token body = Str tok ∧ JsMap.get tok m = Some t
             ∧ now > expiresAt t
             ∧ registerChecks req body now m
               = (JsMap.delete tok m,
                  [ Log ("Expired token attempt from IP " +:+ clientIp req) ],
                  Answered (ErrorReply 403
                    "Registration token has expired. Please refresh the page.")).
Proof.
  unfold registerChecks, storedUnder.
  destruct (b_token body) as [tok|? ? ?];
    repeat case_match; simplify_eq; cbn [fst snd]; try (by left).
  all: right; eauto 10.
Qed.

Lemma registerCompletes_map (tok uname currentIp : string)
    (captcha : CaptchaOutcome) (db : DbOutcome) (m : Tokens) :
  ((registerCompletes tok uname currentIp captcha db m).1.1 = m
   ∧ ∃ status error,
       (registerCompletes tok uname currentIp captcha db m).2 = ErrorReply status error)
  ∨ ∃ id, captcha = CaptchaSuccess ∧ db = Inserted id
          ∧ (registerCompletes tok uname currentIp captcha db m).1.1 = JsMap.delete tok m
          ∧ (registerCompletes tok uname currentIp captcha db m).2 = Created id.
Proof.
  unfold registerCompletes. destruct captcha; [destruct db|..]; cbn [fst snd]; eauto 10.
Qed.

(** X14. The clean-up interval, on any token map the server reaches:
    the loop that deletes while it iterates leaves exactly the tokens
    that have not expired, in their order; a token is found afterwards
    iff it was there with [now <= expiresAt].  It agrees with the expiry
    test of the registration: on a map cleaned at [now], a registration
    request handled at [now] deletes nothing.  Cleaning twice is cleaning
    once. *)
Theorem X14_cleanup_keeps_exactly_the_unexpired_tokens
    (cs : list Call) (now : Z) :
  let m := serveAll hmac cs [] in
  cleanup now m
  = filter (λ e : string * RegistrationToken, ¬ now > expiresAt e.2) m
  ∧ (∀ k t, JsMap.get k (cleanup now m) = Some t
            ↔ JsMap.get k m = Some t ∧ now ≤ expiresAt t)
  ∧ (∀ req body, (registerChecks req body now (cleanup now m)).1.1 = cleanup now m)
  ∧ cleanup now (cleanup now m) = cleanup now m.
Proof.
  intros m. destruct (wellFormed_reachable cs) as [Hnd Hall]. fold m in Hnd, Hall.
  pose proof (cleanup_filter now m Hnd) as Hclean.
  assert (Hget : ∀ k t, JsMap.get k (cleanup now m) = Some t
                        ↔ JsMap.get k m = Some t ∧ now ≤ expiresAt t).
  { intros k t. rewrite Hclean, get_filter by done.
    destruct (JsMap.get k m) as [t0|]; [|split; [done | by intros [? _]]].
    cbn [snd]. case_decide as Hexp.
    - split; [intros [= ->]; split; [done | lia] | by intros [[= ->] _]].
    - split; [done|]. intros [[= ->] ?]. lia. }
  split_and!; [done | done | |].
  - intros req body.
    destruct (registerChecks_map req body now (cleanup now m))
      as [Hsame|(tok & t & _ & Ht & Hexp & _)]; [done|].
    apply Hget in Ht as [_ ?]. lia.
  - assert (Hnd' : NoDup (JsMap.keys (cleanup now m)))
      by (rewrite Hclean; by apply NoDup_keys_filter).
    rewrite (cleanup_filter now (cleanup now m) Hnd'). apply filter_all.
    intros e. rewrite Hclean at 1. by intros [? _]%list_elem_of_filter.
Qed.

(** The checks a registration has passed when it reaches reCAPTCHA. *)
Lemma registerChecks_passed (req : Request) (body : RegisterBody) (now : Z)
    (m m1 : Tokens) (out1 : list Effect) (tok uname currentIp captchaToken : string) :
  registerChecks req body now m
  = (m1, out1, AwaitsCaptcha tok uname currentIp captchaToken) →
  m1 = m ∧ out1 = [] ∧ currentIp = clientIp req
  ∧ uname = shown (b_username body)
  ∧ captchaToken = shown (b_captchaToken body)
  ∧ acceptable body
  ∧ b_token body = Str tok
  ∧ ∃ t, JsMap.get tok m = Some t ∧ now ≤ expiresAt t
         ∧ ip t = clientIp req ∧ userAgent t = clientAgent req.
Proof.
  unfold registerChecks, storedUnder, acceptable. intros Hchk.
  destruct (truthy (b_username body)) eqn:Hu; [|done].
  destruct (truthy (b_password body)) eqn:Hp; [|done].
  destruct (truthy (b_token body)) eqn:Ht; [|done].
  cbn [negb orb] in Hchk.
  destruct (b_token body) as [tok'|? ? ?] eqn:Htok; [|by repeat case_match].
  destruct (lengthOf (b_username body)) as [n|] eqn:Hn;
    destruct (lengthOf (b_password body)) as [k|] eqn:Hk;
    repeat case_match; simplify_eq;
    repeat match goal with
           | H : bool_decide _ = false |- _ => apply bool_decide_eq_false in H
           | H : negb _ = false |- _ => apply negb_false_iff in H
           end;
    (split_and!; try done;
     [ intros ? [= <-]; lia ..
     | eexists; split_and!; [done | lia | by apply dec_stable | by apply dec_stable] ]).
Qed.

Lemma registerChecks_answer (req : Request) (body : RegisterBody) (now : Z)
    (m m1 : Tokens) (out1 : list Effect) (reply : Reply) :
  registerChecks req body now m = (m1, out1, Answered reply) →
  ∃ status error, reply = ErrorReply status error.
Proof.
  unfold registerChecks. intros Hchk. repeat case_match; simplify_eq; eauto.
Qed.

(** A request that presents a token which is not stored is turned down
    before reCAPTCHA, and changes nothing. *)
Lemma registerChecks_unknown_token (req : Request) (body : RegisterBody) (now : Z)
    (m : Tokens) :
  storedUnder (b_token body) m = None →
  ∃ out status error,
    registerChecks req body now m = (m, out, Answered (ErrorReply status error)).
Proof.
  intros Hnone. unfold registerChecks. rewrite Hnone.
  repeat case_match; eauto.
Qed.

(** With an acceptable name, password and CAPTCHA token, what is left of
    the checks is the look-up and the validation of the token. *)
Lemma registerChecks_acceptable (req : Request) (body : RegisterBody) (now : Z)
    (m : Tokens) (tok : string) :
  acceptable body → b_token body = Str tok → tok ≠ "" →
  registerChecks req body now m
  = match JsMap.get tok m with
    | None =>
        (m, [ Log ("Invalid token attempt: " +:+ tok) ],
         Answered (ErrorReply 403 "Invalid or expired registration token"))
    | Some storedToken =>
        if decide (now > expiresAt storedToken) then
          (JsMap.delete tok m,
           [ Log ("Expired token attempt from IP " +:+ clientIp req) ],
           Answered (ErrorReply 403
             "Registration token has expired. Please refresh the page."))
        else if decide (ip storedToken ≠ clientIp req) then
          (m, [ Log ("IP mismatch: stored=" +:+ ip storedToken
                     +:+ ", current=" +:+ clientIp req) ],
           Answered (ErrorReply 403
             "Registration token validation failed (IP mismatch)"))
        else if decide (userAgent storedToken ≠ clientAgent req) then
          (m, [ Log ("User agent mismatch for IP " +:+ clientIp req) ],
           Answered (ErrorReply 403
             "Registration token validation failed (browser mismatch)"))
        else
          (m, [], AwaitsCaptcha tok (shown (b_username body)) (clientIp req)
                                (shown (b_captchaToken body)))
    end.
Proof.
  intros (Hu & Hp & Hc & Hulen & Hplen) Htok Hne.
  unfold registerChecks, storedUnder. rewrite Hu, Hp, Hc, Htok. cbn [truthy].
  rewrite bool_decide_eq_true_2 by done. cbn [negb orb shown].
  destruct (lengthOf (b_username body)) as [n|] eqn:Hn;
    [rewrite bool_decide_eq_false_2 by (specialize (Hulen n eq_refl); lia)|];
    (destruct (lengthOf (b_password body)) as [k|] eqn:Hk;
       [rewrite bool_decide_eq_false_2 by (specialize (Hplen k eq_refl); lia)|]);
    by destruct (JsMap.get tok m).
Qed.

(** A token that is not stored stays so while it is not issued again. *)
Lemma absent_serve (tok : string) (c : Call) (m : Tokens) :
  noReissue hmac tok c →
  JsMap.get tok m = None → JsMap.get tok (serve hmac c m) = None.
Proof.
  destruct c as [req now|req body now|tok' uname currentIp captcha db|now];
    cbn [serve noReissue]; intros Hc Hnone.
  - unfold registerToken. cbn [fst]. by rewrite get_set_ne.
  - destruct (registerChecks_map req body now m) as [->|(tok' & t & _ & _ & _ & ->)];
      [done|]. cbn [fst]. by apply get_filter_absent.
  - destruct (registerCompletes_map tok' uname currentIp captcha db m)
      as [[-> _]|(id & _ & _ & -> & _)]; [done|]. by apply get_filter_absent.
  - unfold cleanup. rewrite cleanup_loop. by apply get_filter_absent.
Qed.

Lemma absent_serveAll (tok : string) (cs : list Call) (m : Tokens) :
  Forall (noReissue hmac tok) cs →
  JsMap.get tok m = None → JsMap.get tok (serveAll hmac cs m) = None.
Proof.
  revert m. induction cs as [|c cs IH]; intros m Hcs Hnone; [done|].
  apply Forall_cons in Hcs as [Hc Hcs]. cbn [serveAll foldl].
  apply IH; [done|]. by apply absent_serve.
Qed.

(** While it is not issued again, a stored token keeps its entry or
    goes. *)
Lemma entry_serve (tok : string) (stored : RegistrationToken) (c : Call) (m : Tokens) :
  NoDup (JsMap.keys m) →
  noReissue hmac tok c →
  JsMap.get tok m = Some stored →
  JsMap.get tok (serve hmac c m) = Some stored ∨ JsMap.get tok (serve hmac c m) = None.
Proof.
  destruct c as [req now|req body now|tok' uname currentIp captcha db|now];
    cbn [serve noReissue]; intros Hnd Hc Hsome.
  - left. unfold registerToken. cbn [fst]. by rewrite get_set_ne.
  - destruct (registerChecks_map req body now m) as [->|(tok' & t & _ & _ & _ & ->)];
      [by left|]. cbn [fst]. rewrite get_delete. case_decide; [by right | by left].
  - destruct (registerCompletes_map tok' uname currentIp captcha db m)
      as [[-> _]|(id & _ & _ & -> & _)]; [by left|].
    rewrite get_delete. case_decide; [by right | by left].
  - rewrite cleanup_filter, get_filter, Hsome by done. case_decide; [by left | by right].
Qed.

Lemma entry_serveAll (tok : string) (stored : RegistrationToken)
    (cs : list Call) (m : Tokens) :
  wellFormed hmac m →
  Forall (noReissue hmac tok) cs →
  JsMap.get tok m = Some stored ∨ JsMap.get tok m = None →
  JsMap.get tok (serveAll hmac cs m) = Some stored
  ∨ JsMap.get tok (serveAll hmac cs m) = None.
Proof.
  revert m. induction cs as [|c cs IH]; intros m Hwf Hcs Hm; [done|].
  apply Forall_cons in Hcs as [Hc Hcs]. cbn [serveAll foldl].
  apply IH; [by apply wellFormed_serve | done |].
  destruct Hm as [Hsome|Hnone].
  - apply entry_serve; [apply Hwf | done | done].
  - right. by apply absent_serve.
Qed.

(** A stored token keeps its entry under calls that leave it alone. *)
Lemma kept_serve (tok : string) (stored : RegistrationToken) (c : Call) (m : Tokens) :
  NoDup (JsMap.keys m) →
  leavesAlone hmac tok (expiresAt stored) c →
  JsMap.get tok m = Some stored →
  JsMap.get tok (serve hmac c m) = Some stored.
Proof.
  destruct c as [req now|req body now|tok' uname currentIp captcha db|now];
    cbn [serve leavesAlone]; intros Hnd Hc Hsome.
  - unfold registerToken. cbn [fst]. by rewrite get_set_ne.
  - destruct (registerChecks_map req body now m)
      as [->|(tok' & t & Htok & Ht & Hexp & ->)]; [done|].
    cbn [fst]. rewrite get_delete. case_decide as Heq; [|done].
    subst tok'. rewrite Hsome in Ht. injection Ht as <-. specialize (Hc Htok). lia.
  - destruct (registerCompletes_map tok' uname currentIp captcha db m)
      as [[-> _]|(id & -> & -> & -> & _)]; [done|].
    rewrite get_delete. case_decide as Heq; [|done].
    by destruct (Hc Heq eq_refl id).
  - rewrite cleanup_filter, get_filter, Hsome by done. cbn [snd].
    rewrite decide_True; [done | lia].
Qed.

Lemma kept_serveAll (tok : string) (stored : RegistrationToken)
    (cs : list Call) (m : Tokens) :
  wellFormed hmac m →
  Forall (leavesAlone hmac tok (expiresAt stored)) cs →
  JsMap.get tok m = Some stored →
  JsMap.get tok (serveAll hmac cs m) = Some stored.
Proof.
  revert m. induction cs as [|c cs IH]; intros m Hwf Hcs Hm; [done|].
  apply Forall_cons in Hcs as [Hc Hcs]. cbn [serveAll foldl].
  apply IH; [by apply wellFormed_serve | done |].
  apply kept_serve; [apply Hwf | done | done].
Qed.

(** X15. A registration is answered with 201 only after the checks, and
    then the token is deleted.  A request handled on a token map the
    server reaches goes on to reCAPTCHA only if its name, password and
    CAPTCHA token are there, the name, if it is a string, has 3 to 50
    UTF-16 code units and the password, if it is a string, at least 6 (a
    value that is not a string passes when its [length] compares
    accordingly or does not compare at all), and the token it presents is
    a string that is stored, was issued at most ten minutes before to the
    address and the browser of the request, and is the HMAC of those and
    of its time of issue.  Whatever the server handles while the request
    waits, it is answered with 201 only if reCAPTCHA said yes and the
    insert went through; the token is then deleted, and as long as it is
    not issued again every request that presents it from then on is
    turned down before reCAPTCHA and changes nothing. *)
Theorem X15_created_only_after_the_checks_and_the_token_is_deleted
    (cs between : list Call) (req : Request) (body : RegisterBody) (now : Z)
    (captcha : CaptchaOutcome) (db : DbOutcome)
    (tok uname currentIp captchaToken : string)
    (m1 m3 : Tokens) (out1 out3 : list Effect) (id : string) :
  let m0 := serveAll hmac cs [] in
  registerChecks req body now m0
  = (m1, out1, AwaitsCaptcha tok uname currentIp captchaToken) →
  let m2 := serveAll hmac between m1 in
  registerCompletes tok uname currentIp captcha db m2 = (m3, out3, Created id) →
  m1 = m0
  ∧ acceptable body
  ∧ (∀ u, b_username body = Str u → 3 ≤ strlen u ≤ 50)
  ∧ (∀ p, b_password body = Str p → 6 ≤ strlen p)
  ∧ b_token body = Str tok
  ∧ (∃ t, JsMap.get tok m0 = Some t
          ∧ now ≤ timestamp t + 600000
          ∧ ip t = clientIp req ∧ userAgent t = clientAgent req
          ∧ tok = hmac (tokenData (clientIp req) (clientAgent req) (timestamp t)))
  ∧ captcha = CaptchaSuccess ∧ db = Inserted id
  ∧ m3 = JsMap.delete tok m2
  ∧ ∀ later req' body' now',
      Forall (noReissue hmac tok) later →
      b_token body' = Str tok →
      let m4 := serveAll hmac later m3 in
      JsMap.get tok m4 = None
      ∧ ∃ out status error,
          registerChecks req' body' now' m4
          = (m4, out, Answered (ErrorReply status error)).
Proof.
  intros m0 Hchk m2 Hdone.
  destruct (wellFormed_reachable cs) as [Hnd Hall]. fold m0 in Hnd, Hall.
  destruct (registerChecks_passed _ _ _ _ _ _ _ _ _ _ Hchk)
    as (-> & -> & -> & -> & -> & Hacc & Htok & t & Ht & Hexp & Hip & Hua).
  destruct (Hall _ _ Ht) as (_ & Hmac & Hexpires).
  destruct (registerCompletes_map tok (shown (b_username body)) (clientIp req)
              captcha db m2) as [[_ (status & error & Herr)]|(id' & -> & -> & Hmap & Hrep)].
  { rewrite Hdone in Herr. done. }
  rewrite Hdone in Hmap, Hrep. cbn [fst snd] in Hmap, Hrep. injection Hrep as <-.
  pose proof Hacc as (_ & _ & _ & Hulen & Hplen).
  split_and!; try done.
  - intros u Hu. apply Hulen. by rewrite Hu.
  - intros p Hp. apply Hplen. by rewrite Hp.
  - exists t. split_and!; [done | lia | done | done | by rewrite <- Hip, <- Hua].
  - intros later req' body' now' Hlater Htok' m4.
    assert (Hgone : JsMap.get tok m4 = None).
    { apply absent_serveAll; [done|]. rewrite Hmap. apply get_delete_eq. }
    split; [done|]. apply registerChecks_unknown_token.
    unfold storedUnder. by rewrite Htok', Hgone.
Qed.

(** X16. A registration attempt changes the token map only by deleting
    the token it presents, and only when it succeeds or finds the token
    expired: an attempt turned down for its address, its browser, the
    CAPTCHA, a name that is taken or a failing database leaves the map as
    it is, so the same token can be presented again. *)
Theorem X16_a_failed_registration_keeps_the_token
    (req : Request) (body : RegisterBody) (now : Z)
    (captcha : CaptchaOutcome) (db : DbOutcome) (m : Tokens) :
  let r := register req body now captcha db m in
  (r.1.1 = m ∧ ∃ status error, r.2 = ErrorReply status error)
  ∨ ∃ tok t,
      b_token body = Str tok
      ∧ JsMap.get tok m = Some t
      ∧ r.1.1 = JsMap.delete tok m
      ∧ ((now ≤ expiresAt t ∧ ∃ id, r.2 = Created id)
         ∨ (now > expiresAt t
            ∧ r.2 = ErrorReply 403
                      "Registration token has expired. Please refresh the page.")).
Proof.
  intros r. subst r. unfold register.
  destruct (registerChecks req body now m) as [[m1 out1] [reply|tok uname cip ctok]]
    eqn:Hchk.
  - destruct (registerChecks_map req body now m)
      as [Hsame|(tok & t & Htok & Ht & Hexp & Heq)].
    + rewrite Hchk in Hsame. cbn [fst] in Hsame. subst m1.
      destruct (registerChecks_answer _ _ _ _ _ _ _ Hchk) as (status & error & ->).
      left. cbn [fst snd]. eauto.
    + rewrite Hchk in Heq. injection Heq as -> _ ->.
      right. exists tok, t. cbn [fst snd]. split_and!; [done..|]. right. by split.
  - destruct (registerChecks_passed _ _ _ _ _ _ _ _ _ _ Hchk)
      as (-> & -> & -> & _ & _ & _ & Htok & t & Ht & Hexp & _).
    destruct (registerCompletes_map tok uname (clientIp req) captcha db m)
      as [[Hsame (status & error & Herr)]|(id & _ & _ & Hmap & Hrep)];
      destruct (registerCompletes tok uname (clientIp req) captcha db m)
        as [[m2 out2] reply]; cbn [fst snd] in *; subst.
    + left. eauto.
    + right. exists tok, t. split_and!; [done..|]. left. eauto.
Qed.

(** X17. A token is good for ten minutes, from where it was issued.  A
    token is issued by [GET /api/register-token] on a token map the
    server reaches; then the server handles any calls that do not issue
    that token again, clean-ups and other registrations among them; then
    comes a registration request with an acceptable name, password and
    CAPTCHA token that presents the token (a digest, so not the empty
    string).  The entry of the token is by
    then as issued, or gone.  A request handled later than 600000 ms
    after the issue is answered with 403 and the token is not stored
    afterwards.  A request handled earlier, when the calls in between
    have left the token alone (none found it expired, none completed a
    registration with it), leaves the map as it is and is answered with
    403 from another address or another browser, and goes on to reCAPTCHA
    otherwise. *)
Theorem X17_token_is_good_for_ten_minutes_from_where_it_was_issued
    (cs between : list Call) (req req' : Request) (issued now : Z)
    (body : RegisterBody) :
  let m := serveAll hmac cs [] in
  let m1 := (registerToken hmac req issued m).1.1 in
  let tok := (registerToken hmac req issued m).2 in
  let stored := mkRegistrationToken tok (clientIp req) (clientAgent req)
                                    issued (issued + 600000) in
  let m2 := serveAll hmac between m1 in
  let r := registerChecks req' body now m2 in
  tok ≠ "" →
  Forall (noReissue hmac tok) between →
  acceptable body →
  b_token body = Str tok →
  (JsMap.get tok m2 = Some stored ∨ JsMap.get tok m2 = None)
  ∧ (now > issued + 600000 →
     (∃ error, r.2 = Answered (ErrorReply 403 error))
     ∧ JsMap.get tok r.1.1 = None)
  ∧ (now ≤ issued + 600000 →
     Forall (leavesAlone hmac tok (issued + 600000)) between →
     JsMap.get tok m2 = Some stored
     ∧ r.1.1 = m2
     ∧ r.2 = if decide (clientIp req ≠ clientIp req') then
               Answered (ErrorReply 403
                 "Registration token validation failed (IP mismatch)")
             else if decide (clientAgent req ≠ clientAgent req') then
               Answered (ErrorReply 403
                 "Registration token validation failed (browser mismatch)")
             else AwaitsCaptcha tok (shown (b_username body)) (clientIp req')
                                (shown (b_captchaToken body))).
Proof.
  intros m m1 tok stored m2 r Hne Hbetween Hacc Htok.
  assert (Hwf1 : wellFormed hmac m1).
  { apply (wellFormed_serve (GetRegisterToken req issued)), wellFormed_reachable. }
  assert (Hstored : JsMap.get tok m1 = Some stored) by apply get_set_eq.
  assert (Hentry : JsMap.get tok m2 = Some stored ∨ JsMap.get tok m2 = None).
  { apply entry_serveAll; [done | done | by left]. }
  assert (Hr : r = registerChecks req' body now m2) by done.
  rewrite (registerChecks_acceptable req' body now m2 tok Hacc Htok Hne) in Hr.
  split; [done|]. split.
  - intros Hlate. destruct Hentry as [Hsome|Hnone].
    + rewrite Hsome in Hr. cbn [expiresAt stored] in Hr.
      rewrite decide_True in Hr by lia. rewrite Hr. cbn [fst snd].
      split; [eauto | apply get_delete_eq].
    + rewrite Hnone in Hr. rewrite Hr. cbn [fst snd]. split; [eauto | done].
  - intros Hearly Halone.
    assert (Hkept : JsMap.get tok m2 = Some stored).
    { apply kept_serveAll; [done | done | done]. }
    split; [done|]. rewrite Hkept in Hr. cbn [expiresAt ip userAgent stored] in Hr.
    rewrite decide_False in Hr by lia. rewrite Hr.
    by repeat case_decide.
Qed.

End registration.

(** One token serves two requests that are in flight together: both pass
    the checks before either is completed, and the completion does not
    look at the map again. *)
Lemma one_token_serves_two_requests_in_flight :
  let m1 := (Registration.registerToken (λ d, d) Registration.aliceRequest 1000 []).1.1 in
  (Registration.registerChecks Registration.aliceRequest Registration.aliceBody 2000 m1).2
  = Registration.AwaitsCaptcha Registration.aliceToken "alice" "10.0.0.1" "tick"
  ∧ (Registration.registerChecks Registration.aliceRequest Registration.malloryBody
       2001 m1).2
    = Registration.AwaitsCaptcha Registration.aliceToken "mallory" "10.0.0.1" "tock"
  ∧ (Registration.registerCompletes Registration.aliceToken "alice" "10.0.0.1"
       Registration.CaptchaSuccess (Registration.Inserted "7") m1).2
    = Registration.Created "7"
  ∧ (Registration.registerCompletes Registration.aliceToken "mallory" "10.0.0.1"
       Registration.CaptchaSuccess (Registration.Inserted "8")
       (Registration.registerCompletes Registration.aliceToken "alice" "10.0.0.1"
          Registration.CaptchaSuccess (Registration.Inserted "7") m1).1.1).2
    = Registration.Created "8".
Proof. by vm_compute. Qed.

(** The length tests count UTF-16 code units, and only compare what has
    a length: a name of two accented letters (four bytes) is too short,
    while a number given as the name passes the test. *)
Lemma length_tests_on_names :
  Registration.strlen "éé" = 2
  ∧ (Registration.registerChecks Registration.aliceRequest
       (Registration.mkRegisterBody (Registration.Str "éé") (Registration.Str "secret1")
          (Registration.Str Registration.aliceToken) (Registration.Str "tick"))
       2000
       (Registration.registerToken (λ d, d) Registration.aliceRequest 1000 []).1.1).2
    = Registration.Answered
        (Registration.ErrorReply 400 "Username must be between 3 and 50 characters")
  ∧ (Registration.registerChecks Registration.aliceRequest
       (Registration.mkRegisterBody (Registration.NonStr true None "5")
          (Registration.Str "secret1")
          (Registration.Str Registration.aliceToken) (Registration.Str "tick"))
       2000
       (Registration.registerToken (λ d, d) Registration.aliceRequest 1000 []).1.1).2
    = Registration.AwaitsCaptcha Registration.aliceToken "5" "10.0.0.1" "tick".
Proof. by vm_compute. Qed.

Lemma X15_alice_registers_once :
  Registration.registerChecks Registration.aliceRequest Registration.aliceBody 2000
    (Registration.serveAll (λ d, d)
       [Registration.GetRegisterToken Registration.aliceRequest 1000] [])
  = (Registration.serveAll (λ d, d)
       [Registration.GetRegisterToken Registration.aliceRequest 1000] [],
     [],
     Registration.AwaitsCaptcha Registration.aliceToken "alice" "10.0.0.1" "tick")
  ∧ Registration.registerCompletes Registration.aliceToken "alice" "10.0.0.1"
      Registration.CaptchaSuccess (Registration.Inserted "7")
      (Registration.serveAll (λ d, d) [Registration.CleanupTick 1500]
         (Registration.serveAll (λ d, d)
            [Registration.GetRegisterToken Registration.aliceRequest 1000] []))
    = ([], [ Log "User alice registered successfully from IP 10.0.0.1" ],
       Registration.Created "7")
  ∧ ∃ out status error,
      Registration.registerChecks Registration.aliceRequest Registration.malloryBody
        2001 []
      = ([], out, Registration.Answered (Registration.ErrorReply status error)).
Proof.
  assert (H0 : Registration.registerChecks Registration.aliceRequest
                 Registration.aliceBody 2000
                 (Registration.serveAll (λ d, d)
                    [Registration.GetRegisterToken Registration.aliceRequest 1000] [])
               = (Registration.serveAll (λ d, d)
                    [Registration.GetRegisterToken Registration.aliceRequest 1000] [],
                  [],
                  Registration.AwaitsCaptcha Registration.aliceToken "alice"
                                             "10.0.0.1" "tick"))
    by (vm_compute; reflexivity).
  assert (H1 : Registration.registerCompletes Registration.aliceToken "alice" "10.0.0.1"
                 Registration.CaptchaSuccess (Registration.Inserted "7")
                 (Registration.serveAll (λ d, d) [Registration.CleanupTick 1500]
                    (Registration.serveAll (λ d, d)
                       [Registration.GetRegisterToken Registration.aliceRequest 1000] []))
               = ([], [ Log "User alice registered successfully from IP 10.0.0.1" ],
                  Registration.Created "7"))
    by (vm_compute; reflexivity).
  split_and!; [exact H0 | exact H1 |].
  destruct (X15_created_only_after_the_checks_and_the_token_is_deleted
              (λ d, d) [Registration.GetRegisterToken Registration.aliceRequest 1000]
              [Registration.CleanupTick 1500]
              Registration.aliceRequest Registration.aliceBody 2000
              Registration.CaptchaSuccess (Registration.Inserted "7")
              Registration.aliceToken "alice" "10.0.0.1" "tick"
              _ [] [] _ "7" H0 H1)
    as (_ & _ & _ & _ & _ & _ & _ & _ & _ & Hlater).
  destruct (Hlater [] Registration.aliceRequest Registration.malloryBody 2001
              (Forall_nil_2 _) eq_refl) as [_ Hturned].
  exact Hturned.
Defined.

Lemma X17_alice_presents_her_token_in_time :
  (Registration.registerChecks Registration.aliceRequest Registration.aliceBody 2000
     (Registration.serveAll (λ d, d) [Registration.CleanupTick 1500]
        (Registration.registerToken (λ d, d) Registration.aliceRequest 1000 []).1.1)).2
  = Registration.AwaitsCaptcha Registration.aliceToken "alice" "10.0.0.1" "tick".
Proof.
  assert (H0 : (Registration.registerToken (λ d, d) Registration.aliceRequest 1000
                  (Registration.serveAll (λ d, d) [] [])).2 ≠ "") by discriminate.
  assert (H1 : Forall (Registration.noReissue (λ d, d)
                         (Registration.registerToken (λ d, d)
                            Registration.aliceRequest 1000
                            (Registration.serveAll (λ d, d) [] [])).2)
                      [Registration.CleanupTick 1500])
    by (apply Forall_cons; split; [exact I | apply Forall_nil_2]).
  assert (H2 : Registration.acceptable Registration.aliceBody).
  { unfold Registration.acceptable.
    split_and!; [reflexivity | reflexivity | reflexivity | |];
      intros n [= <-]; vm_compute; split_and?; discriminate. }
  assert (H3 : Registration.b_token Registration.aliceBody
               = Registration.Str
                   (Registration.registerToken (λ d, d) Registration.aliceRequest 1000
                      (Registration.serveAll (λ d, d) [] [])).2)
    by (vm_compute; reflexivity).
  assert (H4 : 2000 ≤ 1000 + 600000) by lia.
  assert (H5 : Forall (Registration.leavesAlone (λ d, d)
                         (Registration.registerToken (λ d, d)
                            Registration.aliceRequest 1000
                            (Registration.serveAll (λ d, d) [] [])).2
                         (1000 + 600000))
                      [Registration.CleanupTick 1500]).
  { apply Forall_cons. split; [|apply Forall_nil_2]. simpl. lia. }
  destruct (proj2 (proj2 (X17_token_is_good_for_ten_minutes_from_where_it_was_issued
                     (λ d, d) [] [Registration.CleanupTick 1500]
                     Registration.aliceRequest Registration.aliceRequest
                     1000 2000 Registration.aliceBody H0 H1 H2 H3)) H4 H5)
    as (_ & _ & Hr).
  exact Hr.
Defined.

(** ** The client's chat lists *)

Section chat_lists.
Import Client.
Context {M : Type} (msgId : M → string).

Lemma handleNewMessage_cases (msg : M) (prev : list M) :
  (msgId msg ∈ msgId <$> prev ∧ handleNewMessage msgId msg prev = prev)
  ∨ ((msgId msg ∉ msgId <$> prev) ∧ handleNewMessage msgId msg prev = prev ++ [msg]).
Proof.
  unfold handleNewMessage.
  destruct (existsb _ prev) eqn:Hex; [left | right]; (split; [|done]).
  - apply existsb_exists in Hex as (m & Hin & Hm).
    apply bool_decide_eq_true in Hm. apply list_elem_of_fmap. exists m.
    split; [done | by apply list_elem_of_In].
  - intros (m & Hm & Hin)%list_elem_of_fmap.
    assert (existsb (λ m0, bool_decide (msgId m0 = msgId msg)) prev = true);
      [|congruence].
    apply existsb_exists. exists m. split; [by apply list_elem_of_In|].
    by apply bool_decide_eq_true.
Qed.

Lemma deliver_known (msgs prev : list M) :
  (∀ m, m ∈ msgs → msgId m ∈ msgId <$> prev) → deliver msgId msgs prev = prev.
Proof.
  induction msgs as [|msg msgs IH]; [done|]. intros Hknown.
  cbn [deliver foldl].
  destruct (handleNewMessage_cases msg prev) as [[_ ->]|[Hnew _]].
  - apply IH. intros m Hm. apply Hknown. by right.
  - destruct Hnew. apply Hknown. by left.
Qed.

Lemma deliver_spec (msgs prev : list M) :
  NoDup (msgId <$> prev) →
  NoDup (msgId <$> deliver msgId msgs prev)
  ∧ prev `prefix_of` deliver msgId msgs prev
  ∧ (∀ i, i ∈ msgId <$> deliver msgId msgs prev
          ↔ i ∈ msgId <$> prev ∨ i ∈ msgId <$> msgs)
  ∧ (∀ m, m ∈ deliver msgId msgs prev → m ∈ prev ∨ m ∈ msgs).
Proof.
  revert prev. induction msgs as [|msg msgs IH]; intros prev Hnd.
  { cbn [deliver foldl]. split_and!; [done | done | | by left].
    intros i. rewrite fmap_nil, elem_of_nil. tauto. }
  cbn [deliver foldl]. fold (deliver msgId msgs (handleNewMessage msgId msg prev)).
  destruct (handleNewMessage_cases msg prev) as [[Hold ->]|[Hnew ->]].
  - destruct (IH prev Hnd) as (Hnd' & Hpre & Hids & Hfrom).
    split_and!; [done | done | |].
    + intros i. rewrite Hids, fmap_cons, elem_of_cons.
      split; [tauto|]. intros [?|[->|?]]; tauto.
    + intros m Hm. destruct (Hfrom m Hm); [by left | right; by right].
  - assert (Hnd1 : NoDup (msgId <$> prev ++ [msg])).
    { rewrite fmap_app. apply NoDup_app. split_and!; [done | | apply NoDup_singleton].
      intros i Hi ->%list_elem_of_singleton. done. }
    destruct (IH _ Hnd1) as (Hnd' & Hpre & Hids & Hfrom).
    split_and!; [done | | |].
    + etrans; [|exact Hpre]. by apply prefix_app_r.
    + intros i. rewrite Hids, fmap_app, elem_of_app, fmap_cons, elem_of_cons.
      cbn [fmap list_fmap]. rewrite elem_of_cons, elem_of_nil. tauto.
    + intros m Hm. destruct (Hfrom m Hm) as [[?| ->%list_elem_of_singleton]%elem_of_app|?];
        [by left | right; by left | right; by right].
Qed.

(** X18. The chat list of the client shows every message once.  From a
    list in which no two messages share an id (the history the server
    returned), after any events [newLobbyMessage] or [newGameMessage]:
    no two messages of the list share an id; the list of before is a
    prefix of the list (nothing is dropped or reordered); an id is in the
    list iff it was there or was delivered; every message of the list was
    there or was delivered; and delivering the same events again changes
    nothing. *)
Theorem X18_chat_list_shows_each_message_once (msgs prev : list M) :
  NoDup (msgId <$> prev) →
  let shown := deliver msgId msgs prev in
  NoDup (msgId <$> shown)
  ∧ prev `prefix_of` shown
  ∧ (∀ i, i ∈ msgId <$> shown ↔ i ∈ msgId <$> prev ∨ i ∈ msgId <$> msgs)
  ∧ (∀ m, m ∈ shown → m ∈ prev ∨ m ∈ msgs)
  ∧ deliver msgId msgs shown = shown.
Proof.
  intros Hnd shown. destruct (deliver_spec msgs prev Hnd) as (H1 & H2 & H3 & H4).
  split_and!; [done..|].
  apply deliver_known. intros m Hm. apply H3. right.
  by apply list_elem_of_fmap_2.
Qed.

End chat_lists.

Lemma X18_join_message_delivered_twice :
  NoDup (lm_id <$> [ mkLobbyMessage "m1" "system" "System" "alice joined the lobby"
                                    "t1" true ])
  ∧ Client.deliver lm_id
      [ mkLobbyMessage "m1" "system" "System" "alice joined the lobby" "t1" true;
        mkLobbyMessage "m2" "system" "System" "bob joined the lobby" "t2" true;
        mkLobbyMessage "m2" "system" "System" "bob joined the lobby" "t2" true ]
      [ mkLobbyMessage "m1" "system" "System" "alice joined the lobby" "t1" true ]
    = [ mkLobbyMessage "m1" "system" "System" "alice joined the lobby" "t1" true;
        mkLobbyMessage "m2" "system" "System" "bob joined the lobby" "t2" true ]
  ∧ NoDup (lm_id <$>
             Client.deliver lm_id
               [ mkLobbyMessage "m1" "system" "System" "alice joined the lobby" "t1" true;
                 mkLobbyMessage "m2" "system" "System" "bob joined the lobby" "t2" true;
                 mkLobbyMessage "m2" "system" "System" "bob joined the lobby" "t2" true ]
               [ mkLobbyMessage "m1" "system" "System" "alice joined the lobby"
                                "t1" true ]).
Proof.
  assert (H0 : NoDup (lm_id <$> [ mkLobbyMessage "m1" "system" "System"
                                    "alice joined the lobby" "t1" true ]))
    by (apply NoDup_singleton).
  split_and!; [exact H0 | reflexivity |].
  exact (proj1 (X18_chat_list_shows_each_message_once lm_id _ _ H0)).
Defined.

(** ** The client's board and the server's turn check *)

Lemma joinGame_seated (sock gid uid uname : string) (s0 : Server) (g0 : GameData) :
  JsMap.get gid (activeGames s0) = Some g0 →
  uid = userId (red (players g0))
  ∨ (uid ≠ userId (red (players g0)) ∧ uid = userId (yellow (players g0))) →
  ∃ g, JsMap.get gid (activeGames (joinGame sock gid uid uname s0).1) = Some g
       ∧ Emit (ToRoom gid)
              (GameState (board g) (currentTurn g) (players g) (winner g)
                         (winningCells g))
         ∈ (joinGame sock gid uid uname s0).2
       ∧ g = rebound g0 (players g)
       ∧ userId (red (players g)) = userId (red (players g0))
       ∧ userId (yellow (players g)) = userId (yellow (players g0))
       ∧ (uid = userId (red (players g0)) → socketId (red (players g)) = sock)
       ∧ (uid ≠ userId (red (players g0)) →
          socketId (red (players g)) = socketId (red (players g0))).
Proof.
  intros Hg Huid. unfold joinGame. cbn [socketJoin activeGames]. rewrite Hg.
  destruct Huid as [->|[Hred ->]].
  - rewrite decide_True by done. cbn [fst snd activeGames with_activeGames].
    rewrite get_set_eq. eexists. split; [done|]. split; [rewrite !elem_of_cons; tauto|].
    by split_and!.
  - rewrite decide_False by done. rewrite decide_True by done.
    cbn [fst snd activeGames with_activeGames].
    rewrite get_set_eq. eexists. split; [done|]. split; [rewrite !elem_of_cons; tauto|].
    by split_and!.
Qed.

(** X19. The client sends a move exactly when the server will take it
    as a move of the player in turn.  A user who holds a seat of a
    session joins it from a connection (one that does not hold red's seat
    if the user sits on yellow's); the server answers with [gameState],
    and the client stores it.  Then a click on a column sends [makeMove]
    iff the server finds the connection's colour in turn and the game
    open, so that the server can turn the move down for the column only;
    and when the click sends nothing, a [makeMove] from that connection
    would have been turned down as out of turn or after the end. *)
Theorem X19_click_is_sent_exactly_when_the_server_takes_the_turn
    (sock gid uid uname : string) (col : Z) (s0 : Server) (g0 : GameData)
    (v : Client.GameView) :
  JsMap.get gid (activeGames s0) = Some g0 →
  uid = userId (red (players g0))
  ∨ (uid ≠ userId (red (players g0)) ∧ uid = userId (yellow (players g0))
     ∧ socketId (red (players g0)) ≠ sock) →
  let s := (joinGame sock gid uid uname s0).1 in
  ∃ g, JsMap.get gid (activeGames s) = Some g
       ∧ Emit (ToRoom gid)
              (GameState (board g) (currentTurn g) (players g) (winner g)
                         (winningCells g))
         ∈ (joinGame sock gid uid uname s0).2
       ∧ let v' := Client.handleGameState uid (Client.payloadOf g) v in
         (Client.handleColumnClick gid col v' = Some (MakeMove gid col)
          ∧ colorOf g sock = currentTurn g ∧ winner g = None
          ∧ ∀ msg, makeMove sock gid col s
                   = (s, [ Emit (ToSocket sock) (InvalidMove msg) ]) →
                   msg = "Invalid column!" ∨ msg = "Column is full!")
         ∨ (Client.handleColumnClick gid col v' = None
            ∧ ∃ msg, makeMove sock gid col s
                     = (s, [ Emit (ToSocket sock) (InvalidMove msg) ])
                     ∧ (msg = "It's not your turn!" ∨ msg = "Game is already over!")).
Proof.
  intros Hg0 Huid s.
  destruct (joinGame_seated sock gid uid uname s0 g0 Hg0) as
    (g & Hg & Hemit & _ & Hru & Hyu & Hrs & Hys).
  { destruct Huid as [?|(? & ? & _)]; [by left | by right]. }
  fold s in Hg. exists g. split; [done|]. split; [done|]. cbv zeta.
  assert (Hseat : (uid = userId (red (players g)) ∧ colorOf g sock = Red)
                  ∨ (uid ≠ userId (red (players g)) ∧ uid = userId (yellow (players g))
                     ∧ colorOf g sock = Yellow)).
  { unfold colorOf. destruct Huid as [Hr|(Hnr & Hy & Hsock)].
    - left. split; [congruence|]. by rewrite decide_True by auto.
    - right. split_and!; [congruence | congruence |].
      rewrite decide_False; [done|]. by rewrite Hys. }
  unfold Client.handleGameState, Client.handleColumnClick, makeMove.
  rewrite Hg. cbv zeta. cbn [Client.payloadOf Client.p_players Client.p_currentTurn].
  destruct Hseat as [[Hr Hc]|(Hnr & Hy & Hc)]; rewrite Hc.
  - rewrite (decide_True (P := userId (red (players g)) = uid)) by done.
    cbn [Client.gameState Client.isMyTurn Client.p_winner Client.payloadOf].
    destruct (currentTurn g) eqn:Hturn.
    + rewrite bool_decide_eq_true_2 by done.
      rewrite (decide_False (P := Red ≠ Red)) by (by intros ?). cbn [negb].
      destruct (winner g) as [w|] eqn:Hw.
      * right. split; [done|]. rewrite bool_decide_eq_true_2 by done. eauto.
      * left. split_and!; [done..|]. rewrite bool_decide_eq_false_2 by (by intros ?).
        intros msg. repeat case_match; intros [= <-]; auto.
    + rewrite bool_decide_eq_false_2 by done.
      rewrite (decide_True (P := Yellow ≠ Red)) by done. cbn [negb].
      right. split; [done|]. eauto.
  - rewrite (decide_False (P := userId (red (players g)) = uid)) by done.
    rewrite (decide_True (P := userId (yellow (players g)) = uid)) by done.
    cbn [Client.gameState Client.isMyTurn Client.p_winner Client.payloadOf].
    destruct (currentTurn g) eqn:Hturn.
    + rewrite bool_decide_eq_false_2 by done.
      rewrite (decide_True (P := Red ≠ Yellow)) by done. cbn [negb].
      right. split; [done|]. eauto.
    + rewrite bool_decide_eq_true_2 by done.
      rewrite (decide_False (P := Yellow ≠ Yellow)) by (by intros ?). cbn [negb].
      destruct (winner g) as [w|] eqn:Hw.
      * right. split; [done|]. rewrite bool_decide_eq_true_2 by done. eauto.
      * left. split_and!; [done..|]. rewrite bool_decide_eq_false_2 by (by intros ?).
        intros msg. repeat case_match; intros [= <-]; auto.
Qed.

Lemma X19_bob_joins_and_clicks :
  JsMap.get "g1" (activeGames gameUnderWay) = Some gameAfterFirstMove
  ∧ Client.handleColumnClick "g1" 3
      (Client.handleGameState "ub"
         (Client.payloadOf
            (rebound gameAfterFirstMove
               (mkPlayers (mkPlayer "A" "ua" "alice") (mkPlayer "B2" "ub" "bob"))))
         Client.initialView)
    = Some (MakeMove "g1" 3).
Proof.
  assert (H1 : JsMap.get "g1" (activeGames gameUnderWay) = Some gameAfterFirstMove)
    by reflexivity.
  assert (H2 : "ub" = userId (red (players gameAfterFirstMove))
               ∨ ("ub" ≠ userId (red (players gameAfterFirstMove))
                  ∧ "ub" = userId (yellow (players gameAfterFirstMove))
                  ∧ socketId (red (players gameAfterFirstMove)) ≠ "B2")).
  { right. split_and!; [discriminate | reflexivity | discriminate]. }
  split; [exact H1|].
  destruct (X19_click_is_sent_exactly_when_the_server_takes_the_turn
              "B2" "g1" "ub" "bob" 3 gameUnderWay gameAfterFirstMove
              Client.initialView H1 H2) as (g & Hg & _ & Hclick).
  assert (Hgis : g = rebound gameAfterFirstMove
                       (mkPlayers (mkPlayer "A" "ua" "alice") (mkPlayer "B2" "ub" "bob"))).
  { assert (Hsome : Some g = Some (rebound gameAfterFirstMove
                       (mkPlayers (mkPlayer "A" "ua" "alice") (mkPlayer "B2" "ub" "bob"))))
      by (rewrite <- Hg; reflexivity).
    by injection Hsome. }
  rewrite <- Hgis. destruct Hclick as [[Hsent _]|[Hnone _]]; [exact Hsent|].
  exfalso. rewrite Hgis in Hnone. discriminate Hnone.
Defined.

(** ** Finished sessions and their clean-up timers *)

(** A clean-up timer stays armed until it fires: the handles that the
    challenge handlers clear are those of expiry timers. *)
Lemma cleanup_timer_step (e : Event) (s : Server) (h : nat) (d : Z) (gid : string) :
  challengesInv s →
  timers s !! h = Some (mkTimer d (GameCleanup gid)) →
  e ≠ TimerFires h →
  timers (step e s).1 !! h = Some (mkTimer d (GameCleanup gid)).
Proof.
  intros (Hnd & Harmed & _ & Hnext) Hh Hfire.
  assert (Hlt : h ≠ nextTimer s).
  { intros ->. rewrite Hnext in Hh by lia. done. }
  assert (Hch : ∀ cid ch, JsMap.get cid (activeChallenges s) = Some ch →
                          ch_timeout ch ≠ h).
  { intros cid ch Hc <-. rewrite (Harmed _ _ Hc) in Hh. done. }
  destruct e as [uuid now sock m|h0|k]; [destruct m|..]; cbn [step handle].
  - unfold joinLobby. by case_match.
  - unfold sendChallenge. repeat case_match; try done.
    cbn [fst timers with_activeChallenges setTimeout]. by rewrite lookup_insert_ne.
  - unfold acceptChallenge. case_match eqn:Hc; [|done].
    cbn [fst timers with_activeChallenges with_activeGames clearTimeout].
    rewrite lookup_delete_ne; [done|]. by eapply Hch.
  - unfold declineChallenge. case_match eqn:Hc; [|done].
    cbn [fst timers with_activeChallenges clearTimeout].
    rewrite lookup_delete_ne; [done|]. by eapply Hch.
  - unfold joinGame. by repeat case_match.
  - unfold makeMove. repeat case_match; try done;
      cbn [fst timers with_activeGames setTimeout]; by rewrite lookup_insert_ne.
  - unfold forfeitGame. by case_match.
  - unfold disconnect. case_match; [|done].
    cbn [fst timers with_activeChallenges]. rewrite clearTimeouts_timers.
    rewrite decide_False; [done|].
    intros ([cid ch] & Hhandle & [_ Hin]%list_elem_of_filter)%list_elem_of_fmap.
    cbn [snd with_onlineUsers activeChallenges] in *.
    apply (Hch cid ch); [|done]. by apply elem_of_get.
  - unfold fireTimer. case_match; [|done].
    assert (h0 ≠ h) by congruence.
    case_match; cbn [fst timers with_activeChallenges with_activeGames clearTimeout];
      by rewrite lookup_delete_ne.
  - unfold resume. by case_match.
Qed.

(** A session that is finished after an event was finished before it, or
    the event is the move that ended it and armed its timer. *)
Lemma finished_step (e : Event) (s : Server) (gid : string) (g' : GameData) :
  JsMap.get gid (activeGames (step e s).1) = Some g' →
  winner g' ≠ None →
  (∃ g0, JsMap.get gid (activeGames s) = Some g0 ∧ winner g0 ≠ None)
  ∨ timers (step e s).1 !! nextTimer s = Some (mkTimer 30000 (GameCleanup gid)).
Proof.
  destruct e as [uuid now sock m|h0|k]; [destruct m|..]; cbn [step handle].
  - unfold joinLobby. case_match; cbn [fst activeGames]; eauto.
  - unfold sendChallenge. repeat case_match; cbn [fst activeGames]; eauto.
  - unfold acceptChallenge. case_match; cbn [fst activeGames with_activeGames]; eauto.
    rewrite get_set. case_decide; [by intros [= <-]|].
    cbn [activeGames with_activeChallenges clearTimeout]. eauto.
  - unfold declineChallenge. case_match; cbn [fst activeGames]; eauto.
  - rewrite joinGame_games. intros Hg' Hwin. left.
    destruct (JsMap.get gameId (activeGames s)) as [g|] eqn:Hg; [|eauto].
    repeat case_decide; eauto; rewrite get_set in Hg'; case_decide; subst; eauto;
      injection Hg' as <-; eauto.
  - intros Hg' Hwin. destruct (decide (gameId = gid)) as [->|Hne].
    + destruct (JsMap.get gid (activeGames s)) as [g|] eqn:Hg.
      * destruct (decide (winner g = None)) as [Hopen|Hdone]; [|eauto].
        right.
        destruct (makeMove_timers sock gid col s _ g g' Hg eq_refl Hg') as [_ Harm].
        rewrite Harm by congruence. cbn [timers setTimeout with_activeGames].
        apply lookup_insert_eq.
      * revert Hg'. unfold makeMove. rewrite Hg. cbn [fst]. congruence.
    + rewrite makeMove_other_session in Hg' by done. eauto.
  - unfold forfeitGame. case_match; cbn [fst activeGames with_activeGames]; eauto.
    rewrite get_delete. case_decide; [done | eauto].
  - unfold disconnect. case_match; [|eauto]. cbn [fst activeGames with_activeChallenges].
    rewrite clearTimeouts_activeGames. cbn [activeGames with_onlineUsers]. eauto.
  - unfold fireTimer. repeat case_match; cbn [fst activeGames with_activeChallenges
      with_activeGames clearTimeout]; eauto.
    rewrite get_delete. case_decide; [done | eauto].
  - unfold resume. case_match; cbn [fst]; eauto.
Qed.

Lemma cleanupArmed_step (e : Event) (s : Server) :
  challengesInv s → cleanupArmed s → cleanupArmed (step e s).1.
Proof.
  intros Hinv Harmed gid g' Hg' Hwin.
  destruct (finished_step e s gid g' Hg' Hwin) as [(g0 & Hg0 & Hwin0)|Hnew]; [|eauto].
  destruct (Harmed gid g0 Hg0 Hwin0) as [h Hh]. exists h.
  apply cleanup_timer_step; [done | done |]. intros ->.
  revert Hg'. cbn [step]. unfold fireTimer. rewrite Hh.
  cbn [callback fst activeGames with_activeGames clearTimeout].
  by rewrite get_delete_eq.
Qed.

Lemma cleanupArmed_run (es : list Event) (s : Server) :
  challengesInv s → freshRun es s → cleanupArmed s → cleanupArmed (run es s).1.
Proof.
  revert s. induction es as [|e es IH]; intros s Hinv Hfresh Harmed; [done|].
  destruct Hfresh as [He Hes]. cbn [run].
  pose proof (challengesInv_step e s Hinv He) as Hinv'.
  pose proof (cleanupArmed_step e s Hinv Harmed) as Harmed'.
  destruct (step e s) as [s1 out1]. specialize (IH s1 Hinv' Hes Harmed').
  by destruct (run es s1).
Qed.

(** X20. No finished session is left behind.  In every state the server
    reaches (with [randomUUID] drawing unused challenge ids), a session
    whose [winner] is set has a 30-second clean-up timer armed for its
    id, whatever challenges were accepted, declined or cancelled by a
    disconnect in between; and when that timer fires the session is
    deleted. *)
Theorem X20_finished_session_has_its_cleanup_armed
    (es : list Event) (gid : string) (g : GameData) :
  freshRun es initialServer →
  let s := (run es initialServer).1 in
  JsMap.get gid (activeGames s) = Some g →
  winner g ≠ None →
  ∃ h, timers s !! h = Some (mkTimer 30000 (GameCleanup gid))
       ∧ JsMap.get gid (activeGames (fireTimer h s).1) = None.
Proof.
  intros Hfresh s Hg Hwin.
  assert (Harmed : cleanupArmed s).
  { apply cleanupArmed_run; [apply challengesInv_initial | done | by intros ? ?]. }
  destruct (Harmed gid g Hg Hwin) as [h Hh]. exists h. split; [done|].
  unfold fireTimer. rewrite Hh.
  cbn [callback fst activeGames with_activeGames clearTimeout]. apply get_delete_eq.
Qed.

Lemma X20_cleanup_is_armed_after_the_red_win :
  freshRun eventsToRedWin initialServer
  ∧ JsMap.get "g1" (activeGames (run eventsToRedWin initialServer).1) = Some gameWonByRed
  ∧ ∃ h, timers (run eventsToRedWin initialServer).1 !! h
         = Some (mkTimer 30000 (GameCleanup "g1")).
Proof.
  assert (H0 : freshRun eventsToRedWin initialServer)
    by (vm_compute; tauto).
  assert (H1 : JsMap.get "g1" (activeGames (run eventsToRedWin initialServer).1)
               = Some gameWonByRed) by (vm_compute; reflexivity).
  assert (H2 : winner gameWonByRed ≠ None) by discriminate.
  split_and!; [exact H0 | exact H1 |].
  destruct (X20_finished_session_has_its_cleanup_armed
              eventsToRedWin "g1" gameWonByRed H0 H1 H2) as (h & Hh & _).
  exists h. exact Hh.
Defined.

(** ** Instances of the properties without side conditions *)

Lemma X6_alice_joins_from_a_second_connection :
  onlineUsers (joinGame "A2" "g1" "ua" "alice" gameUnderWay).1 = onlineUsers gameUnderWay
  ∧ ∃ joined, rooms (joinGame "A2" "g1" "ua" "alice" gameUnderWay).1 !! "A2" = Some joined
              ∧ "g1" ∈ joined.
Proof.
  destruct (X6_joinGame_changes_socket_ids_only "A2" "g1" "ua" "alice" gameUnderWay)
    as (_ & Hou & _ & _ & Hroom).
  split; [exact Hou | exact Hroom].
Defined.

Lemma X13_alice_keeps_her_entry :
  JsMap.get "A" (onlineUsers (run (take 3 eventsToGameUnderWay) initialServer).1)
  = Some (mkOnlineUser "A" "ua" "alice")
  ∧ hasJoinedLobby (sockData (run (take 3 eventsToGameUnderWay) initialServer).1 "A")
    = true.
Proof.
  assert (H0 : JsMap.get "A"
                 (onlineUsers (run (take 3 eventsToGameUnderWay) initialServer).1)
               = Some (mkOnlineUser "A" "ua" "alice")) by reflexivity.
  split; [exact H0|].
  exact (proj1 (proj1 (X13_presence_entry_is_written_once
                         (take 3 eventsToGameUnderWay) (drop 3 eventsToGameUnderWay) "A")
                  _ H0)).
Defined.

Lemma X14_token_of_alice_is_cleaned_after_ten_minutes :
  Registration.cleanup 700000
    (Registration.serveAll (λ d, d)
       [Registration.GetRegisterToken Registration.aliceRequest 1000] [])
  = [].
Proof.
  rewrite (proj1 (X14_cleanup_keeps_exactly_the_unexpired_tokens
                    (λ d, d)
                    [Registration.GetRegisterToken Registration.aliceRequest 1000]
                    700000)).
  vm_compute. reflexivity.
Defined.

Lemma X16_failed_captcha_keeps_the_token_of_alice :
  (Registration.register Registration.aliceRequest Registration.aliceBody 2000
     Registration.CaptchaFailure Registration.UsernameTaken
     (Registration.serveAll (λ d, d)
        [Registration.GetRegisterToken Registration.aliceRequest 1000] [])).1.1
  = Registration.serveAll (λ d, d)
      [Registration.GetRegisterToken Registration.aliceRequest 1000] [].
Proof.
  destruct (X16_a_failed_registration_keeps_the_token
              Registration.aliceRequest Registration.aliceBody 2000
              Registration.CaptchaFailure Registration.UsernameTaken
              (Registration.serveAll (λ d, d)
                 [Registration.GetRegisterToken Registration.aliceRequest 1000] []))
    as [[Hsame _]|(tok & t & _ & _ & _ & [[_ [id Hcreated]]|[Hexpired _]])].
  - exact Hsame.
  - discriminate Hcreated.
  - vm_compute. reflexivity.
Defined.

(** ** Moves whose column is not sent as a number *)


